(** * QuantumComputation: register manager, importers, builder and
    foreign-circuit bridge of the QFR intermediate representation

    A shallow embedding of [src/QuantumComputation.cpp] (both translation
    units it holds: the IR proper and the Qiskit bridge), followed by the
    properties of the specification that are stated about it.

    Conventions.
    - C++ integers are [Z]; a value stored in a local or parameter that the
      source declares [unsigned short] goes through [wrap16].
    - [std::map] is [gmap]; [std::map::insert] keeps an existing binding
      ([map_insert_new]) while [operator[]] overwrites ([<[k:=v]>]).
    - [exit(n)] is the outcome [Exit n msg]; a normal return is [Done].
    - The decision-diagram package, the operation classes and the OpenQASM
      parser live outside this file of the repository; they enter as Section
      variables or as definitions marked "Modelled from the spec". *)

From stdpp Require Import gmap gmultiset strings list pretty sorting.
From Stdlib Require Import ZArith QArith Qround Qabs Lia Lqa Ascii.

Open Scope Z_scope.

(** ** Outcomes of a call that may terminate the process *)

(** [Abort] stands for every way of leaving the behaviour described here:
    an uncaught C++ exception, undefined behaviour, or a read from an
    exhausted stream (whose effect depends on the stream's state bits). *)
Inductive Outcome (A : Type) : Type :=
| Done (a : A)
| Exit (code : Z) (msg : string)
| Abort (why : string).
Arguments Done {A} a.
Arguments Exit {A} code msg.
Arguments Abort {A} why.

#[global] Instance outcome_ret : MRet Outcome := fun A a => Done a.
#[global] Instance outcome_bind : MBind Outcome := fun A B f m =>
  match m with
  | Done a => f a
  | Exit c s => Exit c s
  | Abort w => Abort w
  end.

Definition is_done {A} (m : Outcome A) : bool :=
  match m with Done _ => true | _ => false end.

(** ** Machine integers *)

Definition wrap16 (x : Z) : Z := x mod 65536.

(** ** Operations

    The operation classes are declared outside [QuantumComputation.cpp]. An
    operation is represented by the constructor call that builds it, with
    the arguments in the order the source passes them. *)

(** The enumeration [Gate] of the revision that holds the importers. *)
Module Gate.
Inductive t : Set :=
| None | I | H | X | Y | Z | S | Sdag | T | Tdag | V | Vdag
| U3 | U2 | U1 | RX | RY | RZ | SWAP | P | Pdag.

Definition eqb (a b : t) : bool :=
  match a, b with
  | None, None | I, I | H, H | X, X | Y, Y | Z, Z | S, S | Sdag, Sdag
  | T, T | Tdag, Tdag | V, V | Vdag, Vdag | U3, U3 | U2, U2 | U1, U1
  | RX, RX | RY, RY | RZ, RZ | SWAP, SWAP | P, P | Pdag, Pdag => true
  | _, _ => false
  end.
End Gate.

(** The members of [qc::OpType] that the bridge's revision names. *)
Module OpType.
Inductive t : Set :=
| I | H | X | Y | Z | S | Sdag | T | Tdag | U3 | U2 | Phase | SX | SXdag
| RX | RY | RZ | SWAP | iSWAP.
End OpType.

(** What a standard operation applies, in either revision. *)
Inductive GateKind : Set :=
| OfGate (g : Gate.t)
| OfOpType (t : OpType.t).

(** [fp] values. The sources only ever store a literal or [PI / literal];
    the quotient by pi is kept symbolic. *)
Inductive fp : Type :=
| FLit (q : Q)
| PiOver (q : Q).

Definition fp0 : fp := FLit 0%Q.
Definition PI_2 : fp := PiOver 2%Q.

Module Control.
Inductive type : Set := pos | neg.
Record t : Set := mk { qubit : Z; ctype : type }.
End Control.

Inductive NonUnitaryKind : Set :=
| Measure | Barrier | Snapshot | ShowProbabilities.

Inductive Operation : Type :=
| StandardOperation (nq : Z) (controls : list Control.t) (targets : list Z)
    (g : GateKind) (lambda phi theta : fp)
| NonUnitaryOperation (nq : Z) (k : NonUnitaryKind) (qubits : list Z)
    (classics : list Z) (n : Z)
| ClassicControlledOperation (op : Operation) (control : Z).

(** Modelled from the spec: [Operation::setNqubits], [Operation::actsOn] and
    [Operation::isUnitary] (the capability set of section 6; the classes are
    defined outside [QuantumComputation.cpp]). An operation is told the
    width, acts on its controls and targets, and is unitary when it is a
    plain gate. The register manager and the builder below take these three
    as Section variables; the definitions here instantiate them. *)
Fixpoint op_setNqubits (n : Z) (o : Operation) : Operation :=
  match o with
  | StandardOperation _ cs ts g l p t => StandardOperation n cs ts g l p t
  | NonUnitaryOperation _ k qs cl m => NonUnitaryOperation n k qs cl m
  | ClassicControlledOperation o' b =>
      ClassicControlledOperation (op_setNqubits n o') b
  end.

Fixpoint op_actsOn (o : Operation) (i : Z) : bool :=
  match o with
  | StandardOperation _ cs ts _ _ _ _ =>
      existsb (fun c => Control.qubit c =? i) cs || existsb (Z.eqb i) ts
  | NonUnitaryOperation _ _ qs _ _ => existsb (Z.eqb i) qs
  | ClassicControlledOperation o' _ => op_actsOn o' i
  end.

Definition op_isUnitary (o : Operation) : bool :=
  match o with
  | StandardOperation _ _ _ _ _ _ _ => true
  | NonUnitaryOperation _ _ _ _ _ => false
  | ClassicControlledOperation _ _ => false
  end.

Fixpoint op_nqubits (o : Operation) : Z :=
  match o with
  | StandardOperation n _ _ _ _ _ _ => n
  | NonUnitaryOperation n _ _ _ _ => n
  | ClassicControlledOperation o' _ => op_nqubits o'
  end.

Definition op_ncontrols (o : Operation) : Z :=
  match o with
  | StandardOperation _ cs _ _ _ _ _ => Z.of_nat (length cs)
  | _ => 0
  end.

(** ** The circuit *)

Record QuantumComputation : Type := mkQC {
  nqubits : Z;
  nclassics : Z;
  name : string;
  qregs : gmap string (Z * Z);
  cregs : gmap string (Z * Z);
  inputPermutation : gmap Z Z;
  outputPermutation : gmap Z Z;
  ops : list Operation;
  max_controls : Z
}.

(** A freshly constructed circuit. *)
Definition emptyQC : QuantumComputation :=
  mkQC 0 0 "" ∅ ∅ ∅ ∅ [] 0.

Definition set_nqubits (n : Z) (c : QuantumComputation) :=
  mkQC n (nclassics c) (name c) (qregs c) (cregs c) (inputPermutation c)
    (outputPermutation c) (ops c) (max_controls c).
Definition set_nclassics (n : Z) (c : QuantumComputation) :=
  mkQC (nqubits c) n (name c) (qregs c) (cregs c) (inputPermutation c)
    (outputPermutation c) (ops c) (max_controls c).
Definition set_name (s : string) (c : QuantumComputation) :=
  mkQC (nqubits c) (nclassics c) s (qregs c) (cregs c) (inputPermutation c)
    (outputPermutation c) (ops c) (max_controls c).
Definition set_qregs (m : gmap string (Z * Z)) (c : QuantumComputation) :=
  mkQC (nqubits c) (nclassics c) (name c) m (cregs c) (inputPermutation c)
    (outputPermutation c) (ops c) (max_controls c).
Definition set_cregs (m : gmap string (Z * Z)) (c : QuantumComputation) :=
  mkQC (nqubits c) (nclassics c) (name c) (qregs c) m (inputPermutation c)
    (outputPermutation c) (ops c) (max_controls c).
Definition set_perms (i o : gmap Z Z) (c : QuantumComputation) :=
  mkQC (nqubits c) (nclassics c) (name c) (qregs c) (cregs c) i o
    (ops c) (max_controls c).
Definition set_ops (l : list Operation) (c : QuantumComputation) :=
  mkQC (nqubits c) (nclassics c) (name c) (qregs c) (cregs c)
    (inputPermutation c) (outputPermutation c) l (max_controls c).
Definition set_max_controls (n : Z) (c : QuantumComputation) :=
  mkQC (nqubits c) (nclassics c) (name c) (qregs c) (cregs c)
    (inputPermutation c) (outputPermutation c) (ops c) n.

(** [std::map::insert]: the binding is added only when the key is absent. *)
Definition map_insert_new `{Countable K} {V} (k : K) (v : V)
    (m : gmap K V) : gmap K V :=
  match m !! k with
  | Some _ => m
  | None => <[k := v]> m
  end.

(** [emplace_back<T>(args...)]: the operation is appended to [ops]. *)
Definition emplace_back (o : Operation) (c : QuantumComputation) :=
  set_ops (ops c ++ [o]) c.

(** Modelled from the spec: [updateMaxControls] (declared in
    [QuantumComputation.hpp]); [maxControlCount] is the largest control
    count observed, so an update keeps the maximum. *)
Definition updateMaxControls (n : Z) (c : QuantumComputation) :=
  set_max_controls (Z.max n (max_controls c)) c.

(** [for (unsigned short i = 0; i < nq; ++i) { j = start + i;
    perm.insert({j, j}); }], the loop that seeds identity entries. *)
Fixpoint seed_identity (k : nat) (start : Z) (m : gmap Z Z) : gmap Z Z :=
  match k with
  | O => m
  | S k' =>
      let m' := seed_identity k' start m in
      let j := wrap16 (start + Z.of_nat k') in
      map_insert_new j j m'
  end.

(** ** Register and permutation manager *)

(** The test of [getQubitRegister] on one register [(start_idx, count)]:
    neither [i < start_idx] nor [i >= start_idx + count]. *)
Definition reg_contains (i : Z) (r : Z * Z) : bool :=
  negb (i <? r.1) && negb (i >=? r.1 + r.2).

(** [std::map] iterates in key order: of several candidates the loop of
    [getQubitRegister] returns the one with the least name. *)
Definition least_name (l : list (string * (Z * Z))) : option string :=
  foldr (fun kv acc =>
           match acc with
           | None => Some kv.1
           | Some n => if String.ltb kv.1 n then Some kv.1 else Some n
           end) None l.

Definition getQubitRegister (i : Z) (c : QuantumComputation)
    : Outcome string :=
  let i := wrap16 i in
  match least_name
          (List.filter (fun kv => reg_contains i kv.2)
             (map_to_list (qregs c))) with
  | Some n => Done n
  | None => Exit 1 "Qubit index not found in any register"
  end.

Definition getQubitRegisterAndIndex (i : Z) (c : QuantumComputation)
    : Outcome (string * Z) :=
  reg_name ← getQubitRegister i c;
  let first := match qregs c !! reg_name with
               | Some r => r.1
               | None => 0
               end in
  Done (reg_name, wrap16 (wrap16 i - first)).

Definition addClassicalRegister (nc : Z) (reg_name : string)
    (c : QuantumComputation) : Outcome QuantumComputation :=
  if bool_decide (is_Some (cregs c !! reg_name)) then
    Exit 1 "Augmenting existing classical registers is currently not supported"
  else
    let c := set_cregs (map_insert_new reg_name (nclassics c, nc) (cregs c)) c in
    Done (set_nclassics (nclassics c + nc) c).

Section RegisterManager.

(** [dd::MAXN], the widest circuit the decision-diagram package supports;
    the constant is declared in that package. *)
Variable MAXN : Z.

(** The operation capabilities used here. *)
Variable setNqubits : Z -> Operation -> Operation.
Variable actsOn : Operation -> Z -> bool.

Definition addQubitRegister (nq : Z) (reg_name : string)
    (c : QuantumComputation) : Outcome QuantumComputation :=
  if nqubits c + nq >? MAXN then
    Exit 1 "Adding additional ancillaries results in too many qubits."
  else
    regs ←
      match qregs c !! reg_name with
      | Some reg =>
          if reg.1 + reg.2 =? nqubits c then
            Done (<[reg_name := (reg.1, reg.2 + nq)]> (qregs c))
          else
            Exit 1 "Augmenting existing qubit registers is only supported for the last register in a circuit"
      | None => Done (map_insert_new reg_name (nqubits c, nq) (qregs c))
      end;
    let c := set_qregs regs c in
    let c := set_perms
               (seed_identity (Z.to_nat nq) (nqubits c) (inputPermutation c))
               (seed_identity (Z.to_nat nq) (nqubits c) (outputPermutation c))
               c in
    let c := set_nqubits (nqubits c + nq) c in
    Done (set_ops (map (setNqubits (nqubits c)) (ops c)) c).

Definition isIdleQubit (i : Z) (c : QuantumComputation) : bool :=
  forallb (fun op => negb (actsOn op (wrap16 i))) (ops c).

(** The body of the loop of [stripTrailingIdleQubits] in the idle case. *)
Definition strip_one (i : Z) (c : QuantumComputation)
    : Outcome QuantumComputation :=
  let c := set_perms (delete i (inputPermutation c))
             (delete i (outputPermutation c)) c in
  let c := set_nqubits (nqubits c - 1) c in
  reg_name ← getQubitRegister i c;
  match qregs c !! reg_name with
  | Some reg =>
      if reg.2 =? 1 then Done (set_qregs (delete reg_name (qregs c)) c)
      else Done (set_qregs (<[reg_name := (reg.1, reg.2 - 1)]> (qregs c)) c)
  | None => Abort "map::at"
  end.

(** [for (int i = nqubits-1; i >= 0; i--)], with [k = i + 1] iterations
    left. *)
Fixpoint strip_loop (k : nat) (c : QuantumComputation)
    : Outcome QuantumComputation :=
  match k with
  | O => Done c
  | S k' =>
      let i := Z.of_nat k' in
      if isIdleQubit i c then
        c' ← strip_one i c;
        strip_loop k' c'
      else
        Done (set_ops (map (setNqubits (nqubits c)) (ops c)) c)
  end.

Definition stripTrailingIdleQubits (c : QuantumComputation)
    : Outcome QuantumComputation :=
  strip_loop (Z.to_nat (nqubits c)) c.

End RegisterManager.

(** The loops of [print] that write a permutation:
    [for (unsigned short i = 0; i < nqubits; ++i) os << perm.at(i)].
    [std::map::at] throws [std::out_of_range] on a missing key. *)
Fixpoint permutation_row (k : nat) (perm : gmap Z Z) : Outcome (list Z) :=
  match k with
  | O => Done []
  | S k' =>
      row ← permutation_row k' perm;
      match perm !! wrap16 (Z.of_nat k') with
      | Some v => Done (row ++ [v])
      | None => Abort "map::at"
      end
  end.

(** What [print] writes of the permutations: the row of the input
    permutation, then the row of the output permutation. *)
Definition print_permutations (c : QuantumComputation)
    : Outcome (list Z * list Z) :=
  i ← permutation_row (Z.to_nat (nqubits c)) (inputPermutation c);
  o ← permutation_row (Z.to_nat (nqubits c)) (outputPermutation c);
  Done (i, o).

(** ** Functionality and simulation builder

    The decision-diagram package is an external collaborator. Its calls are
    recorded as events; what a call returns may depend on everything the
    package has been asked before, so each oracle of [Package] receives the
    history of events so far. *)

Section Builder.

Context {Edge : Type}.

Inductive DDEvent : Type :=
| EvUseMatrixNormalization (b : bool)
| EvMakeIdent (lo hi : Z)
| EvIncRef (e : Edge)
| EvDecRef (e : Edge)
| EvGetDD (op : Operation) (perm : gmap Z Z) (executeSwaps : bool)
| EvMultiply (x y : Edge)
| EvGarbageCollect.

(** The scratch buffer [std::array<short, MAX_QUBITS> line]. *)
Definition Line : Type := list Z.

(** [getDD] is handed the scratch buffer and the output permutation, and
    may change both. *)
Record Package : Type := mkPackage {
  DDone : Edge;
  makeIdent : list DDEvent -> Z -> Z -> Edge;
  multiply : list DDEvent -> Edge -> Edge -> Edge;
  getDD : list DDEvent -> Operation -> Line -> gmap Z Z -> bool
          -> Edge * Line * gmap Z Z
}.

Variable dd : Package.
Variable isUnitary : Operation -> bool.
Variable MAX_QUBITS : nat.
Variable LINE_DEFAULT : Z.

(** What a build leaves: the history of the package, the output
    permutation of the circuit, and the outcome. *)
Definition BuildResult : Type :=
  (list DDEvent * gmap Z Z * Outcome Edge)%type.

(** The loop [for (auto& op : ops)] shared by [buildFunctionality] and
    [simulate]. [h] is the history of the package, [e] the accumulator,
    [perm] the output permutation. *)
Fixpoint fold_ops (executeSwaps : bool) (l : list Operation) (line : Line)
    (perm : gmap Z Z) (e : Edge) (h : list DDEvent) : BuildResult :=
  match l with
  | [] => (h, perm, Done e)
  | op :: rest =>
      if negb (isUnitary op) then
        (h, perm, Exit 1 "Functionality not unitary.")
      else
        let '(f, line', perm') := getDD dd h op line perm executeSwaps in
        let h := h ++ [EvGetDD op perm executeSwaps] in
        let tmp := multiply dd h f e in
        let h := h ++ [EvMultiply f e] in
        let h := h ++ [EvIncRef tmp] in
        let h := h ++ [EvDecRef e] in
        let h := h ++ [EvGarbageCollect] in
        fold_ops executeSwaps rest line' perm' tmp h
  end.

Definition buildFunctionality (c : QuantumComputation) (executeSwaps : bool)
    (h : list DDEvent) : BuildResult :=
  if nqubits c =? 0 then (h, outputPermutation c, Done (DDone dd))
  else
    let line := replicate MAX_QUBITS LINE_DEFAULT in
    let h := h ++ [EvUseMatrixNormalization true] in
    let e := makeIdent dd h 0 (nqubits c - 1) in
    let h := h ++ [EvMakeIdent 0 (nqubits c - 1)] in
    let h := h ++ [EvIncRef e] in
    match fold_ops executeSwaps (ops c) line (outputPermutation c) e h with
    | (h, perm, Done e) =>
        (h ++ [EvUseMatrixNormalization false], perm, Done e)
    | r => r
    end.

Definition simulate (c : QuantumComputation) (input : Edge)
    (executeSwaps : bool) (h : list DDEvent) : BuildResult :=
  let line := replicate MAX_QUBITS LINE_DEFAULT in
  let e := input in
  let h := h ++ [EvIncRef e] in
  fold_ops executeSwaps (ops c) line (outputPermutation c) e h.

End Builder.

Arguments DDEvent : clear implicits.
Arguments Package : clear implicits.

(** *** Reading a history of package calls *)

Section Accounting.

Context {Edge : Type} `{Countable Edge}.

(** The retains outstanding after a sequence of events: [incRef] adds one
    retain of the edge, [decRef] takes one away. [None] when an edge is
    released that holds no retain. *)
Fixpoint outstanding (evs : list (DDEvent Edge)) (held : gmultiset Edge)
    : option (gmultiset Edge) :=
  match evs with
  | [] => Some held
  | EvIncRef e :: evs' => outstanding evs' (held ⊎ {[+ e +]})
  | EvDecRef e :: evs' =>
      if bool_decide (e ∈ held) then outstanding evs' (held ∖ {[+ e +]})
      else None
  | _ :: evs' => outstanding evs' held
  end.

Definition is_gc (ev : DDEvent Edge) : bool :=
  match ev with EvGarbageCollect => true | _ => false end.
Definition is_multiply (ev : DDEvent Edge) : bool :=
  match ev with EvMultiply _ _ => true | _ => false end.
Definition is_normalization (ev : DDEvent Edge) : bool :=
  match ev with EvUseMatrixNormalization _ => true | _ => false end.
Definition is_ref (ev : DDEvent Edge) : bool :=
  match ev with EvIncRef _ | EvDecRef _ => true | _ => false end.

(** The retain/release events of a fold whose successive accumulators are
    [e0 :: es]: every new accumulator is retained, then the one it
    supersedes is released. *)
Fixpoint handover (e0 : Edge) (es : list Edge) : list (DDEvent Edge) :=
  match es with
  | [] => []
  | e1 :: es' => EvIncRef e1 :: EvDecRef e0 :: handover e1 es'
  end.

End Accounting.

(** ** Foreign-circuit import bridge

    The foreign objects are Python values reached through pybind11. A qubit
    or classical bit carries the name of its register and its index in it;
    an instruction carries its name, its parameters and, when it is
    composite, the circuit that defines it. *)

(** [bit_index] is the value of [attr("index").cast<unsigned short>()]. *)
Record PyBit : Set := mkBit { bit_register : string; bit_index : Z }.

#[global] Instance PyBit_eq_dec : EqDecision PyBit.
Proof. solve_decision. Defined.

#[global] Instance PyBit_countable : Countable PyBit :=
  inj_countable' (fun b => (bit_register b, bit_index b))
    (fun p => mkBit p.1 p.2) (fun b => match b with mkBit _ _ => eq_refl end).

(** [definition] is [None] for an instruction without decomposition (the
    Python attribute is then [None]); otherwise it holds the circuit's
    [qubits], [clbits] and [data]. *)
#[warnings="-register-all"]
Inductive Instruction : Type :=
| mkInstruction (iname : string) (iparams : list Q)
    (idefinition :
       option (list PyBit * list PyBit *
               list (Instruction * list PyBit * list PyBit))).

Definition QuantumCircuit : Type :=
  (list PyBit * list PyBit * list (Instruction * list PyBit * list PyBit))%type.

Definition inst_name (i : Instruction) : string :=
  match i with mkInstruction n _ _ => n end.
Definition inst_params (i : Instruction) : list Q :=
  match i with mkInstruction _ p _ => p end.
Definition inst_definition (i : Instruction) : option QuantumCircuit :=
  match i with mkInstruction _ _ d => d end.

(** How a call into the bridge ends: it returns, it leaves by a Python
    exception ([py::error_already_set]) that an enclosing [catch] may
    intercept, or the process is lost (an [exit], an uncaught C++ exception
    or undefined behaviour). *)
Inductive PyOutcome : Type :=
| PyOk
| PyRaise (what : string)
| PyAbort (why : string).

(** The circuit under construction and what has been written to
    [std::cerr]. *)
Record BridgeState : Type := mkBridge {
  qc : QuantumComputation;
  cerr : list string
}.

Definition nativelySupportedGates : list string :=
  ["i"; "id"; "iden"; "x"; "y"; "z"; "h"; "s"; "sdg"; "t"; "tdg"; "p"; "u1";
   "rx"; "ry"; "rz"; "u2"; "u"; "u3"; "cx"; "cy"; "cz"; "cp"; "cu1"; "ch";
   "crx"; "cry"; "crz"; "cu3"; "ccx"; "swap"; "cswap"; "iswap"; "sx"; "sxdg";
   "csx"; "mcx_gray"; "mcx_recursive"; "mcx_vchain"; "mcphase"; "mcrx";
   "mcry"; "mcrz"]%string.

Definition name_in (l : list string) (s : string) : bool :=
  existsb (String.eqb s) l.

(** The names that [emplaceQiskitOperation] translates without looking at
    the instruction's definition: the tests that come before its last
    [else]. *)
Definition directly_translated (instructionName : string) : bool :=
  String.eqb instructionName "measure" ||
  String.eqb instructionName "barrier" ||
  name_in nativelySupportedGates instructionName.

(** [list.pop()]: removes the last element; [IndexError] on an empty list. *)
Definition py_pop {A} (l : list A) : option (list A) :=
  match l with
  | [] => None
  | _ => Some (removelast l)
  end.

(** [for (int i = 0; i < n; ++i) qargs_copy.attr("pop")();] *)
Fixpoint py_pop_n {A} (n : nat) (l : list A) : option (list A) :=
  match n with
  | O => Some l
  | S n' => match py_pop l with
            | Some l' => py_pop_n n' l'
            | None => None
            end
  end.

(** The number of [pop] calls of the [mcx_vchain] branch:
    [size] and [ncontrols] are [unsigned short], the loop counter is [int]. *)
Definition vchain_ncontrols (argc : nat) : Z :=
  let size := wrap16 (Z.of_nat argc) in
  wrap16 ((size + 1) / 2).

Definition vchain_pops (argc : nat) : nat :=
  Z.to_nat (vchain_ncontrols argc - 2).

Section Bridge.

(** Declared in the header of the bridge's revision: the absolute index of
    a register element, and the width handed to new operations. *)
Variable getIndexFromQubitRegister :
  QuantumComputation -> string * Z -> Outcome Z.
Variable getIndexFromClassicalRegister :
  QuantumComputation -> string * Z -> Outcome Z.
Variable getNqubits : QuantumComputation -> Z.

Definition bridge_emplace (o : Operation) (st : BridgeState) : BridgeState :=
  mkBridge (emplace_back o (qc st)) (cerr st).

(** The loop that resolves every argument to an absolute qubit index and
    stores it in an [unsigned short]. *)
Fixpoint resolve_qubits (c : QuantumComputation) (qargs : list PyBit)
    : Outcome (list Z) :=
  match qargs with
  | [] => Done []
  | q :: rest =>
      target ← getIndexFromQubitRegister c (bit_register q, bit_index q);
      others ← resolve_qubits c rest;
      Done (wrap16 target :: others)
  end.

(** [params] of length 1, 2 and 3 give (lambda), (phi, lambda) and
    (theta, phi, lambda); the result is the triple (lambda, phi, theta). *)
Definition read_params (params : list Q) : fp * fp * fp :=
  match params with
  | [l] => (FLit l, fp0, fp0)
  | [p; l] => (FLit l, FLit p, fp0)
  | [t; p; l] => (FLit l, FLit p, FLit t)
  | _ => (fp0, fp0, fp0)
  end.

Definition as_control (q : Z) : Control.t := Control.mk q Control.pos.

Definition addQiskitOperation (type : OpType.t) (qargs : list PyBit)
    (params : list Q) (st : BridgeState) : BridgeState * PyOutcome :=
  match resolve_qubits (qc st) qargs with
  | Exit _ msg | Abort msg => (st, PyAbort msg)
  | Done qubits =>
      match qubits with
      | [] => (st, PyAbort "back() of an empty vector")
      | _ =>
          let target := List.last qubits 0 in
          let qubits := removelast qubits in
          let '(lambda, phi, theta) := read_params params in
          (bridge_emplace
             (StandardOperation (getNqubits (qc st)) (map as_control qubits)
                [target] (OfOpType type) lambda phi theta) st,
           PyOk)
      end
  end.

Definition addTwoTargetQiskitOperation (type : OpType.t) (qargs : list PyBit)
    (params : list Q) (st : BridgeState) : BridgeState * PyOutcome :=
  match resolve_qubits (qc st) qargs with
  | Exit _ msg | Abort msg => (st, PyAbort msg)
  | Done qubits =>
      match qubits, removelast qubits with
      | [], _ | _, [] => (st, PyAbort "back() of an empty vector")
      | _, qubits' =>
          let target1 := List.last qubits 0 in
          let target0 := List.last qubits' 0 in
          let qubits := removelast qubits' in
          let '(lambda, phi, theta) := read_params params in
          (bridge_emplace
             (StandardOperation (getNqubits (qc st)) (map as_control qubits)
                [target0; target1] (OfOpType type) lambda phi theta) st,
           PyOk)
      end
  end.

(** [qargMap[def_qubits[i]] = qargs[i]] for every [i < qargs.size()];
    [IndexError] when the definition has fewer bits than there are
    arguments. *)
Fixpoint bind_args (formals actuals : list PyBit) (m : gmap PyBit PyBit)
    : option (gmap PyBit PyBit) :=
  match actuals, formals with
  | [], _ => Some m
  | a :: actuals', f :: formals' => bind_args formals' actuals' (<[f := a]> m)
  | _ :: _, [] => None
  end.

(** [mapped.append(argMap[arg])] for every argument; [KeyError] when an
    argument is not a key. *)
Fixpoint map_args (m : gmap PyBit PyBit) (args : list PyBit)
    : option (list PyBit) :=
  match args with
  | [] => Some []
  | a :: rest =>
      match m !! a, map_args m rest with
      | Some b, Some rest' => Some (b :: rest')
      | _, _ => None
      end
  end.

(** [importQiskitDefinition], with the call back into
    [emplaceQiskitOperation] as a parameter. *)
Definition importQiskitDefinition_with
    (emplace : Instruction -> list PyBit -> list PyBit -> list Q ->
               BridgeState -> BridgeState * PyOutcome)
    (circ : option (list PyBit * list PyBit *
                    list (Instruction * list PyBit * list PyBit)))
    (qargs cargs : list PyBit) (st : BridgeState)
    : BridgeState * PyOutcome :=
  match circ with
  | None => (st, PyRaise "'NoneType' object has no attribute 'qubits'")
  | Some (def_qubits, def_clbits, data) =>
      match bind_args def_qubits qargs ∅ with
      | None => (st, PyRaise "list index out of range")
      | Some qargMap =>
          match bind_args def_clbits cargs ∅ with
          | None => (st, PyRaise "list index out of range")
          | Some cargMap =>
              (fix loop (data : list (Instruction * list PyBit * list PyBit))
                   (st : BridgeState) {struct data} : BridgeState * PyOutcome :=
                 match data with
                 | [] => (st, PyOk)
                 | (instruction, inst_qargs, inst_cargs) :: rest =>
                     match map_args qargMap inst_qargs with
                     | None => (st, PyRaise "KeyError")
                     | Some mapped_qargs =>
                         match map_args cargMap inst_cargs with
                         | None => (st, PyRaise "KeyError")
                         | Some mapped_cargs =>
                             match emplace instruction mapped_qargs
                                     mapped_cargs (inst_params instruction)
                                     st with
                             | (st', PyOk) => loop rest st'
                             | r => r
                             end
                         end
                     end
                 end) data st
          end
      end
  end.

Definition report_failure (instructionName what : string)
    (st : BridgeState) : BridgeState :=
  mkBridge (qc st)
    (cerr st ++
     [String.append "Failed to import instruction "
        (String.append instructionName " from Qiskit"); what]).

Fixpoint emplaceQiskitOperation (instruction : Instruction)
    (qargs cargs : list PyBit) (params : list Q) (st : BridgeState)
    {struct instruction} : BridgeState * PyOutcome :=
  match instruction with
  | mkInstruction instructionName _ definition =>
      let named s := String.eqb instructionName s in
      if named "measure" then
        match qargs, cargs with
        | qubit :: _, clbit :: _ =>
            match getIndexFromQubitRegister (qc st)
                    (bit_register qubit, bit_index qubit),
                  getIndexFromClassicalRegister (qc st)
                    (bit_register clbit, bit_index clbit) with
            | Done control, Done target =>
                (bridge_emplace
                   (NonUnitaryOperation (getNqubits (qc st)) Measure
                      [wrap16 control] [wrap16 target] 0) st, PyOk)
            | Exit _ msg, _ | Abort msg, _ => (st, PyAbort msg)
            | _, Exit _ msg | _, Abort msg => (st, PyAbort msg)
            end
        | _, _ => (st, PyRaise "list index out of range")
        end
      else if named "barrier" then
        match resolve_qubits (qc st) qargs with
        | Done targets =>
            (bridge_emplace
               (NonUnitaryOperation (getNqubits (qc st)) Barrier
                  targets [] 0) st, PyOk)
        | Exit _ msg | Abort msg => (st, PyAbort msg)
        end
      else if name_in nativelySupportedGates instructionName then
        if named "i" || named "id" || named "iden" then
          addQiskitOperation OpType.I qargs params st
        else if named "x" || named "cx" || named "ccx" || named "mcx_gray" then
          addQiskitOperation OpType.X qargs params st
        else if named "y" || named "cy" then
          addQiskitOperation OpType.Y qargs params st
        else if named "z" || named "cz" then
          addQiskitOperation OpType.Z qargs params st
        else if named "h" || named "ch" then
          addQiskitOperation OpType.H qargs params st
        else if named "s" then addQiskitOperation OpType.S qargs params st
        else if named "sdg" then addQiskitOperation OpType.Sdag qargs params st
        else if named "t" then addQiskitOperation OpType.T qargs params st
        else if named "tdg" then addQiskitOperation OpType.Tdag qargs params st
        else if named "rx" || named "crx" || named "mcrx" then
          addQiskitOperation OpType.RX qargs params st
        else if named "ry" || named "cry" || named "mcry" then
          addQiskitOperation OpType.RY qargs params st
        else if named "rz" || named "crz" || named "mcrz" then
          addQiskitOperation OpType.RZ qargs params st
        else if named "p" || named "u1" || named "cp" || named "cu1" || named "mcphase" then
          addQiskitOperation OpType.Phase qargs params st
        else if named "sx" || named "csx" then
          addQiskitOperation OpType.SX qargs params st
        else if named "sxdg" then addQiskitOperation OpType.SXdag qargs params st
        else if named "u2" then addQiskitOperation OpType.U2 qargs params st
        else if named "u" || named "u3" || named "cu3" then
          addQiskitOperation OpType.U3 qargs params st
        else if named "swap" || named "cswap" then
          addTwoTargetQiskitOperation OpType.SWAP qargs params st
        else if named "iswap" then
          addTwoTargetQiskitOperation OpType.iSWAP qargs params st
        else if named "mcx_recursive" then
          if (length qargs <=? 5)%nat then
            addQiskitOperation OpType.X qargs params st
          else
            match py_pop qargs with
            | Some qargs_copy => addQiskitOperation OpType.X qargs_copy params st
            | None => (st, PyRaise "pop from empty list")
            end
        else if named "mcx_vchain" then
          match py_pop_n (vchain_pops (length qargs)) qargs with
          | Some qargs_copy => addQiskitOperation OpType.X qargs_copy params st
          | None => (st, PyRaise "pop from empty list")
          end
        else (st, PyOk)
      else
        match importQiskitDefinition_with emplaceQiskitOperation definition
                qargs cargs st with
        | (st', PyRaise what) => (report_failure instructionName what st', PyOk)
        | r => r
        end
  end.

Definition importQiskitDefinition :=
  importQiskitDefinition_with emplaceQiskitOperation.

End Bridge.

(** ** Text streams and the C++ string functions the importers use *)

Definition code (a : ascii) : Z := Z.of_nat (nat_of_ascii a).

Definition toupper (a : ascii) : ascii :=
  if (97 <=? code a) && (code a <=? 122)
  then ascii_of_nat (nat_of_ascii a - 32) else a.
Definition tolower (a : ascii) : ascii :=
  if (65 <=? code a) && (code a <=? 90)
  then ascii_of_nat (nat_of_ascii a + 32) else a.

Fixpoint transform (f : ascii -> ascii) (s : string) : string :=
  match s with
  | EmptyString => EmptyString
  | String a s' => String (f a) (transform f s')
  end.

Definition is_digit (a : ascii) : bool := (48 <=? code a) && (code a <=? 57).
Definition digit_value (a : ascii) : Z := code a - 48.

(** The value of a run of decimal digits. *)
Definition digits_value (l : list ascii) : Z :=
  fold_left (fun acc a => 10 * acc + digit_value a) l 0.

(** A token made of decimal digits only, as a number. *)
Definition numeral (s : string) : option Z :=
  let l := String.list_ascii_of_string s in
  match l with
  | [] => None
  | _ => if forallb is_digit l then Some (digits_value l) else None
  end.

(** An input stream, as far as the importers can tell: the blank-separated
    tokens left on the current line, followed by the tokens of the lines
    after it. *)
Definition istream : Type := list (list string).

(** [is >> token]: skips blanks and line ends; [None] when no token is
    left. *)
Fixpoint read_token (s : istream) : option (string * istream) :=
  match s with
  | [] => None
  | [] :: rest => read_token rest
  | (t :: ts) :: rest => Some (t, ts :: rest)
  end.

(** [is.ignore(max, '\n')]: drops what is left of the current line. *)
Definition ignore_line (s : istream) : istream := tail s.

(** [getline(is, line)]: what is left of the current line. *)
Definition getline (s : istream) : option (list string * istream) :=
  match s with
  | [] => None
  | l :: rest => Some (l, rest)
  end.

Definition token_count (s : istream) : nat := length (concat s).

(** *** The gate pattern of the REAL format

    [(r[xyz]|q|[0a-z](?:[+i])?)(\d+)?(?::([-+]?[0-9]+[.]?[0-9]*(?:[eE][-+]?[0-9]+)?))?]
    matched against the whole token. The result holds the three capture
    groups, empty when a group took no part. *)

Fixpoint span_digits (l : list ascii) : list ascii * list ascii :=
  match l with
  | a :: l' =>
      if is_digit a then
        let '(ds, r) := span_digits l' in (a :: ds, r)
      else ([], l)
  | [] => ([], [])
  end.

Definition is_sign (a : ascii) : bool :=
  Ascii.eqb a "-" || Ascii.eqb a "+".

Definition skip_sign (l : list ascii) : list ascii :=
  match l with
  | a :: l' => if is_sign a then l' else l
  | [] => []
  end.

(** [(?:[eE][-+]?[0-9]+)?] up to the end of the token. *)
Definition exponent_ok (l : list ascii) : bool :=
  match l with
  | [] => true
  | a :: l' =>
      if Ascii.eqb a "e" || Ascii.eqb a "E" then
        let '(ds, r) := span_digits (skip_sign l') in
        negb (Nat.eqb (length ds) 0) && Nat.eqb (length r) 0
      else false
  end.

(** [[-+]?[0-9]+[.]?[0-9]*(?:[eE][-+]?[0-9]+)?] up to the end. *)
Definition literal_ok (l : list ascii) : bool :=
  let '(ds, r) := span_digits (skip_sign l) in
  negb (Nat.eqb (length ds) 0) &&
  match r with
  | a :: r' =>
      if Ascii.eqb a "." then exponent_ok (span_digits r').2
      else exponent_ok r
  | [] => true
  end.

(** [(\d+)?(?::(literal))?] up to the end: groups 2 and 3. *)
Definition match_suffix (l : list ascii) : option (string * string) :=
  let '(ds, r) := span_digits l in
  match r with
  | [] => Some (String.string_of_list_ascii ds, EmptyString)
  | a :: lit =>
      if Ascii.eqb a ":" && literal_ok lit
      then Some (String.string_of_list_ascii ds, String.string_of_list_ascii lit)
      else None
  end.

Definition is_0_or_lower (a : ascii) : bool :=
  Ascii.eqb a "0" || ((97 <=? code a) && (code a <=? 122)).

Definition with_ident (ident : list ascii) (suffix : list ascii)
    : option (string * string * string) :=
  match match_suffix suffix with
  | Some (g2, g3) => Some (String.string_of_list_ascii ident, g2, g3)
  | None => None
  end.

Definition first_some {A} (x y : option A) : option A :=
  match x with Some _ => x | None => y end.

(** The alternatives of group 1 are tried from left to right, and the
    optional [[+i]] prefers to match. *)
Definition gateRegex_match (cmd : string)
    : option (string * string * string) :=
  let l := String.list_ascii_of_string cmd in
  let alt1 :=
    match l with
    | r :: x :: rest =>
        if Ascii.eqb r "r" &&
           (Ascii.eqb x "x" || Ascii.eqb x "y" || Ascii.eqb x "z")
        then with_ident [r; x] rest else None
    | _ => None
    end in
  let alt2 :=
    match l with
    | q :: rest => if Ascii.eqb q "q" then with_ident [q] rest else None
    | _ => None
    end in
  let alt3 :=
    match l with
    | a :: rest =>
        if is_0_or_lower a then
          first_some
            match rest with
            | b :: rest' =>
                if Ascii.eqb b "+" || Ascii.eqb b "i"
                then with_ident [a; b] rest' else None
            | [] => None
            end
            (with_ident [a] rest)
        else None
    | _ => None
    end in
  first_some alt1 (first_some alt2 alt3).

(** [std::stoi] on a run of digits; [std::out_of_range] above [INT_MAX]. *)
Definition stoi (s : string) : Outcome Z :=
  let v := digits_value (String.list_ascii_of_string s) in
  if v <=? 2147483647 then Done v else Abort "stoi: out of range".

(** [std::stold] on a literal of the pattern, as an exact rational: the
    rounding of the floating-point type is left out. *)
Definition stold (s : string) : Q :=
  let l := String.list_ascii_of_string s in
  let negative := match l with a :: _ => Ascii.eqb a "-" | [] => false end in
  let '(ip, r) := span_digits (skip_sign l) in
  let '(fpart, r) :=
    match r with
    | a :: r' => if Ascii.eqb a "." then span_digits r' else ([], r)
    | [] => ([], [])
    end in
  let e :=
    match r with
    | a :: r' =>
        let eneg := match r' with b :: _ => Ascii.eqb b "-" | [] => false end in
        let v := digits_value (span_digits (skip_sign r')).1 in
        if eneg then - v else v
    | [] => 0
    end in
  let m := digits_value (ip ++ fpart) in
  let m := if negative then - m else m in
  let scale := e - Z.of_nat (length fpart) in
  Qred (if 0 <=? scale then inject_Z (m * 10 ^ scale)
        else Qmake m (Z.to_pos (10 ^ (- scale)))).

(** [nearbyint] in the default rounding mode: the nearest integer, a tie
    going to the even one. *)
Definition nearbyint (q : Q) : Z :=
  let f := Qfloor q in
  match Qcompare (q - inject_Z f) (1 # 2) with
  | Lt => f
  | Gt => f + 1
  | Eq => if Z.even f then f else f + 1
  end.

Definition Qltb (a b : Q) : bool := negb (Qle_bool b a).

(** ** REAL importer *)

Definition front (s : string) : option ascii :=
  match s with
  | EmptyString => None
  | String a _ => Some a
  end.

Definition front_is (a : ascii) (s : string) : bool :=
  match front s with
  | Some b => Ascii.eqb a b
  | None => false
  end.

(** The loop of [.VARIABLES]: [for (int i = 0; i < nqubits; ++i)], with [k]
    iterations left. *)
Fixpoint read_variables (k : nat) (i : Z) (ins : istream)
    (c : QuantumComputation) : Outcome (istream * QuantumComputation) :=
  match k with
  | O => Done (ins, c)
  | S k' =>
      match read_token ins with
      | None => Abort "stream exhausted"
      | Some (variable, ins) =>
          let c := set_qregs (map_insert_new variable (i, 1) (qregs c)) c in
          let c := set_cregs
                     (map_insert_new (String.append "c_" variable) (i, 1)
                        (cregs c)) c in
          let c := set_perms (map_insert_new i i (inputPermutation c))
                     (map_insert_new i i (outputPermutation c)) c in
          read_variables k' (i + 1) ins c
      end
  end.

(** The loop of [.DEFINE]: lines are dropped until a line starts with
    [.ENDDEFINE]. Every round drops a line, so the number of lines bounds
    the number of rounds. *)
Fixpoint skip_define (rounds : nat) (cmd : string) (ins : istream)
    : Outcome istream :=
  if String.eqb cmd ".ENDDEFINE" then Done ins
  else
    match rounds with
    | O => Abort "stream exhausted"
    | S rounds' =>
        match read_token (ignore_line ins) with
        | None => Abort "stream exhausted"
        | Some (cmd, ins) => skip_define rounds' (transform toupper cmd) ins
        end
    end.

(** [readRealHeader]. Every round of [while (true)] reads a token, so
    [rounds] is taken as the number of tokens plus one. *)
Fixpoint readRealHeader_loop (rounds : nat) (ins : istream)
    (c : QuantumComputation) : Outcome (istream * QuantumComputation) :=
  match rounds with
  | O => Abort "stream exhausted"
  | S rounds' =>
      match read_token ins with
      | None => Abort "stream exhausted"
      | Some (cmd, ins) =>
          let cmd := transform toupper cmd in
          match front cmd with
          | None => Abort "front() of an empty string"
          | Some a =>
              if Ascii.eqb a "#" then
                readRealHeader_loop rounds' (ignore_line ins) c
              else if negb (Ascii.eqb a ".") then
                Exit 1 "Invalid file header!"
              else if String.eqb cmd ".BEGIN" then Done (ins, c)
              else if String.eqb cmd ".NUMVARS" then
                match read_token ins with
                | None => Abort "stream exhausted"
                | Some (n, ins) =>
                    match numeral n with
                    | None => Abort "not a number"
                    | Some n =>
                        if n <? 65536 then
                          readRealHeader_loop rounds' ins
                            (set_nclassics n (set_nqubits n c))
                        else Abort "number out of range"
                    end
                end
              else if String.eqb cmd ".VARIABLES" then
                match read_variables (Z.to_nat (nqubits c)) 0 ins c with
                | Done (ins, c) => readRealHeader_loop rounds' ins c
                | Exit n s => Exit n s
                | Abort w => Abort w
                end
              else if String.eqb cmd ".CONSTANTS" then
                readRealHeader_loop rounds' (ignore_line ins) c
              else if String.eqb cmd ".INPUTS" || String.eqb cmd ".OUTPUTS"
                      || String.eqb cmd ".GARBAGE" || String.eqb cmd ".VERSION"
                      || String.eqb cmd ".INPUTBUS"
                      || String.eqb cmd ".OUTPUTBUS" then
                readRealHeader_loop rounds' (ignore_line ins) c
              else if String.eqb cmd ".DEFINE" then
                match skip_define (length ins) cmd ins with
                | Done ins => readRealHeader_loop rounds' ins c
                | Exit n s => Exit n s
                | Abort w => Abort w
                end
              else Exit 1 "Unknown command"
          end
      end
  end.

Definition readRealHeader (ins : istream) (c : QuantumComputation)
    : Outcome (istream * QuantumComputation) :=
  readRealHeader_loop (S (token_count ins)) ins c.

Section RealGates.

(** [identifierMap], the table from gate identifiers to gates, and
    [dd::ComplexNumbers::TOLERANCE]; both are declared in headers. *)
Variable identifierMap : string -> option Gate.t.
Variable TOLERANCE : Q.

(** The loop that reads the control labels of a gate line: [iss] holds the
    labels still unread, [acc] is [controls]. *)
Fixpoint read_controls (k : nat) (iss : list string)
    (c : QuantumComputation) (acc : list Control.t)
    : Outcome (list Control.t * list string) :=
  match k with
  | O => Done (acc, iss)
  | S k' =>
      match iss with
      | [] => Exit 1 "Too few variables for gate"
      | label :: iss =>
          let negativeControl := front_is "-" label in
          let label := if negativeControl
                       then match label with
                            | String _ s => s
                            | EmptyString => EmptyString
                            end
                       else label in
          match qregs c !! label with
          | None => Exit 1 "Label not found!"
          | Some reg =>
              read_controls k' iss c
                (acc ++ [Control.mk reg.1
                           (if negativeControl then Control.neg
                            else Control.pos)])
          end
      end
  end.

(** The [switch (gate)] that builds the operation of a gate line. *)
Definition emit_real_gate (gate : Gate.t) (controls : list Control.t)
    (target : Z) (lambda : Q) (c : QuantumComputation)
    : Outcome QuantumComputation :=
  let x := nearbyint lambda in
  let std g l :=
    StandardOperation (nqubits c) controls [target] (OfGate g) l fp0 fp0 in
  match gate with
  | Gate.None => Exit 1 "'None' operation detected."
  | Gate.I | Gate.H | Gate.Y | Gate.Z | Gate.S | Gate.Sdag | Gate.T
  | Gate.Tdag | Gate.V | Gate.Vdag | Gate.U3 | Gate.U2 =>
      Done (emplace_back (std gate (FLit lambda)) c)
  | Gate.X => Done (emplace_back (std Gate.X fp0) c)
  | Gate.RX | Gate.RY => Done (emplace_back (std gate (PiOver lambda)) c)
  | Gate.RZ | Gate.U1 =>
      if Qltb (Qabs (lambda - inject_Z x)) TOLERANCE then
        if (x =? 1) || (x =? -1) then Done (emplace_back (std Gate.Z fp0) c)
        else if x =? 2 then Done (emplace_back (std Gate.S fp0) c)
        else if x =? -2 then Done (emplace_back (std Gate.Sdag fp0) c)
        else if x =? 4 then Done (emplace_back (std Gate.T fp0) c)
        else if x =? -4 then Done (emplace_back (std Gate.Tdag fp0) c)
        else Done (emplace_back (std gate (PiOver (inject_Z x))) c)
      else Done (emplace_back (std gate (PiOver lambda)) c)
  | Gate.SWAP | Gate.P | Gate.Pdag =>
      match controls with
      | [] => Abort "back() of an empty vector"
      | _ =>
          let target1 :=
            wrap16 (Control.qubit
                      (List.last controls (Control.mk 0 Control.pos))) in
          Done (emplace_back
                  (StandardOperation (nqubits c) (removelast controls)
                     [target; target1] (OfGate gate) fp0 fp0 fp0) c)
      end
  end.

(** The number of controls of a gate line: the digit run less one, and the
    overrides for V, V-dagger, [c], P and P-dagger. *)
Definition real_ncontrols (gate : Gate.t) (m1 m2 : string) : Outcome Z :=
  n ← (if String.eqb m2 "" then Done 0
        else v ← stoi m2; Done (v - 1));
  if Gate.eqb gate Gate.V || Gate.eqb gate Gate.Vdag || String.eqb m1 "c"
  then Done 1
  else if Gate.eqb gate Gate.P || Gate.eqb gate Gate.Pdag then Done 2
  else Done n.

(** The labels of a gate line: [ncontrols] controls, then the target. *)
Definition read_labels (ncontrols : Z) (qubits : list string)
    (c : QuantumComputation) : Outcome (list Control.t * Z) :=
  '(controls, iss) ← read_controls (Z.to_nat ncontrols) qubits c [];
  match iss with
  | [] => Exit 1 "Too few variables (no target) for gate"
  | label :: _ =>
      match qregs c !! label with
      | None => Exit 1 "Label not found!"
      | Some reg => Done (controls, wrap16 reg.1)
      end
  end.

(** The gate of a line from group 1 of the pattern. *)
Definition real_gate (m1 : string) : Outcome Gate.t :=
  if String.eqb m1 "t" then Done Gate.X
  else match identifierMap m1 with
       | None => Exit 1 "Unknown gate identifier"
       | Some g => Done g
       end.

Definition real_lambda (m3 : string) : Q :=
  if String.eqb m3 "" then 0%Q else stold m3.

(** One gate line: [cmd] is the lower-cased first token, [qubits] the rest
    of its line. *)
Definition read_real_gate (cmd : string) (qubits : list string)
    (c : QuantumComputation) : Outcome QuantumComputation :=
  match gateRegex_match cmd with
  | None => Exit 1 "Unsupported gate detected"
  | Some (m1, m2, m3) =>
      gate ← real_gate m1;
      ncontrols ← real_ncontrols gate m1 m2;
      let lambda := real_lambda m3 in
      if ncontrols >=? nqubits c then Exit 1 "Gate acts on too many qubits"
      else
        '(controls, target) ← read_labels ncontrols qubits c;
        let c := updateMaxControls ncontrols c in
        emit_real_gate gate controls target lambda c
  end.

(** [readRealGateDescriptions]: every round of the loop takes the first
    token of a line and then the rest of that line. *)
Fixpoint readRealGateDescriptions (ins : istream) (c : QuantumComputation)
    : Outcome QuantumComputation :=
  match ins with
  | [] => Abort "stream exhausted"
  | [] :: ins => readRealGateDescriptions ins c
  | (cmd :: qubits) :: ins =>
      let cmd := transform tolower cmd in
      match front cmd with
      | None => Abort "front() of an empty string"
      | Some a =>
          if Ascii.eqb a "#" then readRealGateDescriptions ins c
          else if String.eqb cmd ".end" then Done c
          else
            match read_real_gate cmd qubits c with
            | Done c => readRealGateDescriptions ins c
            | Exit n s => Exit n s
            | Abort w => Abort w
            end
      end
  end.

Definition importReal (ins : istream) (c : QuantumComputation)
    : Outcome QuantumComputation :=
  '(ins, c) ← readRealHeader ins c;
  readRealGateDescriptions ins c.

End RealGates.

(** ** Grid-benchmark importer *)

(** [ss >> value] for an unsigned integer of the given width on a string
    stream: [failed] is the stream's fail state, [old] the value the
    variable holds. A failed or exhausted stream leaves the variable alone;
    a token that is no number stores 0 and one that is too large stores the
    largest value, both failing the stream. *)
Definition read_unsigned (max : Z) (old : Z) (ss : list string)
    (failed : bool) : Z * list string * bool :=
  if failed then (old, ss, true)
  else
    match ss with
    | [] => (old, [], true)
    | t :: ss' =>
        match numeral t with
        | None => (0, ss, true)
        | Some v => if v <=? max then (v, ss', false) else (max, ss', true)
        end
    end.

Definition read_string (old : string) (ss : list string) (failed : bool)
    : string * list string * bool :=
  if failed then (old, ss, true)
  else
    match ss with
    | [] => (old, [], true)
    | t :: ss' => (t, ss', false)
    end.

(** The variables that [importGRCS] declares before its loop and that keep
    their value from one line to the next. *)
Record GrcsVars : Type := mkGrcsVars {
  gv_identifier : string;
  gv_control : Z;
  gv_target : Z;
  gv_cycle : Z
}.

(** [std::getline] keeps the blanks of a line that [>>] skips, and
    [line.empty()] is true of a line without any character only. For this
    reader a line of the text is therefore the list of its parts in order:
    its tokens and, where the text has blanks before the first token, after
    the last one or alone on a line, a run of blanks (a part made of blank
    characters only; no part is the empty string). [[]] is the empty line,
    [[" "]] a line that holds one blank and no token. *)
Definition is_space (a : ascii) : bool :=
  (code a =? 32) || ((9 <=? code a) && (code a <=? 13)).

Definition is_blank_run (s : string) : bool :=
  forallb is_space (String.list_ascii_of_string s).

(** The tokens that [ss >> ...] finds on a line. *)
Definition line_tokens (line : list string) : list string :=
  List.filter (fun s => negb (is_blank_run s)) line.

(** [is >> token] on such a text: blanks and line ends are skipped. *)
Fixpoint first_word (line : list string) : option (string * list string) :=
  match line with
  | [] => None
  | t :: ts => if is_blank_run t then first_word ts else Some (t, ts)
  end.

Fixpoint read_word (s : istream) : option (string * istream) :=
  match s with
  | [] => None
  | line :: rest =>
      match first_word line with
      | Some (t, ts) => Some (t, ts :: rest)
      | None => read_word rest
      end
  end.

(** The loop [while (std::getline(is, line))]. Only the empty line is
    skipped; on a line of blanks the body runs, every read fails and the
    variables keep the values of the line before. *)
Fixpoint grcs_lines (ls : list (list string)) (v : GrcsVars)
    (c : QuantumComputation) : Outcome QuantumComputation :=
  match ls with
  | [] => Done c
  | [] :: ls' => grcs_lines ls' v c
  | line :: ls' =>
      let '(cycle, ss, failed) :=
        read_unsigned 4294967295 (gv_cycle v) (line_tokens line) false in
      let '(identifier, ss, failed) := read_string (gv_identifier v) ss failed in
      if String.eqb identifier "cz" then
        let '(control, ss, failed) := read_unsigned 65535 (gv_control v) ss failed in
        let '(target, ss, failed) := read_unsigned 65535 (gv_target v) ss failed in
        grcs_lines ls' (mkGrcsVars identifier control target cycle)
          (emplace_back
             (StandardOperation (nqubits c) [Control.mk control Control.pos]
                [target] (OfGate Gate.Z) fp0 fp0 fp0) c)
      else
        let '(target, ss, failed) := read_unsigned 65535 (gv_target v) ss failed in
        let v' := mkGrcsVars identifier (gv_control v) target cycle in
        let single g l :=
          emplace_back
            (StandardOperation (nqubits c) [] [target] (OfGate g) l fp0 fp0)
            c in
        if String.eqb identifier "h" then grcs_lines ls' v' (single Gate.H fp0)
        else if String.eqb identifier "t" then
          grcs_lines ls' v' (single Gate.T fp0)
        else if String.eqb identifier "x_1_2" then
          grcs_lines ls' v' (single Gate.RX PI_2)
        else if String.eqb identifier "y_1_2" then
          grcs_lines ls' v' (single Gate.RY PI_2)
        else Exit 1 "Unknown gate"
  end.

Definition seed_permutations (c : QuantumComputation) : QuantumComputation :=
  set_perms (seed_identity (Z.to_nat (nqubits c)) 0 (inputPermutation c))
    (seed_identity (Z.to_nat (nqubits c)) 0 (outputPermutation c)) c.

Definition importGRCS (ins : istream) (c : QuantumComputation)
    : Outcome QuantumComputation :=
  let '(n, ins, failed) :=
    match read_word ins with
    | None => (nqubits c, [], true)
    | Some (t, ins') =>
        match numeral t with
        | None => (0, ins, true)
        | Some v => if v <=? 65535 then (v, ins', false) else (65535, ins', true)
        end
    end in
  let c := set_nqubits n c in
  c ← (if failed then Done c
        else grcs_lines ins (mkGrcsVars "" 0 0 0) c);
  Done (seed_permutations c).

(** ** OpenQASM importer

    Scanning and the grammar belong to the parser; the importer sees one
    statement after the other, each with what the parser made of it. *)

Inductive QasmStatement : Type :=
| StQreg (s : string) (n : Z)
| StCreg (s : string) (n : Z)
| StQop (op : Operation)
| StGateDecl
| StInclude (file : string)
| StBarrier (args : list (Z * Z))
| StOpaqueGateDecl
| StIf (creg : string) (n : Z) (op : Operation)
| StSnapshot (n : Z) (arguments : list (Z * Z))
| StProbabilities
| StOther (kind : string).

Section OpenQASM.

Variable setNqubits : Z -> Operation -> Operation.

(** One round of the statement loop. The parser shares the register tables
    of the circuit. *)
Definition qasm_statement (st : QasmStatement) (c : QuantumComputation)
    : Outcome QuantumComputation :=
  match st with
  | StQreg s n =>
      let c := set_qregs (<[s := (nqubits c, n)]> (qregs c)) c in
      let c := set_nqubits (nqubits c + n) c in
      Done (set_ops (map (setNqubits (nqubits c)) (ops c)) c)
  | StCreg s n =>
      let c := set_cregs (<[s := (nclassics c, n)]> (cregs c)) c in
      Done (set_nclassics (nclassics c + n) c)
  | StQop op => Done (set_ops (ops c ++ [op]) c)
  | StGateDecl | StInclude _ | StOpaqueGateDecl => Done c
  | StBarrier args =>
      Done (emplace_back
              (NonUnitaryOperation (nqubits c) Barrier (map fst args) [] 0) c)
  | StIf creg n op =>
      match cregs c !! creg with
      | None => Done (set_ops (ops c ++ [op]) c)
      | Some r =>
          Done (emplace_back (ClassicControlledOperation op (r.1 + n)) c)
      end
  | StSnapshot n arguments =>
      Done (emplace_back
              (NonUnitaryOperation (nqubits c) Snapshot (map fst arguments)
                 [] n) c)
  | StProbabilities =>
      Done (emplace_back
              (NonUnitaryOperation (nqubits c) ShowProbabilities [] [] 0) c)
  | StOther _ => Exit 1 "ERROR: unexpected statement"
  end.

(** [do { ... } while (p.sym != Token::Kind::eof)]: the body runs on [st],
    then on what follows. *)
Fixpoint qasm_statements (st : QasmStatement) (rest : list QasmStatement)
    (c : QuantumComputation) : Outcome QuantumComputation :=
  match qasm_statement st c with
  | Done c =>
      match rest with
      | [] => Done c
      | st' :: rest' => qasm_statements st' rest' c
      end
  | Exit n s => Exit n s
  | Abort w => Abort w
  end.

Definition importOpenQASM (program : list QasmStatement)
    (c : QuantumComputation) : Outcome QuantumComputation :=
  match program with
  | [] => Exit 1 "ERROR: unexpected statement: started with EOF"
  | st :: rest =>
      c ← qasm_statements st rest c;
      Done (seed_permutations c)
  end.

End OpenQASM.

(** ** [import] *)

Inductive Format : Set := Real | OpenQASM | GRCS | Qiskit.

(** A file that opens: its text as the token stream the REAL and
    grid-benchmark readers see, and as the statements the OpenQASM parser
    makes of it. *)
Record File : Type := mkFile {
  file_text : istream;
  file_program : list QasmStatement
}.

(** [s.find_last_of(ch)]; [npos] is [2^64 - 1]. *)
Definition npos : Z := 2 ^ 64 - 1.

Fixpoint find_last_of_from (ch : ascii) (s : string) (i : Z) (found : Z) : Z :=
  match s with
  | EmptyString => found
  | String a s' =>
      find_last_of_from ch s' (i + 1) (if Ascii.eqb a ch then i else found)
  end.

Definition find_last_of (ch : ascii) (s : string) : Z :=
  find_last_of_from ch s 0 npos.

(** [s.substr(pos, count)] for [pos] within the string. *)
Definition substr (s : string) (pos count : Z) : string :=
  String.substring (Z.to_nat pos)
    (Z.to_nat (Z.min count (Z.of_nat (String.length s) - pos))) s.

Definition file_stem (filename : string) : string :=
  let slash := find_last_of "/" filename in
  let dot := find_last_of "." filename in
  substr filename ((slash + 1) mod 2 ^ 64) ((dot - slash - 1) mod 2 ^ 64).

Definition file_extension (filename : string) : string :=
  let dot := find_last_of "." filename in
  transform tolower (substr filename ((dot + 1) mod 2 ^ 64) npos).

Section ImportDispatch.

Variable identifierMap : string -> option Gate.t.
Variable TOLERANCE : Q.
Variable setNqubits : Z -> Operation -> Operation.

(** [import(filename, format)]; [file] is [None] when the file does not
    open. *)
Definition import_as (filename : string) (file : option File)
    (format : Format) (c : QuantumComputation) : Outcome QuantumComputation :=
  let c := set_name (file_stem filename) c in
  match file with
  | None => Exit 3 "Error opening/reading from file"
  | Some f =>
      match format with
      | Real => importReal identifierMap TOLERANCE (file_text f) c
      | OpenQASM =>
          let c := updateMaxControls 2 c in
          importOpenQASM setNqubits (file_program f) c
      | GRCS => importGRCS (file_text f) c
      | Qiskit => Exit 1 "Format not yet supported."
      end
  end.

(** [import(filename)]: the format follows from the extension. *)
Definition import_file (filename : string) (file : option File)
    (c : QuantumComputation) : Outcome QuantumComputation :=
  let extension := file_extension filename in
  if String.eqb extension "real" then import_as filename file Real c
  else if String.eqb extension "qasm" then import_as filename file OpenQASM c
  else if String.eqb extension "txt" then import_as filename file GRCS c
  else Exit 1 "Extension not recognized.".

End ImportDispatch.

(** ** Instances used in the examples *)

(** Modelled from the spec: [getIndexFromQubitRegister] and
    [getIndexFromClassicalRegister] (declared in the header of the bridge's
    revision): a reference is resolved "to an absolute index via its declared
    register name and offset". *)
Definition index_in (regs : gmap string (Z * Z)) (r : string * Z)
    : Outcome Z :=
  match regs !! r.1 with
  | Some reg => Done (reg.1 + r.2)
  | None => Abort "register not found"
  end.
Definition getIndexFromQubitRegister (c : QuantumComputation)
    (r : string * Z) : Outcome Z := index_in (qregs c) r.
Definition getIndexFromClassicalRegister (c : QuantumComputation)
    (r : string * Z) : Outcome Z := index_in (cregs c) r.

(** An identifier table for the REAL format, in the style of the header's:
    the identifiers the specification names. *)
Definition sample_identifierMap (s : string) : option Gate.t :=
  if String.eqb s "h" then Some Gate.H
  else if String.eqb s "c" then Some Gate.X
  else if String.eqb s "v" then Some Gate.V
  else if String.eqb s "v+" then Some Gate.Vdag
  else if String.eqb s "rx" then Some Gate.RX
  else if String.eqb s "ry" then Some Gate.RY
  else if String.eqb s "rz" then Some Gate.RZ
  else if String.eqb s "q" then Some Gate.RZ
  else if String.eqb s "f" then Some Gate.SWAP
  else if String.eqb s "p" then Some Gate.P
  else if String.eqb s "p+" then Some Gate.Pdag
  else None.

(** A tolerance for the examples. *)
Definition sample_TOLERANCE : Q := 1 # 10000000000000.

(** A package whose edges are numbers: the identity is 1 and a product is a
    product. *)
Definition sample_package : Package Z :=
  mkPackage 1 (fun _ _ _ => 1) (fun _ x y => x * y)
    (fun _ op line perm _ => (2 + op_nqubits op, line, perm)).

(** The claim about [mcx_vchain] in its own words: the effective number of
    controls is [ceil((argCount+1)/2)]. *)
Definition vchain_controls_stated (argc : nat) : Z :=
  Qceiling ((inject_Z (Z.of_nat argc) + 1) / 2).

(** The control count that [updateMaxControls] saw for an operation built by
    the REAL reader: SWAP, P and P-dagger are built after their last control
    has been turned into the second target. *)
Definition requested_controls (o : Operation) : Z :=
  match o with
  | StandardOperation _ cs _ (OfGate Gate.SWAP) _ _ _
  | StandardOperation _ cs _ (OfGate Gate.P) _ _ _
  | StandardOperation _ cs _ (OfGate Gate.Pdag) _ _ _ =>
      Z.of_nat (length cs) + 1
  | _ => op_ncontrols o
  end.

Definition max_list (l : list Z) : Z := foldr Z.max 0 l.

Definition hadamard_on_0 (n : Z) : Operation :=
  StandardOperation n [] [0] (OfGate Gate.H) fp0 fp0 fp0.

(** The grid-benchmark text [3 / 0 h 0 / 1 cz 0 1 / 2 x_1_2 2]. *)
Definition grcs_three_gates : istream :=
  [["3"]; ["0"; "h"; "0"]; ["1"; "cz"; "0"; "1"]; ["2"; "x_1_2"; "2"]]%string.

(** The circuit that the OpenQASM reader makes of one qubit and one
    Hadamard gate. *)
Definition one_qubit_hadamard : QuantumComputation :=
  mkQC 1 0 "" {["q" := (0, 1)]} ∅ {[0 := 0]} {[0 := 0]} [hadamard_on_0 1] 0.

(** A grid-benchmark text [2 / 0 h 0] and the circuit it yields. *)
Definition grcs_two_qubits : istream := [["2"]; ["0"; "h"; "0"]]%string.


Definition two_qubits_no_register : QuantumComputation :=
  mkQC 2 0 "" ∅ ∅ {[0 := 0; 1 := 1]} {[0 := 0; 1 := 1]} [hadamard_on_0 2] 0.

Definition three_qubits_one_register : QuantumComputation :=
  mkQC 3 0 "" {["q" := (0, 3)]} ∅ {[0 := 0; 1 := 1; 2 := 2]}
    {[0 := 0; 1 := 1; 2 := 2]} [hadamard_on_0 3] 0.

(** [three_qubits_one_register] after its register has grown by two. *)
Definition five_qubits_one_register : QuantumComputation :=
  mkQC 5 0 "" {["q" := (0, 5)]} ∅
    {[0 := 0; 1 := 1; 2 := 2; 3 := 3; 4 := 4]}
    {[0 := 0; 1 := 1; 2 := 2; 3 := 3; 4 := 4]} [hadamard_on_0 5] 0.

(** A circuit as wide as a package of width 128 allows, in one register. *)
Definition full_width_circuit : QuantumComputation :=
  mkQC 128 0 "" {["q" := (0, 128)]} ∅ ∅ ∅ [] 0.

(** The circuit that the header [.numvars 3 / .variables a b c] leaves. *)
Definition three_variables : QuantumComputation :=
  mkQC 3 3 "" {["a" := (0, 1); "b" := (1, 1); "c" := (2, 1)]}
    {["c_a" := (0, 1); "c_b" := (1, 1); "c_c" := (2, 1)]}
    {[0 := 0; 1 := 1; 2 := 2]} {[0 := 0; 1 := 1; 2 := 2]} [] 0.

(** A REAL text whose header has no [.variables] line. *)
Definition real_without_variables : istream :=
  [[".numvars"; "2"]; [".begin"]; [".end"]]%string.

Definition real_toffoli_fredkin : istream :=
  [[".version"; "2.0"]; [".numvars"; "3"]; [".variables"; "a"; "b"; "c"];
   [".begin"]; ["t3"; "a"; "b"; "c"]; ["f2"; "a"; "b"]; ["rz:4"; "a"];
   [".end"]]%string.

Definition real_toffoli_fredkin_file : File :=
  mkFile real_toffoli_fredkin [].

Definition real_without_variables_file : File :=
  mkFile real_without_variables [].

Definition qasm_single_hadamard : File :=
  mkFile [] [StQreg "q" 1; StQop (hadamard_on_0 1)].

(** A composite instruction whose definition names, in its second
    instruction, a qubit that the definition does not declare. *)
Definition broken_pair : Instruction :=
  mkInstruction "pair" []
    (Some ([mkBit "d" 0; mkBit "d" 1], [],
           [(mkInstruction "x" [] None, [mkBit "d" 0], []);
            (mkInstruction "x" [] None, [mkBit "d" 9], [])])).

Definition vchain_four_args : list PyBit :=
  [mkBit "q" 0; mkBit "q" 1; mkBit "q" 2; mkBit "q" 3].

Definition bridge_start : BridgeState :=
  mkBridge (mkQC 5 0 "" {["q" := (0, 5)]} ∅ ∅ ∅ [] 0) [].

(** The permutation is defined on exactly [[0, n)], as the identity. *)
Definition identity_over (n : Z) (perm : gmap Z Z) : Prop :=
  forall i, perm !! i = if decide (0 <= i < n) then Some i else None.

(** Every index of [[lo, hi)] lies in some register of the table. *)
Definition covered (lo hi : Z) (regs : gmap string (Z * Z)) : Prop :=
  forall i, lo <= i < hi ->
    exists n reg, regs !! n = Some reg /\ reg_contains i reg = true.

(** ** Further readings of a history of package calls *)

Section Readings.

Context {Edge : Type}.

(** The operations whose fragments were asked for, in the order of the
    calls. *)
Definition fragments (evs : list (DDEvent Edge)) : list Operation :=
  omap (fun ev => match ev with
                  | EvGetDD op _ _ => Some op
                  | _ => None
                  end) evs.

(** What the package returned for the products of a history, in the order
    of the calls: [multiply] is handed the history before its call, [pre]
    being the history before [evs]. *)
Fixpoint products (dd : Package Edge) (pre evs : list (DDEvent Edge))
    : list Edge :=
  match evs with
  | [] => []
  | ev :: evs' =>
      match ev with
      | EvMultiply f y =>
          multiply dd pre f y :: products dd (pre ++ [ev]) evs'
      | _ => products dd (pre ++ [ev]) evs'
      end
  end.

(** The right factors of the products, in the order of the calls. *)
Definition right_factors (evs : list (DDEvent Edge)) : list Edge :=
  omap (fun ev => match ev with
                  | EvMultiply _ y => Some y
                  | _ => None
                  end) evs.

(** The values given to [useMatrixNormalization], in the order of the
    calls. *)
Definition normalization_modes (evs : list (DDEvent Edge)) : list bool :=
  omap (fun ev => match ev with
                  | EvUseMatrixNormalization b => Some b
                  | _ => None
                  end) evs.

End Readings.

(** A circuit of one qubit: a Hadamard gate and then a measurement. *)
Definition hadamard_then_measure : QuantumComputation :=
  mkQC 1 1 "" {["q" := (0, 1)]} {["c" := (0, 1)]} {[0 := 0]} {[0 := 0]}
    [hadamard_on_0 1; NonUnitaryOperation 1 Measure [0] [0] 0] 0.

(** The qubit index is the start of a declared qubit register, as the
    table holds it or as a 16-bit variable holds it. *)
Definition declared_start (regs : gmap string (Z * Z)) (q : Z) : Prop :=
  exists label reg,
    regs !! label = Some reg /\ (q = reg.1 \/ q = wrap16 reg.1).

(** An operation as the REAL and grid-benchmark readers build them: a plain
    gate of the given width whose qubits satisfy [P]. *)
Definition plain_gate_on (width : Z) (P : Z -> Prop) (op : Operation)
    : Prop :=
  op_nqubits op = width /\ op_isUnitary op = true /\
  forall q, op_actsOn op q = true -> P q.

(** [!line.empty()]: the line holds a character, be it a blank. *)
Definition not_empty (line : list string) : bool :=
  match line with
  | [] => false
  | _ :: _ => true
  end.



(** The qubit registers that a program declares, in the order of their
    declarations, and the number of qubits of a list of declarations. *)
Definition declared_qregs (program : list QasmStatement)
    : list (string * Z) :=
  omap (fun st => match st with
                  | StQreg s n => Some (s, n)
                  | _ => None
                  end) program.

Definition total_size (l : list (string * Z)) : Z :=
  foldr (fun p acc => p.2 + acc) 0 l.

(** The second state of the bridge is the first with operations appended
    to the circuit and lines appended to [cerr], and no other change. *)
Definition appends_only (st st' : BridgeState) : Prop :=
  exists new msgs,
    qc st' = set_ops (ops (qc st) ++ new) (qc st) /\
    cerr st' = cerr st ++ msgs.

(** The bit [f] of a definition stands for the argument [a]: they are at
    the same position of the definition's bits and of the arguments. *)
Definition bound_to (formals actuals : list PyBit) (f a : PyBit) : Prop :=
  exists i : nat, formals !! i = Some f /\ actuals !! i = Some a.

(** ** Binary labels

    [printBin(n, ss)]: [if (n > 1) printBin(n / 2, ss); ss << n % 2;] on an
    [unsigned long long]. Every call halves [n], so the depth of the
    recursion is at most the 64 bits of the argument; [fuel] bounds it. *)
Definition bit_char (b : Z) : string :=
  if b =? 0 then "0"%string else "1"%string.

Fixpoint printBin_fuel (fuel : nat) (n : Z) (ss : string) : option string :=
  match fuel with
  | O => None
  | S fuel' =>
      match (if 1 <? n then printBin_fuel fuel' (n / 2) ss else Some ss) with
      | Some ss' => Some (String.append ss' (bit_char (n mod 2)))
      | None => None
      end
  end.

Definition printBin (n : Z) (ss : string) : option string :=
  printBin_fuel 64 n ss.

(** The number that a string of binary digits writes. *)
Definition binary_value (s : string) : Z :=
  fold_left (fun acc a => 2 * acc + (if Ascii.eqb a "1" then 1 else 0))
    (String.list_ascii_of_string s) 0.

(** ** File names *)

(** The character does not occur in the string. *)
Definition lacks (ch : ascii) (s : string) : Prop :=
  ~ In ch (String.list_ascii_of_string s).

(** A file name made of a directory prefix (empty, or ending in a slash),
    a stem and an extension. *)
Definition join_path (prefix stem ext : string) : string :=
  String.append prefix (String.append stem (String "." ext)).

(** ** Register names for the dumps *)

(** The bindings of a register table in the order in which [std::map]
    iterates them: by ascending name. *)
Definition name_le (x y : string * (Z * Z)) : Prop :=
  String.leb x.1 y.1 = true.

#[global] Instance name_le_dec (x y : string * (Z * Z)) :
  Decision (name_le x y).
Proof. unfold name_le. apply _. Defined.

Definition in_key_order (regs : gmap string (Z * Z))
    : list (string * (Z * Z)) :=
  merge_sort name_le (map_to_list regs).

(** [ss << name << "[" << i << "]"]. *)
Definition reg_label (name : string) (i : Z) : string :=
  String.append name
    (String.append "[" (String.append (pretty i) "]")).

(** [for (unsigned short i = 0; i < count; i++)] pushing
    [(name, name[offset + i])]. *)
Definition reg_block (name : string) (offset count : Z)
    : list (string * string) :=
  map (fun i => (name, reg_label name (offset + Z.of_nat i)))
    (seq 0 (Z.to_nat count)).

(** [create_reg_array]; the result is [regnames]. *)
Definition create_reg_array (regs : gmap string (Z * Z))
    (defaultnumber : Z) (defaultname : ascii) (fuseTogether : bool)
    : list (string * string) :=
  let defaultstring := String defaultname EmptyString in
  let empty := bool_decide (regs = ∅) in
  let fused :=
    if fuseTogether && negb empty then
      flat_map (fun reg => reg_block defaultstring reg.2.1 reg.2.2)
        (in_key_order regs)
    else [] in
  fused ++
  (if negb empty then
     flat_map (fun reg => reg_block reg.1 0 reg.2.2) (in_key_order regs)
   else reg_block defaultstring 0 (wrap16 defaultnumber)).

(** The registers of the list lie one after the other from [from] on. *)
Fixpoint consecutive (l : list (string * (Z * Z))) (from : Z) : Prop :=
  match l with
  | [] => True
  | reg :: l' =>
      reg.2.1 = from /\ 0 <= reg.2.2 /\ consecutive l' (from + reg.2.2)
  end.

Definition block_sizes (l : list (string * (Z * Z))) : Z :=
  foldr (fun reg acc => reg.2.2 + acc) 0 l.

(** ** Outcome of a gate line *)



(** * Properties *)

(** ** Machine integers and maps *)

Lemma wrap16_small x : 0 <= x < 65536 -> wrap16 x = x.
Proof. intros Hx. unfold wrap16. apply Z.mod_small. exact Hx. Qed.

Lemma map_insert_new_lookup `{Countable K} {V} (k j : K) (v : V)
    (m : gmap K V) :
  map_insert_new k v m !! j =
  if decide (k = j) then Some (default v (m !! k)) else m !! j.
Proof.
  unfold map_insert_new. destruct (m !! k) as [w|] eqn:E.
  - destruct (decide (k = j)) as [->|Hne]; simpl; [exact E | reflexivity].
  - rewrite lookup_insert. destruct (decide (k = j)); reflexivity.
Qed.

Lemma map_insert_new_fresh `{Countable K} {V} (k : K) (v : V)
    (m : gmap K V) :
  m !! k = None -> map_insert_new k v m = <[k := v]> m.
Proof. intros E. unfold map_insert_new. rewrite E. reflexivity. Qed.

(** ** Register manager *)

(** C9. [addClassicalRegister] with a name that the classical register
    table does not hold returns normally; the new register starts at the
    former classical width and has the given size, the classical width grows
    by that size, and the qubit count, the qubit registers, both
    permutations and the operations (hence the width each operation was
    told) are what they were. *)
Theorem addClassicalRegister_frame (c : QuantumComputation) (nc : Z)
    (reg_name : string) :
  cregs c !! reg_name = None ->
  exists c',
    addClassicalRegister nc reg_name c = Done c' /\
    cregs c' = <[reg_name := (nclassics c, nc)]> (cregs c) /\
    nclassics c' = nclassics c + nc /\
    nqubits c' = nqubits c /\
    qregs c' = qregs c /\
    inputPermutation c' = inputPermutation c /\
    outputPermutation c' = outputPermutation c /\
    ops c' = ops c /\
    name c' = name c /\
    max_controls c' = max_controls c.
Proof.
  intros Hfresh. unfold addClassicalRegister.
  rewrite bool_decide_eq_false_2.
  - eexists. split; [reflexivity |]. simpl.
    rewrite (map_insert_new_fresh _ _ _ Hfresh). repeat split.
  - rewrite Hfresh. intros [r Hr]. discriminate Hr.
Qed.

Lemma addClassicalRegister_frame_witness :
  exists c',
    addClassicalRegister 2 "c" three_qubits_one_register = Done c' /\
    cregs c' = <["c" := (0, 2)]> ∅ /\
    nclassics c' = 0 + 2 /\
    nqubits c' = 3 /\
    qregs c' = qregs three_qubits_one_register /\
    inputPermutation c' = inputPermutation three_qubits_one_register /\
    outputPermutation c' = outputPermutation three_qubits_one_register /\
    ops c' = ops three_qubits_one_register /\
    name c' = name three_qubits_one_register /\
    max_controls c' = max_controls three_qubits_one_register.
Proof.
  apply (addClassicalRegister_frame three_qubits_one_register 2 "c").
  reflexivity.
Defined.

(** A classical register is never grown in place. *)
Lemma addClassicalRegister_existing (c : QuantumComputation) (nc : Z)
    (reg_name : string) (r : Z * Z) :
  cregs c !! reg_name = Some r ->
  exists msg, addClassicalRegister nc reg_name c = Exit 1 msg.
Proof.
  intros Hr. unfold addClassicalRegister.
  rewrite bool_decide_eq_true_2; [eexists; reflexivity |].
  rewrite Hr. eexists. reflexivity.
Qed.

Section RegisterManagerFacts.

Variable MAXN : Z.
Variable setNqubits : Z -> Operation -> Operation.
Variable actsOn : Operation -> Z -> bool.

Lemma addQubitRegister_too_wide (c : QuantumComputation) (nq : Z)
    (reg_name : string) :
  MAXN < nqubits c + nq ->
  exists msg, addQubitRegister MAXN setNqubits nq reg_name c = Exit 1 msg.
Proof.
  intros Hw. unfold addQubitRegister.
  destruct (nqubits c + nq >? MAXN) eqn:E; [eexists; reflexivity | lia].
Qed.

(** C4, as amended. When the new total does not exceed [dd::MAXN]: for a
    name that the qubit register table holds, [addQubitRegister] extends
    that register in place by [nq] if and only if its range ends at the
    current qubit count, and the call exits with code 1 otherwise; for a
    name that the table does not hold, a register of size [nq] is created
    that starts at the current qubit count. *)
Theorem addQubitRegister_last_only (c : QuantumComputation) (nq : Z)
    (reg_name : string) :
  nqubits c + nq <= MAXN ->
  (forall reg, qregs c !! reg_name = Some reg ->
     (reg.1 + reg.2 = nqubits c <->
      exists c', addQubitRegister MAXN setNqubits nq reg_name c = Done c' /\
                 qregs c' = <[reg_name := (reg.1, reg.2 + nq)]> (qregs c)) /\
     (reg.1 + reg.2 <> nqubits c ->
      exists msg,
        addQubitRegister MAXN setNqubits nq reg_name c = Exit 1 msg)) /\
  (qregs c !! reg_name = None ->
   exists c', addQubitRegister MAXN setNqubits nq reg_name c = Done c' /\
              qregs c' = <[reg_name := (nqubits c, nq)]> (qregs c) /\
              nqubits c' = nqubits c + nq).
Proof.
  intros Hw. unfold addQubitRegister.
  destruct (nqubits c + nq >? MAXN) eqn:E; [lia |]. clear E.
  split.
  - intros reg Hreg. rewrite Hreg.
    destruct (reg.1 + reg.2 =? nqubits c) eqn:Elast.
    + apply Z.eqb_eq in Elast. split; [split |].
      * intros _. eexists. split; reflexivity.
      * intros _. exact Elast.
      * intros Hne. contradiction.
    + apply Z.eqb_neq in Elast. split; [split |].
      * intros Heq. contradiction.
      * intros (c' & Hc' & _). discriminate Hc'.
      * intros _. eexists. reflexivity.
  - intros Hnone. rewrite Hnone. eexists. split; [reflexivity |].
    simpl. rewrite (map_insert_new_fresh _ _ _ Hnone). split; reflexivity.
Qed.

End RegisterManagerFacts.

Lemma addQubitRegister_last_only_witness :
  (forall reg, qregs three_qubits_one_register !! "q" = Some reg ->
     (reg.1 + reg.2 = nqubits three_qubits_one_register <->
      exists c',
        addQubitRegister 128 op_setNqubits 2 "q" three_qubits_one_register
          = Done c' /\
        qregs c' = <["q" := (reg.1, reg.2 + 2)]>
                     (qregs three_qubits_one_register)) /\
     (reg.1 + reg.2 <> nqubits three_qubits_one_register ->
      exists msg,
        addQubitRegister 128 op_setNqubits 2 "q" three_qubits_one_register
          = Exit 1 msg)) /\
  (qregs three_qubits_one_register !! "q" = None ->
   exists c',
     addQubitRegister 128 op_setNqubits 2 "q" three_qubits_one_register
       = Done c' /\
     qregs c' = <["q" := (nqubits three_qubits_one_register, 2)]>
                  (qregs three_qubits_one_register) /\
     nqubits c' = nqubits three_qubits_one_register + 2).
Proof.
  apply (addQubitRegister_last_only 128 op_setNqubits
           three_qubits_one_register 2 "q").
  vm_compute. discriminate.
Defined.

(** C4, as stated, fails: the only register of [full_width_circuit] ends at
    the current qubit count, and growing it by one exits. The same happens
    whatever the value of [dd::MAXN], on a circuit of that width. *)
Lemma addQubitRegister_last_rejected_at_full_width :
  (qregs full_width_circuit !! "q" = Some (0, 128) /\
   0 + 128 = nqubits full_width_circuit /\
   addQubitRegister 128 op_setNqubits 1 "q" full_width_circuit
   = Exit 1 "Adding additional ancillaries results in too many qubits.") /\
  (forall MAXN : Z,
     let c := mkQC MAXN 0 "" {["q" := (0, MAXN)]} ∅ ∅ ∅ [] 0 in
     qregs c !! "q" = Some (0, MAXN) /\
     0 + MAXN = nqubits c /\
     addQubitRegister MAXN op_setNqubits 1 "q" c
     = Exit 1 "Adding additional ancillaries results in too many qubits.").
Proof.
  split; [repeat split |].
  intros MAXN c. split; [apply lookup_singleton_eq |].
  split; [reflexivity |].
  unfold addQubitRegister. simpl.
  destruct (MAXN + 1 >? MAXN) eqn:E; [reflexivity | lia].
Qed.

(** *** Stripping trailing idle qubits *)

Lemma least_name_elem (l : list (string * (Z * Z))) :
  l <> [] -> exists kv, least_name l = Some kv.1 /\ kv ∈ l.
Proof.
  induction l as [|kv l IH]; [congruence |]. intros _. simpl.
  destruct l as [|kv' l'].
  - exists kv. split; [reflexivity | apply list_elem_of_here].
  - destruct IH as (kv0 & Hl & Hin); [congruence |].
    rewrite Hl. destruct (String.ltb kv.1 kv0.1).
    + exists kv. split; [reflexivity | apply list_elem_of_here].
    + exists kv0. split; [reflexivity | apply list_elem_of_further, Hin].
Qed.

Lemma getQubitRegister_found (i : Z) (c : QuantumComputation) :
  0 <= i < 65536 ->
  (exists n reg, qregs c !! n = Some reg /\ reg_contains i reg = true) ->
  exists n reg, getQubitRegister i c = Done n /\
                qregs c !! n = Some reg /\ reg_contains i reg = true.
Proof.
  intros Hi (n0 & reg0 & Hn0 & Hc0). unfold getQubitRegister.
  rewrite (wrap16_small i Hi).
  set (l := List.filter _ _).
  assert (Hne : l <> []).
  { intros Hl.
    assert (Hin : In (n0, reg0) l).
    { apply filter_In. split; [| exact Hc0].
      apply list_elem_of_In, elem_of_map_to_list. exact Hn0. }
    rewrite Hl in Hin. destruct Hin. }
  destruct (least_name_elem l Hne) as ([n reg] & Hl & Hin).
  rewrite Hl. exists n, reg. split; [reflexivity |].
  apply list_elem_of_In, filter_In in Hin. destruct Hin as [Hin Hc].
  split; [| exact Hc].
  apply list_elem_of_In, elem_of_map_to_list in Hin. exact Hin.
Qed.

Section StripFacts.

Variable setNqubits : Z -> Operation -> Operation.
Variable actsOn : Operation -> Z -> bool.

Lemma isIdleQubit_true (i : Z) (c : QuantumComputation) :
  0 <= i < 65536 ->
  (forall op, op ∈ ops c -> actsOn op i = false) ->
  isIdleQubit actsOn i c = true.
Proof.
  intros Hi Hidle. unfold isIdleQubit. rewrite (wrap16_small i Hi).
  apply forallb_forall. intros op Hop.
  rewrite (Hidle op); [reflexivity | apply list_elem_of_In, Hop].
Qed.

Lemma isIdleQubit_false (i : Z) (c : QuantumComputation) :
  0 <= i < 65536 ->
  (exists op, op ∈ ops c /\ actsOn op i = true) ->
  isIdleQubit actsOn i c = false.
Proof.
  intros Hi (op & Hop & Hact). unfold isIdleQubit.
  rewrite (wrap16_small i Hi).
  destruct (forallb _ _) eqn:E; [| reflexivity].
  rewrite forallb_forall in E.
  specialize (E op (proj1 (list_elem_of_In _ _) Hop)).
  rewrite Hact in E. discriminate E.
Qed.

(** One idle qubit at the top, held by some register, is removed: the
    width drops by one, its permutation entries go, the operations stay,
    and the registers go on holding every lower index they held. *)
Lemma strip_one_spec (i : Z) (c : QuantumComputation) (lo : Z) :
  0 <= i < 65536 -> lo <= i ->
  covered lo (i + 1) (qregs c) ->
  exists c',
    strip_one i c = Done c' /\
    nqubits c' = nqubits c - 1 /\
    inputPermutation c' = delete i (inputPermutation c) /\
    outputPermutation c' = delete i (outputPermutation c) /\
    ops c' = ops c /\
    covered lo i (qregs c').
Proof.
  intros Hi Hlo Hcov. unfold strip_one.
  set (c1 := set_nqubits _ _).
  destruct (getQubitRegister_found i c1 Hi) as (n & reg & Hget & Hn & Hc).
  { apply Hcov. lia. }
  rewrite Hget. simpl. change (qregs c1) with (qregs c) in *. rewrite Hn.
  unfold reg_contains in Hc. apply andb_true_iff in Hc.
  destruct Hc as [Hc1 Hc2].
  apply negb_true_iff, Z.ltb_ge in Hc1.
  apply negb_true_iff in Hc2. rewrite Z.geb_leb in Hc2.
  apply Z.leb_gt in Hc2.
  assert (Hkeep : forall j, lo <= j < i ->
            forall n' reg', qregs c !! n' = Some reg' ->
              reg_contains j reg' = true ->
              n' = n -> reg_contains j (reg.1, reg.2 - 1) = true /\ reg.2 <> 1).
  { intros j Hj n' reg' Hn' Hc' ->. rewrite Hn in Hn'. injection Hn' as <-.
    unfold reg_contains in *. apply andb_true_iff in Hc'.
    destruct Hc' as [Hd1 Hd2].
    apply negb_true_iff, Z.ltb_ge in Hd1.
    apply negb_true_iff in Hd2. rewrite Z.geb_leb in Hd2.
    apply Z.leb_gt in Hd2. simpl. split; [| lia].
    apply andb_true_iff. split; apply negb_true_iff.
    - apply Z.ltb_ge. lia.
    - rewrite Z.geb_leb. apply Z.leb_gt. lia. }
  destruct (reg.2 =? 1) eqn:E1.
  - apply Z.eqb_eq in E1. eexists. split; [reflexivity |]. simpl.
    repeat split.
    intros j Hj. destruct (Hcov j) as (n' & reg' & Hn' & Hc'); [lia |].
    destruct (decide (n' = n)) as [Heq | Hne].
    + destruct (Hkeep j Hj n' reg' Hn' Hc' Heq) as [_ Hbad]. contradiction.
    + exists n', reg'. split; [| exact Hc'].
      rewrite lookup_delete_ne; [exact Hn' | congruence].
  - eexists. split; [reflexivity |]. simpl. repeat split.
    intros j Hj. destruct (Hcov j) as (n' & reg' & Hn' & Hc'); [lia |].
    destruct (decide (n' = n)) as [Heq | Hne].
    + destruct (Hkeep j Hj n' reg' Hn' Hc' Heq) as [Hin _].
      exists n, (reg.1, reg.2 - 1). split; [apply lookup_insert_eq | exact Hin].
    + exists n', reg'. split; [| exact Hc'].
      rewrite lookup_insert_ne; [exact Hn' | congruence].
Qed.

Lemma strip_step_lookup (perm : gmap Z Z) (m n1 n i : Z) :
  n = n1 + 1 -> m <= n1 ->
  (if decide (m <= i < n1) then None else delete n1 perm !! i) =
  (if decide (m <= i < n) then None else perm !! i).
Proof.
  intros Hn Hm.
  destruct (decide (m <= i < n1)); destruct (decide (m <= i < n));
    try lia; try reflexivity.
  - assert (i = n1) as -> by lia. apply lookup_delete_eq.
  - apply lookup_delete_ne. lia.
Qed.

(** The loop, run on [m + d] qubits of which the top [d] are idle and held
    by registers while qubit [m - 1] is busy, ends on [m] qubits. *)
Lemma strip_loop_spec (m : Z) (d : nat) :
  0 < m ->
  forall c,
    nqubits c = m + Z.of_nat d -> nqubits c <= 65536 ->
    (exists op, op ∈ ops c /\ actsOn op (m - 1) = true) ->
    (forall i, m <= i < nqubits c ->
       forall op, op ∈ ops c -> actsOn op i = false) ->
    covered m (nqubits c) (qregs c) ->
    exists c',
      strip_loop setNqubits actsOn (Z.to_nat (nqubits c)) c = Done c' /\
      nqubits c' = m /\
      (forall i, inputPermutation c' !! i =
                 if decide (m <= i < nqubits c) then None
                 else inputPermutation c !! i) /\
      (forall i, outputPermutation c' !! i =
                 if decide (m <= i < nqubits c) then None
                 else outputPermutation c !! i) /\
      ops c' = map (setNqubits m) (ops c).
Proof.
  intros Hm. induction d as [|d IH]; intros c Hn Hmax Hbusy Hidle Hcov.
  - assert (Hk : Z.to_nat (nqubits c) = S (Z.to_nat (m - 1))) by lia.
    rewrite Hk. simpl. rewrite Z2Nat.id by lia.
    rewrite (isIdleQubit_false _ c) by first [lia | exact Hbusy].
    eexists. split; [reflexivity |]. simpl.
    split; [lia |]. rewrite Hn, Z.add_0_r.
    repeat split; try (intros i; destruct (decide _); [lia | reflexivity]).
  - assert (Hk : Z.to_nat (nqubits c) = S (Z.to_nat (m + Z.of_nat d)))
      by lia.
    rewrite Hk. simpl. rewrite Z2Nat.id by lia.
    rewrite (isIdleQubit_true _ c)
      by first [lia | intros op Hop; apply Hidle; [lia | exact Hop]].
    destruct (strip_one_spec (m + Z.of_nat d) c m)
      as (c1 & Hs & Hn1 & Hi1 & Ho1 & Hops1 & Hcov1); [lia | lia | |].
    { replace (m + Z.of_nat d + 1) with (nqubits c) by lia. exact Hcov. }
    rewrite Hs. simpl.
    assert (Hn1' : nqubits c1 = m + Z.of_nat d) by lia.
    destruct (IH c1) as (c' & Hl & Hn' & Hi' & Ho' & Hops'); try lia.
    + rewrite Hops1. exact Hbusy.
    + rewrite Hops1. intros i Hi. apply Hidle. lia.
    + rewrite Hn1'. exact Hcov1.
    + rewrite Hn1' in Hl.
      exists c'. split; [exact Hl |]. split; [exact Hn' |].
      rewrite Hops', Hops1. repeat split.
      * intros i. rewrite Hi', Hi1, Hn1'. apply strip_step_lookup; lia.
      * intros i. rewrite Ho', Ho1, Hn1'. apply strip_step_lookup; lia.
Qed.

(** C3, as amended. On a circuit of [n] qubits, [n] within the range of
    the 16-bit indices the code uses, whose operations act on qubit [m - 1]
    and on no qubit of [[m, n)], with [0 < m <= n], and whose every index in
    [[m, n)] lies in a declared register, [stripTrailingIdleQubits] returns
    normally with qubit count exactly [m]; both permutations lose exactly
    the entries of the indices [[m, n)] and keep every other entry, so an
    idle qubit below [m] is left alone; every operation is told the width
    [m]. *)
Theorem stripTrailingIdleQubits_trims (c : QuantumComputation) (m : Z) :
  0 < m <= nqubits c -> nqubits c <= 65536 ->
  (exists op, op ∈ ops c /\ actsOn op (m - 1) = true) ->
  (forall i, m <= i < nqubits c ->
     forall op, op ∈ ops c -> actsOn op i = false) ->
  covered m (nqubits c) (qregs c) ->
  exists c',
    stripTrailingIdleQubits setNqubits actsOn c = Done c' /\
    nqubits c' = m /\
    (forall i, inputPermutation c' !! i =
               if decide (m <= i < nqubits c) then None
               else inputPermutation c !! i) /\
    (forall i, outputPermutation c' !! i =
               if decide (m <= i < nqubits c) then None
               else outputPermutation c !! i) /\
    ops c' = map (setNqubits m) (ops c).
Proof.
  intros Hm Hmax Hbusy Hidle Hcov. unfold stripTrailingIdleQubits.
  apply (strip_loop_spec m (Z.to_nat (nqubits c - m))); try assumption; lia.
Qed.

End StripFacts.

Lemma stripTrailingIdleQubits_trims_witness :
  exists c',
    stripTrailingIdleQubits op_setNqubits op_actsOn three_qubits_one_register
      = Done c' /\
    nqubits c' = 1 /\
    (forall i, inputPermutation c' !! i =
               if decide (1 <= i < nqubits three_qubits_one_register)
               then None
               else inputPermutation three_qubits_one_register !! i) /\
    (forall i, outputPermutation c' !! i =
               if decide (1 <= i < nqubits three_qubits_one_register)
               then None
               else outputPermutation three_qubits_one_register !! i) /\
    ops c' = map (op_setNqubits 1) (ops three_qubits_one_register).
Proof.
  apply (stripTrailingIdleQubits_trims op_setNqubits op_actsOn
           three_qubits_one_register 1).
  - simpl. lia.
  - simpl. lia.
  - exists (hadamard_on_0 3). split; [apply list_elem_of_here | reflexivity].
  - simpl. intros i Hi op Hop. apply list_elem_of_singleton in Hop.
    subst op. simpl. rewrite orb_false_r. apply Z.eqb_neq. lia.
  - simpl. intros i Hi. exists "q", (0, 3). split; [reflexivity |].
    unfold reg_contains. simpl.
    apply andb_true_iff. split; apply negb_true_iff.
    + apply Z.ltb_ge. lia.
    + rewrite Z.geb_leb. apply Z.leb_gt. lia.
Defined.

(** C3, as stated, fails: the grid-benchmark text [2 / 0 h 0] yields a
    circuit of two qubits whose only operation acts on qubit 0 and which has
    no register; stripping it exits instead of reducing the width to 1. *)
Lemma stripTrailingIdleQubits_exits_without_register :
  importGRCS grcs_two_qubits emptyQC = Done two_qubits_no_register /\
  nqubits two_qubits_no_register = 2 /\
  forallb (fun op => op_actsOn op 0) (ops two_qubits_no_register) = true /\
  isIdleQubit op_actsOn 1 two_qubits_no_register = true /\
  stripTrailingIdleQubits op_setNqubits op_actsOn two_qubits_no_register
  = Exit 1 "Qubit index not found in any register".
Proof. repeat split. Qed.


(** ** Functionality and simulation builder *)

Lemma last_cons_default {A} (l : list A) :
  forall x d : A, List.last (x :: l) d = List.last l x.
Proof.
  induction l as [|y l IH]; intros x d; [reflexivity |].
  change (List.last (y :: l) d = List.last (y :: l) x).
  rewrite (IH y d), (IH y x). reflexivity.
Qed.

Section BuilderFacts.

Context {Edge : Type} `{Countable Edge}.

Variable dd : Package Edge.
Variable isUnitary : Operation -> bool.
Variable MAX_QUBITS : nat.
Variable LINE_DEFAULT : Z.

(** Only [incRef] and [decRef] change the outstanding retains. *)
Lemma outstanding_filter (evs : list (DDEvent Edge)) :
  forall held, outstanding evs held = outstanding (List.filter is_ref evs) held.
Proof.
  induction evs as [|ev evs IH]; intros held; [reflexivity |].
  destruct ev; simpl; try apply IH.
  destruct (bool_decide _); [apply IH | reflexivity].
Qed.

(** A chain of hand-overs that starts from a retained edge ends with that
    retain moved to the last accumulator. *)
Lemma outstanding_handover (es : list Edge) :
  forall e0 held,
    e0 ∈ held ->
    outstanding (handover e0 es) held
    = Some ((held ∖ {[+ e0 +]}) ⊎ {[+ List.last es e0 +]}).
Proof.
  induction es as [|e1 es IH]; intros e0 held Hin.
  - simpl. f_equal. multiset_solver.
  - cbn [handover outstanding].
    rewrite bool_decide_eq_true_2 by multiset_solver.
    rewrite (IH e1) by multiset_solver.
    rewrite last_cons_default. f_equal. multiset_solver.
Qed.

Lemma fold_ops_spec (executeSwaps : bool) (l : list Operation) :
  forallb isUnitary l = true ->
  forall line perm e h,
  exists es evs perm',
    fold_ops dd isUnitary executeSwaps l line perm e h
    = (h ++ evs, perm', Done (List.last es e)) /\
    length es = length l /\
    List.filter is_ref evs = handover e es /\
    length (List.filter is_gc evs) = length l /\
    length (List.filter is_multiply evs) = length l /\
    List.filter is_normalization evs = [].
Proof.
  induction l as [|op l IH]; intros Hu line perm e h.
  - exists [], [], perm. simpl. rewrite app_nil_r. repeat split.
  - simpl in Hu. apply andb_true_iff in Hu. destruct Hu as [Hop Hl].
    simpl. rewrite Hop. simpl.
    destruct (getDD dd h op line perm executeSwaps) as [[f line'] perm1].
    set (h1 := h ++ [EvGetDD op perm executeSwaps]).
    set (tmp := multiply dd h1 f e).
    destruct (IH Hl line' perm1 tmp
                ((((h1 ++ [EvMultiply f e]) ++ [EvIncRef tmp]) ++ [EvDecRef e])
                 ++ [EvGarbageCollect]))
      as (es & evs & perm' & Hfold & Hlen & Href & Hgc & Hmul & Hnorm).
    exists (tmp :: es),
      ([EvGetDD op perm executeSwaps; EvMultiply f e; EvIncRef tmp;
        EvDecRef e; EvGarbageCollect] ++ evs), perm'.
    rewrite Hfold. split.
    + f_equal; [f_equal |].
      * unfold h1. rewrite <- !app_assoc. reflexivity.
      * f_equal. symmetry. apply last_cons_default.
    + simpl. rewrite Hlen, Href, Hgc, Hmul, Hnorm. repeat split.
Qed.

(** C5. In a fold that runs to its end (every operation is unitary, and for
    [buildFunctionality] the circuit has a qubit), with [e0] the first
    accumulator and [es] the accumulators that follow, one for each
    operation: the retain and release events are the retain of [e0] and
    then, for each operation in order, the retain of the new accumulator
    followed by the release of the one it supersedes; the garbage collector
    runs once for each operation; no release meets an edge without a
    retain, and the only retain outstanding at the end is one on the
    result. *)
Theorem fold_retains_balanced (c : QuantumComputation)
    (executeSwaps : bool) (input : Edge) (h : list (DDEvent Edge)) :
  forallb isUnitary (ops c) = true ->
  (nqubits c <> 0 ->
   exists e0 es evs perm',
     buildFunctionality dd isUnitary MAX_QUBITS LINE_DEFAULT c executeSwaps h
     = (h ++ evs, perm', Done (List.last es e0)) /\
     length es = length (ops c) /\
     List.filter is_ref evs = EvIncRef e0 :: handover e0 es /\
     length (List.filter is_gc evs) = length (ops c) /\
     outstanding evs ∅ = Some {[+ List.last es e0 +]}) /\
  (exists es evs perm',
     simulate dd isUnitary MAX_QUBITS LINE_DEFAULT c input executeSwaps h
     = (h ++ evs, perm', Done (List.last es input)) /\
     length es = length (ops c) /\
     List.filter is_ref evs = EvIncRef input :: handover input es /\
     length (List.filter is_gc evs) = length (ops c) /\
     outstanding evs ∅ = Some {[+ List.last es input +]}).
Proof.
  intros Hu. split.
  - intros Hq. unfold buildFunctionality.
    destruct (nqubits c =? 0) eqn:E; [apply Z.eqb_eq in E; contradiction |].
    set (h1 := h ++ [EvUseMatrixNormalization true]).
    set (e0 := makeIdent dd h1 0 (nqubits c - 1)).
    destruct (fold_ops_spec executeSwaps (ops c) Hu
                (replicate MAX_QUBITS LINE_DEFAULT) (outputPermutation c) e0
                ((h1 ++ [EvMakeIdent 0 (nqubits c - 1)]) ++ [EvIncRef e0]))
      as (es & evs & perm' & Hfold & Hlen & Href & Hgc & _ & _).
    rewrite Hfold.
    exists e0, es,
      ([EvUseMatrixNormalization true; EvMakeIdent 0 (nqubits c - 1);
        EvIncRef e0] ++ evs ++ [EvUseMatrixNormalization false]), perm'.
    split; [| split; [exact Hlen |]].
    + f_equal. f_equal. unfold h1. rewrite <- !app_assoc. reflexivity.
    + assert (Hr : List.filter is_ref
                     ([EvUseMatrixNormalization true;
                       EvMakeIdent 0 (nqubits c - 1); EvIncRef e0] ++
                      evs ++ [EvUseMatrixNormalization false])
                   = EvIncRef e0 :: handover e0 es).
      { simpl. rewrite List.filter_app, Href. simpl.
        rewrite app_nil_r. reflexivity. }
      split; [exact Hr |]. split.
      * simpl. rewrite List.filter_app, length_app, Hgc. simpl. lia.
      * rewrite outstanding_filter, Hr. simpl.
        rewrite outstanding_handover by multiset_solver.
        f_equal. multiset_solver.
  - unfold simulate.
    destruct (fold_ops_spec executeSwaps (ops c) Hu
                (replicate MAX_QUBITS LINE_DEFAULT) (outputPermutation c)
                input (h ++ [EvIncRef input]))
      as (es & evs & perm' & Hfold & Hlen & Href & Hgc & _ & _).
    rewrite Hfold. exists es, ([EvIncRef input] ++ evs), perm'.
    split; [| split; [exact Hlen |]].
    + f_equal. f_equal. rewrite <- app_assoc. reflexivity.
    + assert (Hr : List.filter is_ref ([EvIncRef input] ++ evs)
                   = EvIncRef input :: handover input es).
      { simpl. rewrite Href. reflexivity. }
      split; [exact Hr |]. split.
      * simpl. exact Hgc.
      * rewrite outstanding_filter, Hr. simpl.
        rewrite outstanding_handover by multiset_solver.
        f_equal. multiset_solver.
Qed.

(** C10. On a circuit without operations [simulate] returns the input edge
    itself, and all it asks of the package is one [incRef] of that edge: no
    product, no garbage collection, no change of the normalization mode. *)
Theorem simulate_no_operations (c : QuantumComputation)
    (executeSwaps : bool) (input : Edge) (h : list (DDEvent Edge)) :
  ops c = [] ->
  simulate dd isUnitary MAX_QUBITS LINE_DEFAULT c input executeSwaps h
  = (h ++ [EvIncRef input], outputPermutation c, Done input).
Proof. intros Hops. unfold simulate. rewrite Hops. reflexivity. Qed.

(** A circuit without qubits: [buildFunctionality] returns the package's
    identity edge and asks nothing of the package. *)
Lemma buildFunctionality_no_qubits (c : QuantumComputation)
    (executeSwaps : bool) (h : list (DDEvent Edge)) :
  nqubits c = 0 ->
  buildFunctionality dd isUnitary MAX_QUBITS LINE_DEFAULT c executeSwaps h
  = (h, outputPermutation c, Done (DDone dd)).
Proof. intros Hq. unfold buildFunctionality. rewrite Hq. reflexivity. Qed.

(** A fold stops at the first operation that is not unitary. *)
Lemma fold_ops_not_unitary (executeSwaps : bool) (op : Operation)
    (rest : list Operation) (line : Line) (perm : gmap Z Z) (e : Edge)
    (h : list (DDEvent Edge)) :
  isUnitary op = false ->
  fold_ops dd isUnitary executeSwaps (op :: rest) line perm e h
  = (h, perm, Exit 1 "Functionality not unitary.").
Proof. intros Hu. simpl. rewrite Hu. reflexivity. Qed.

End BuilderFacts.

Lemma simulate_no_operations_witness :
  simulate sample_package op_isUnitary 128 (-1) full_width_circuit 7 false []
  = ([] ++ [EvIncRef 7], outputPermutation full_width_circuit, Done 7).
Proof.
  apply (simulate_no_operations sample_package op_isUnitary 128 (-1)
           full_width_circuit false 7 []).
  reflexivity.
Defined.

Lemma fold_retains_balanced_witness :
  (nqubits three_qubits_one_register <> 0 ->
   exists e0 es evs perm',
     buildFunctionality sample_package op_isUnitary 128 (-1)
       three_qubits_one_register false []
     = ([] ++ evs, perm', Done (List.last es e0)) /\
     length es = length (ops three_qubits_one_register) /\
     List.filter is_ref evs = EvIncRef e0 :: handover e0 es /\
     length (List.filter is_gc evs)
     = length (ops three_qubits_one_register) /\
     outstanding evs ∅ = Some {[+ List.last es e0 +]}) /\
  (exists es evs perm',
     simulate sample_package op_isUnitary 128 (-1)
       three_qubits_one_register 7 false []
     = ([] ++ evs, perm', Done (List.last es 7)) /\
     length es = length (ops three_qubits_one_register) /\
     List.filter is_ref evs = EvIncRef 7 :: handover 7 es /\
     length (List.filter is_gc evs)
     = length (ops three_qubits_one_register) /\
     outstanding evs ∅ = Some {[+ List.last es 7 +]}).
Proof.
  apply (fold_retains_balanced sample_package op_isUnitary 128 (-1)
           three_qubits_one_register false 7 []).
  reflexivity.
Defined.

(** ** Foreign-circuit import bridge *)

Lemma py_pop_n_take {A} (n : nat) :
  forall l : list A,
    (n <= length l)%nat -> py_pop_n n l = Some (take (length l - n) l).
Proof.
  induction n as [|n IH]; intros l Hn.
  - simpl. rewrite Nat.sub_0_r, firstn_all. reflexivity.
  - simpl. destruct l as [|x l]; [simpl in Hn; lia |].
    cbn [py_pop]. rewrite IH.
    + rewrite removelast_firstn_len. f_equal.
      rewrite take_take. f_equal.
      rewrite length_take. simpl. lia.
    + rewrite removelast_firstn_len, length_take. simpl in *. lia.
Qed.

Lemma vchain_pops_small (argc : nat) :
  Z.of_nat argc < 65536 ->
  vchain_pops argc = Z.to_nat ((Z.of_nat argc + 1) / 2 - 2) /\
  (vchain_pops argc <= argc)%nat.
Proof.
  intros Hs. unfold vchain_pops, vchain_ncontrols.
  rewrite (wrap16_small (Z.of_nat argc)) by lia.
  assert (Hd : 0 <= (Z.of_nat argc + 1) / 2 <= Z.of_nat argc).
  { split; [apply Z.div_pos; lia |].
    destruct (Z.eq_dec (Z.of_nat argc) 0) as [-> | Hne]; [reflexivity |].
    apply Z.div_le_upper_bound; lia. }
  rewrite wrap16_small by lia. split; [reflexivity | lia].
Qed.

Section BridgeFacts.

Variable getIndexQ : QuantumComputation -> string * Z -> Outcome Z.
Variable getIndexC : QuantumComputation -> string * Z -> Outcome Z.
Variable getNqubits : QuantumComputation -> Z.

(** C7, as amended. An [mcx_recursive] instruction is translated as a
    multi-controlled X on its arguments without the last one when there are
    more than five of them, and on all of them otherwise. An [mcx_vchain]
    instruction with [argCount] arguments ([argCount] a 16-bit value, as
    the code stores it) is translated as a multi-controlled X after dropping
    the last [floor((argCount+1)/2) - 2] arguments, none when that number is
    negative: the effective control count is the integer quotient
    [(argCount+1)/2]. *)
Theorem mcx_helper_arguments_dropped (ip : list Q)
    (def : option QuantumCircuit) (qargs cargs : list PyBit)
    (params : list Q) (st : BridgeState) :
  Z.of_nat (length qargs) < 65536 ->
  emplaceQiskitOperation getIndexQ getIndexC getNqubits
    (mkInstruction "mcx_recursive" ip def) qargs cargs params st
  = addQiskitOperation getIndexQ getNqubits OpType.X
      (if (length qargs <=? 5)%nat then qargs
       else take (length qargs - 1) qargs) params st
  /\
  emplaceQiskitOperation getIndexQ getIndexC getNqubits
    (mkInstruction "mcx_vchain" ip def) qargs cargs params st
  = addQiskitOperation getIndexQ getNqubits OpType.X
      (take (length qargs
             - Z.to_nat ((Z.of_nat (length qargs) + 1) / 2 - 2)) qargs)
      params st.
Proof.
  intros Hs. split.
  - cbn -[addQiskitOperation Nat.leb take].
    destruct (length qargs <=? 5)%nat eqn:E; [reflexivity |].
    apply Nat.leb_gt in E.
    destruct qargs as [|q qs]; [simpl in E; lia |].
    cbn [py_pop]. rewrite removelast_firstn_len.
    replace (Init.Nat.pred (length (q :: qs)))
      with (length (q :: qs) - 1)%nat by (simpl; lia).
    reflexivity.
  - cbn -[addQiskitOperation vchain_pops take py_pop_n].
    destruct (vchain_pops_small (length qargs) Hs) as [Hp Hle].
    rewrite (py_pop_n_take _ qargs Hle), Hp. reflexivity.
Qed.

(** C8. An instruction that the dispatcher does not translate directly
    (it is neither a measurement nor a barrier nor in the table of
    natively supported gates) and that carries no definition: the call
    returns normally, the circuit is what it was, and the failure is
    written to [cerr]; inside a definition whose instruction stream holds
    it, the translation goes on with the instructions after it. *)
Theorem instruction_without_definition_skipped (instructionName : string)
    (ip : list Q) (qargs cargs : list PyBit) (params : list Q)
    (st : BridgeState) :
  directly_translated instructionName = false ->
  exists what,
    emplaceQiskitOperation getIndexQ getIndexC getNqubits
      (mkInstruction instructionName ip None) qargs cargs params st
    = (mkBridge (qc st)
         (cerr st ++
          [String.append "Failed to import instruction "
             (String.append instructionName " from Qiskit"); what]),
       PyOk) /\
    forall def_qubits def_clbits inst_qargs inst_cargs rest oq oc qm cm,
      bind_args def_qubits oq ∅ = Some qm ->
      bind_args def_clbits oc ∅ = Some cm ->
      is_Some (map_args qm inst_qargs) ->
      is_Some (map_args cm inst_cargs) ->
      importQiskitDefinition getIndexQ getIndexC getNqubits
        (Some (def_qubits, def_clbits,
               (mkInstruction instructionName ip None, inst_qargs,
                inst_cargs) :: rest)) oq oc st
      = importQiskitDefinition getIndexQ getIndexC getNqubits
          (Some (def_qubits, def_clbits, rest)) oq oc
          (report_failure instructionName what st).
Proof.
  intros Hd. unfold directly_translated in Hd.
  apply orb_false_iff in Hd. destruct Hd as [Hd Ht].
  apply orb_false_iff in Hd. destruct Hd as [Hm Hb].
  assert (Hcall : forall qa ca pa s,
            emplaceQiskitOperation getIndexQ getIndexC getNqubits
              (mkInstruction instructionName ip None) qa ca pa s
            = (report_failure instructionName
                 "'NoneType' object has no attribute 'qubits'" s, PyOk)).
  { intros qa ca pa s. cbn [emplaceQiskitOperation].
    rewrite Hm, Hb, Ht. reflexivity. }
  eexists. split; [apply Hcall |].
  intros dq dc iq ic rest oq oc qm cm Hq Hc [mq Hmq] [mc Hmc].
  unfold importQiskitDefinition, importQiskitDefinition_with.
  rewrite Hq, Hc, Hmq, Hmc, Hcall. reflexivity.
Qed.

End BridgeFacts.

Lemma mcx_helper_arguments_dropped_witness :
  emplaceQiskitOperation getIndexFromQubitRegister
    getIndexFromClassicalRegister nqubits
    (mkInstruction "mcx_recursive" [] None) vchain_four_args [] []
    bridge_start
  = addQiskitOperation getIndexFromQubitRegister nqubits OpType.X
      (if (length vchain_four_args <=? 5)%nat then vchain_four_args
       else take (length vchain_four_args - 1) vchain_four_args) []
      bridge_start
  /\
  emplaceQiskitOperation getIndexFromQubitRegister
    getIndexFromClassicalRegister nqubits
    (mkInstruction "mcx_vchain" [] None) vchain_four_args [] [] bridge_start
  = addQiskitOperation getIndexFromQubitRegister nqubits OpType.X
      (take (length vchain_four_args
             - Z.to_nat ((Z.of_nat (length vchain_four_args) + 1) / 2 - 2))
         vchain_four_args) [] bridge_start.
Proof.
  apply (mcx_helper_arguments_dropped getIndexFromQubitRegister
           getIndexFromClassicalRegister nqubits [] None vchain_four_args
           [] [] bridge_start).
  simpl. lia.
Defined.

(** C7, as stated, fails. With four arguments
    [ceil((argCount+1)/2) - 2] is 1, so the claim has the last argument
    dropped; the code computes 2 controls and drops none: the operation it
    appends has three controls and the fourth argument as target. *)
Lemma mcx_vchain_four_arguments_drops_none :
  vchain_controls_stated 4 - 2 = 1 /\
  vchain_ncontrols 4 - 2 = 0 /\
  emplaceQiskitOperation getIndexFromQubitRegister
    getIndexFromClassicalRegister nqubits
    (mkInstruction "mcx_vchain" [] None) vchain_four_args [] [] bridge_start
  = addQiskitOperation getIndexFromQubitRegister nqubits OpType.X
      vchain_four_args [] bridge_start /\
  emplaceQiskitOperation getIndexFromQubitRegister
    getIndexFromClassicalRegister nqubits
    (mkInstruction "mcx_vchain" [] None) vchain_four_args [] [] bridge_start
  <> addQiskitOperation getIndexFromQubitRegister nqubits OpType.X
       (take (4 - Z.to_nat (vchain_controls_stated 4 - 2)) vchain_four_args)
       [] bridge_start.
Proof.
  split; [reflexivity |]. split; [reflexivity |]. split; [reflexivity |].
  vm_compute. intros Heq. discriminate Heq.
Qed.

Lemma instruction_without_definition_skipped_witness :
  exists what,
    emplaceQiskitOperation getIndexFromQubitRegister
      getIndexFromClassicalRegister nqubits
      (mkInstruction "mystery" [] None) vchain_four_args [] [] bridge_start
    = (mkBridge (qc bridge_start)
         (cerr bridge_start ++
          [String.append "Failed to import instruction "
             (String.append "mystery" " from Qiskit"); what]),
       PyOk) /\
    forall def_qubits def_clbits inst_qargs inst_cargs rest oq oc qm cm,
      bind_args def_qubits oq ∅ = Some qm ->
      bind_args def_clbits oc ∅ = Some cm ->
      is_Some (map_args qm inst_qargs) ->
      is_Some (map_args cm inst_cargs) ->
      importQiskitDefinition getIndexFromQubitRegister
        getIndexFromClassicalRegister nqubits
        (Some (def_qubits, def_clbits,
               (mkInstruction "mystery" [] None, inst_qargs,
                inst_cargs) :: rest)) oq oc bridge_start
      = importQiskitDefinition getIndexFromQubitRegister
          getIndexFromClassicalRegister nqubits
          (Some (def_qubits, def_clbits, rest)) oq oc
          (report_failure "mystery" what bridge_start).
Proof.
  apply (instruction_without_definition_skipped getIndexFromQubitRegister
           getIndexFromClassicalRegister nqubits "mystery" []
           vchain_four_args [] [] bridge_start).
  reflexivity.
Defined.

(** A definition that raises after part of it was translated is reported
    in the same way, but nothing is undone: the operation of the first
    instruction of [broken_pair] stays in the circuit. *)
Lemma failing_definition_keeps_earlier_operations :
  emplaceQiskitOperation getIndexFromQubitRegister
    getIndexFromClassicalRegister nqubits broken_pair
    [mkBit "q" 0; mkBit "q" 1] [] [] bridge_start
  = (mkBridge
       (emplace_back
          (StandardOperation 5 [] [0] (OfOpType OpType.X) fp0 fp0 fp0)
          (qc bridge_start))
       ["Failed to import instruction pair from Qiskit"; "KeyError"],
     PyOk).
Proof. reflexivity. Qed.

(** ** REAL importer *)



(** *** The value of an integer literal *)




Section RealFacts.

Variable identifierMap : string -> option Gate.t.
Variable TOLERANCE : Q.



End RealFacts.


(** The line [rz:4 a] appends a T gate, and [rz:3 a] a rotation by pi/3. *)
Lemma real_rz_examples :
  read_real_gate sample_identifierMap sample_TOLERANCE "rz:4" ["a"]
    three_variables
  = Done (emplace_back
            (StandardOperation 3 [] [0] (OfGate Gate.T) fp0 fp0 fp0)
            three_variables) /\
  read_real_gate sample_identifierMap sample_TOLERANCE "rz:3" ["a"]
    three_variables
  = Done (emplace_back
            (StandardOperation 3 [] [0] (OfGate Gate.RZ) (PiOver 3) fp0 fp0)
            three_variables) /\
  read_real_gate sample_identifierMap sample_TOLERANCE "rz:0.3" ["a"]
    three_variables
  = Done (emplace_back
            (StandardOperation 3 [] [0] (OfGate Gate.RZ) (PiOver (3 # 10))
               fp0 fp0)
            three_variables).
Proof. repeat split. Qed.

(** ** The largest control count *)

Lemma max_list_nonneg (l : list Z) : 0 <= max_list l.
Proof. induction l as [|a l IH]; simpl; lia. Qed.

Lemma max_list_app (l1 l2 : list Z) :
  max_list (l1 ++ l2) = Z.max (max_list l1) (max_list l2).
Proof.
  induction l1 as [|a l1 IH]; simpl.
  - pose proof (max_list_nonneg l2). lia.
  - rewrite IH. lia.
Qed.

Lemma length_removelast_cons {A} (x : A) (l : list A) :
  length (removelast (x :: l)) = length l.
Proof. rewrite removelast_firstn_len, length_take. simpl. lia. Qed.

Lemma read_controls_length (k : nat) :
  forall iss c acc controls iss',
    read_controls k iss c acc = Done (controls, iss') ->
    length controls = (length acc + k)%nat.
Proof.
  induction k as [|k IH]; intros iss c acc controls iss' Hr; simpl in Hr.
  - injection Hr as <- _. lia.
  - destruct iss as [|label iss]; [discriminate Hr |].
    destruct (qregs c !! _) as [reg|]; [| discriminate Hr].
    apply IH in Hr. rewrite length_app in Hr. simpl in Hr. lia.
Qed.

Lemma read_labels_length (ncontrols : Z) (qubits : list string)
    (c : QuantumComputation) (controls : list Control.t) (target : Z) :
  read_labels ncontrols qubits c = Done (controls, target) ->
  length controls = Z.to_nat ncontrols.
Proof.
  unfold read_labels. intros Hr.
  destruct (read_controls _ _ _ _) as [[cs iss] | |] eqn:E;
    try discriminate Hr.
  cbn [mbind outcome_bind] in Hr.
  destruct iss as [|label iss]; [discriminate Hr |].
  destruct (qregs c !! label); [| discriminate Hr].
  injection Hr as <- _. apply read_controls_length in E. simpl in E. lia.
Qed.

Section MaxControlsFacts.

Variable identifierMap : string -> option Gate.t.
Variable TOLERANCE : Q.
Variable setNqubits : Z -> Operation -> Operation.

(** The [switch] appends one operation, whose controls, counted with the
    one that SWAP, P and P-dagger turn into a target, are the controls read
    from the line. *)
Lemma emit_real_gate_appends (gate : Gate.t) (controls : list Control.t)
    (target : Z) (lambda : Q) (c c' : QuantumComputation) :
  emit_real_gate TOLERANCE gate controls target lambda c = Done c' ->
  exists op,
    ops c' = ops c ++ [op] /\
    max_controls c' = max_controls c /\
    requested_controls op = Z.of_nat (length controls).
Proof.
  unfold emit_real_gate. intros He.
  destruct gate; try discriminate He;
    try (injection He as <-; eexists; repeat split; reflexivity).
  - destruct (Qltb _ _);
      repeat match type of He with
             | (if ?b then _ else _) = _ => destruct b
             end;
      injection He as <-; eexists; repeat split; reflexivity.
  - destruct (Qltb _ _);
      repeat match type of He with
             | (if ?b then _ else _) = _ => destruct b
             end;
      injection He as <-; eexists; repeat split; reflexivity.
  - destruct controls as [|k ks]; [discriminate He |].
    injection He as <-. eexists. repeat split.
    cbn [requested_controls].
    change (match ks with [] => [] | _ :: _ => k :: removelast ks end)
      with (removelast (k :: ks)).
    rewrite length_removelast_cons. simpl. lia.
  - destruct controls as [|k ks]; [discriminate He |].
    injection He as <-. eexists. repeat split.
    cbn [requested_controls].
    change (match ks with [] => [] | _ :: _ => k :: removelast ks end)
      with (removelast (k :: ks)).
    rewrite length_removelast_cons. simpl. lia.
  - destruct controls as [|k ks]; [discriminate He |].
    injection He as <-. eexists. repeat split.
    cbn [requested_controls].
    change (match ks with [] => [] | _ :: _ => k :: removelast ks end)
      with (removelast (k :: ks)).
    rewrite length_removelast_cons. simpl. lia.
Qed.

Lemma read_real_gate_max_controls (cmd : string) (qubits : list string)
    (c c' : QuantumComputation) :
  0 <= max_controls c ->
  read_real_gate identifierMap TOLERANCE cmd qubits c = Done c' ->
  exists op,
    ops c' = ops c ++ [op] /\
    max_controls c' = Z.max (max_controls c) (requested_controls op).
Proof.
  intros Hpos. unfold read_real_gate. intros Hr.
  destruct (gateRegex_match cmd) as [[[m1 m2] m3]|]; [| discriminate Hr].
  destruct (real_gate identifierMap m1) as [gate | |]; try discriminate Hr.
  cbn [mbind outcome_bind] in Hr.
  destruct (real_ncontrols gate m1 m2) as [ncontrols | |];
    try discriminate Hr.
  cbn [mbind outcome_bind] in Hr.
  destruct (ncontrols >=? nqubits c); [discriminate Hr |].
  destruct (read_labels ncontrols qubits c) as [[controls target] | |] eqn:El;
    try discriminate Hr.
  cbn [mbind outcome_bind] in Hr.
  apply read_labels_length in El.
  apply emit_real_gate_appends in Hr.
  destruct Hr as (op & Hops & Hmax & Hreq).
  exists op. split; [exact Hops |].
  rewrite Hmax, Hreq, El. simpl. lia.
Qed.

Lemma readRealGateDescriptions_max_controls (ins : istream) :
  forall c c',
    0 <= max_controls c ->
    readRealGateDescriptions identifierMap TOLERANCE ins c = Done c' ->
    exists new,
      ops c' = ops c ++ new /\
      max_controls c'
      = Z.max (max_controls c) (max_list (map requested_controls new)).
Proof.
  induction ins as [|line ins IH]; intros c c' Hpos Hr; simpl in Hr.
  - discriminate Hr.
  - destruct line as [|cmd qubits]; [apply IH; assumption |].
    destruct (front _) as [a|]; [| discriminate Hr].
    destruct (Ascii.eqb a "#"); [apply IH; assumption |].
    destruct (String.eqb _ ".end").
    + injection Hr as <-. exists []. rewrite app_nil_r. simpl.
      split; [reflexivity | lia].
    + destruct (read_real_gate _ _ _ _ _) as [c1 | |] eqn:Eg;
        try discriminate Hr.
      destruct (read_real_gate_max_controls _ _ _ _ Hpos Eg)
        as (op & Hops1 & Hmax1).
      destruct (IH c1 c') as (new & Hops & Hmax); [lia | exact Hr |].
      exists (op :: new). split.
      * rewrite Hops, Hops1, <- app_assoc. reflexivity.
      * rewrite Hmax, Hmax1. simpl. lia.
Qed.

Lemma read_variables_frame (k : nat) :
  forall i ins c ins' c',
    read_variables k i ins c = Done (ins', c') ->
    ops c' = ops c /\ max_controls c' = max_controls c.
Proof.
  induction k as [|k IH]; intros i ins c ins' c' Hr; simpl in Hr.
  - injection Hr as _ <-. split; reflexivity.
  - destruct (read_token ins) as [[variable ins1]|]; [| discriminate Hr].
    apply IH in Hr. exact Hr.
Qed.

Lemma readRealHeader_loop_frame (rounds : nat) :
  forall ins c ins' c',
    readRealHeader_loop rounds ins c = Done (ins', c') ->
    ops c' = ops c /\ max_controls c' = max_controls c.
Proof.
  induction rounds as [|rounds IH]; intros ins c ins' c' Hr; simpl in Hr.
  - discriminate Hr.
  - destruct (read_token ins) as [[cmd ins1]|]; [| discriminate Hr].
    destruct (front _) as [a|]; [| discriminate Hr].
    destruct (Ascii.eqb a "#"); [apply IH in Hr; exact Hr |].
    destruct (negb (Ascii.eqb a ".")); [discriminate Hr |].
    destruct (String.eqb _ ".BEGIN").
    { injection Hr as _ <-. split; reflexivity. }
    destruct (String.eqb _ ".NUMVARS").
    { destruct (read_token ins1) as [[n ins2]|]; [| discriminate Hr].
      destruct (numeral n) as [v|]; [| discriminate Hr].
      destruct (v <? 65536); [| discriminate Hr].
      apply IH in Hr. exact Hr. }
    destruct (String.eqb _ ".VARIABLES").
    { destruct (read_variables _ _ _ _) as [[ins2 c2] | |] eqn:Ev;
        try discriminate Hr.
      apply read_variables_frame in Ev. apply IH in Hr.
      destruct Ev as [E1 E2]. destruct Hr as [H1 H2]. split; congruence. }
    destruct (String.eqb _ ".CONSTANTS"); [apply IH in Hr; exact Hr |].
    destruct (_ || _); [apply IH in Hr; exact Hr |].
    destruct (String.eqb _ ".DEFINE"); [| discriminate Hr].
    destruct (skip_define _ _ _) as [ins2 | |]; try discriminate Hr.
    apply IH in Hr. exact Hr.
Qed.

Lemma qasm_statement_max_controls (st : QasmStatement)
    (c c' : QuantumComputation) :
  qasm_statement setNqubits st c = Done c' ->
  max_controls c' = max_controls c.
Proof.
  destruct st; simpl; intros Hr; try (injection Hr as <-; reflexivity);
    try discriminate Hr.
  destruct (cregs c !! creg); injection Hr as <-; reflexivity.
Qed.

Lemma qasm_statements_max_controls (rest : list QasmStatement) :
  forall st c c',
    qasm_statements setNqubits st rest c = Done c' ->
    max_controls c' = max_controls c.
Proof.
  induction rest as [|st' rest IH]; intros st c c' Hr; simpl in Hr.
  - destruct (qasm_statement _ st c) as [c1 | |] eqn:E; try discriminate Hr.
    injection Hr as <-. exact (qasm_statement_max_controls _ _ _ E).
  - destruct (qasm_statement _ st c) as [c1 | |] eqn:E; try discriminate Hr.
    apply IH in Hr. rewrite Hr. exact (qasm_statement_max_controls _ _ _ E).
Qed.

(** C2, as amended. [maxControlCount] is the largest control count that
    the importers hand to [updateMaxControls]. After a REAL import, into a
    circuit whose count is not negative, it is the largest of the former
    count and, over the operations the import appended, of the number of
    controls read from their gate line: the operation's number of controls,
    and one more for SWAP, P and P-dagger, whose last control became the
    second target. An OpenQASM import raises the count to at least 2
    before it reads anything, and no statement changes it afterwards. *)
Theorem maxControlCount_after_import (filename : string) (f : File)
    (c c' : QuantumComputation) :
  (0 <= max_controls c ->
   import_as identifierMap TOLERANCE setNqubits filename (Some f) Real c
   = Done c' ->
   exists new,
     ops c' = ops c ++ new /\
     max_controls c'
     = Z.max (max_controls c) (max_list (map requested_controls new))) /\
  (import_as identifierMap TOLERANCE setNqubits filename (Some f) OpenQASM c
   = Done c' ->
   max_controls c' = Z.max 2 (max_controls c)).
Proof.
  split.
  - intros Hpos. unfold import_as, importReal, readRealHeader.
    intros Hr.
    destruct (readRealHeader_loop _ _ _) as [[ins1 c1] | |] eqn:Eh;
      try discriminate Hr.
    cbn [mbind outcome_bind] in Hr.
    apply readRealHeader_loop_frame in Eh. destruct Eh as [Hops1 Hmax1].
    simpl in Hops1, Hmax1.
    apply readRealGateDescriptions_max_controls in Hr; [| lia].
    rewrite Hops1, Hmax1 in Hr. exact Hr.
  - unfold import_as, importOpenQASM. intros Hr.
    destruct (file_program f) as [|st rest]; [discriminate Hr |].
    destruct (qasm_statements _ st rest _) as [c1 | |] eqn:E;
      try discriminate Hr.
    cbn [mbind outcome_bind] in Hr. injection Hr as <-.
    apply qasm_statements_max_controls in E. simpl in *. exact E.
Qed.

End MaxControlsFacts.

Lemma maxControlCount_after_import_witness :
  exists c1 c2,
    (exists new,
       ops c1 = ops emptyQC ++ new /\
       max_controls c1
       = Z.max (max_controls emptyQC)
           (max_list (map requested_controls new))) /\
    max_controls c2 = Z.max 2 (max_controls emptyQC).
Proof.
  eexists. eexists. split.
  - apply (maxControlCount_after_import sample_identifierMap
             sample_TOLERANCE op_setNqubits "toffoli.real"
             real_toffoli_fredkin_file emptyQC).
    + simpl. lia.
    + vm_compute. reflexivity.
  - apply (maxControlCount_after_import sample_identifierMap
             sample_TOLERANCE op_setNqubits "one.qasm"
             qasm_single_hadamard emptyQC).
    vm_compute. reflexivity.
Defined.

(** C2, as stated, fails: an OpenQASM file with one qubit and one Hadamard
    gate yields a circuit whose only operation has no control, and whose
    largest control count is 2. *)
Lemma qasm_import_counts_two_controls :
  exists c',
    import_file sample_identifierMap sample_TOLERANCE op_setNqubits
      "one.qasm" (Some qasm_single_hadamard) emptyQC = Done c' /\
    map op_ncontrols (ops c') = [0] /\
    max_controls c' = 2.
Proof. eexists. split; [vm_compute; reflexivity |]. split; reflexivity. Qed.

(** The REAL text with a Toffoli, a Fredkin and an RZ line: the Fredkin
    gate is built with no control, and was counted with one. *)
Lemma real_import_counts_requested_controls :
  exists c',
    import_file sample_identifierMap sample_TOLERANCE op_setNqubits
      "toffoli.real" (Some real_toffoli_fredkin_file) emptyQC = Done c' /\
    map op_ncontrols (ops c') = [2; 0; 0] /\
    map requested_controls (ops c') = [2; 1; 0] /\
    max_controls c' = 2 /\
    inputPermutation c' = {[0 := 0; 1 := 1; 2 := 2]} /\
    outputPermutation c' = {[0 := 0; 1 := 1; 2 := 2]}.
Proof. eexists. split; [vm_compute; reflexivity |]. repeat split. Qed.

(** ** Permutations after an import *)

Lemma seed_identity_lookup (k : nat) (start : Z) (m : gmap Z Z) (i : Z) :
  0 <= start -> start + Z.of_nat k <= 65536 ->
  seed_identity k start m !! i =
  if decide (start <= i < start + Z.of_nat k)
  then Some (default i (m !! i))
  else m !! i.
Proof.
  intros Hs. induction k as [|k IH]; intros Hk.
  - simpl. destruct (decide _); [lia | reflexivity].
  - cbn [seed_identity]. rewrite map_insert_new_lookup.
    rewrite wrap16_small by lia.
    destruct (decide (start + Z.of_nat k = i)) as [<- | Hne].
    + rewrite IH by lia.
      destruct (decide (start <= start + Z.of_nat k < start + Z.of_nat k));
        [lia |].
      destruct (decide (start <= start + Z.of_nat k
                        < start + Z.of_nat (S k))); [| lia].
      reflexivity.
    + rewrite IH by lia.
      destruct (decide (start <= i < start + Z.of_nat k));
        destruct (decide (start <= i < start + Z.of_nat (S k)));
        try lia; reflexivity.
Qed.

(** Seeding the identity entries of an empty pair of permutations gives
    the identity on the indices below the qubit count. *)
Lemma seed_permutations_identity (c : QuantumComputation) :
  inputPermutation c = ∅ -> outputPermutation c = ∅ ->
  0 <= nqubits c <= 65536 ->
  identity_over (nqubits c) (inputPermutation (seed_permutations c)) /\
  identity_over (nqubits c) (outputPermutation (seed_permutations c)).
Proof.
  intros Hi Ho Hn. unfold seed_permutations. simpl. rewrite Hi, Ho.
  split; intros i; rewrite seed_identity_lookup by lia;
    rewrite Z2Nat.id, Z.add_0_l by lia; rewrite lookup_empty; reflexivity.
Qed.

Lemma fold_digits_nonneg (l : list ascii) :
  forall acc, 0 <= acc -> forallb is_digit l = true ->
    0 <= fold_left (fun acc a => 10 * acc + digit_value a) l acc.
Proof.
  induction l as [|a l IH]; intros acc Hacc Hd; simpl in *; [exact Hacc |].
  apply andb_true_iff in Hd. destruct Hd as [Ha Hl].
  apply IH; [| exact Hl].
  unfold is_digit in Ha. apply andb_true_iff in Ha.
  unfold digit_value. lia.
Qed.

Lemma numeral_nonneg (t : string) (v : Z) : numeral t = Some v -> 0 <= v.
Proof.
  unfold numeral. destruct (String.list_ascii_of_string t) as [|a l] eqn:E;
    [discriminate |].
  destruct (forallb is_digit (a :: l)) eqn:Hd; [| discriminate].
  intros Hv. injection Hv as <-. apply fold_digits_nonneg; [lia | exact Hd].
Qed.

Lemma grcs_lines_frame (ls : list (list string)) :
  forall v c c',
    grcs_lines ls v c = Done c' ->
    nqubits c' = nqubits c /\
    inputPermutation c' = inputPermutation c /\
    outputPermutation c' = outputPermutation c.
Proof.
  induction ls as [|line ls IH]; intros v c c' Hr; cbn [grcs_lines] in Hr.
  - injection Hr as <-. repeat split.
  - destruct line as [|t ts]; [apply IH in Hr; exact Hr |].
    destruct (read_unsigned 4294967295 _ _ _) as [[cycle ss] failed].
    destruct (read_string _ _ _) as [[identifier ss1] failed1].
    destruct (String.eqb identifier "cz").
    + destruct (read_unsigned 65535 _ ss1 _) as [[control ss2] failed2].
      destruct (read_unsigned 65535 _ ss2 _) as [[target ss3] failed3].
      apply IH in Hr. exact Hr.
    + destruct (read_unsigned 65535 _ ss1 _) as [[target ss2] failed2].
      repeat match type of Hr with
             | (if ?b then _ else _) = _ => destruct b
             end;
        try discriminate Hr; apply IH in Hr; exact Hr.
Qed.

(** The grid-benchmark reader, started on a circuit without permutation
    entries, leaves both permutations as the identity on exactly the
    indices below the qubit count. *)
Lemma importGRCS_permutations (ins : istream) (c c' : QuantumComputation) :
  inputPermutation c = ∅ -> outputPermutation c = ∅ ->
  0 <= nqubits c <= 65536 ->
  importGRCS ins c = Done c' ->
  identity_over (nqubits c') (inputPermutation c') /\
  identity_over (nqubits c') (outputPermutation c').
Proof.
  intros Hi Ho Hn. unfold importGRCS.
  set (r := match read_word ins with None => _ | Some _ => _ end).
  assert (Hr : 0 <= r.1.1 <= 65536).
  { unfold r. destruct (read_word ins) as [[t ins1]|]; [| exact Hn].
    destruct (numeral t) as [v|] eqn:Ev; [| simpl; lia].
    apply numeral_nonneg in Ev.
    destruct (v <=? 65535) eqn:E; simpl; [apply Z.leb_le in E |]; lia. }
  destruct r as [[n ins1] failed]. simpl in Hr.
  intros Himp.
  destruct (if failed then _ else _) as [c1 | |] eqn:E1; try discriminate Himp.
  cbn [mbind outcome_bind] in Himp. injection Himp as <-.
  assert (Hf : nqubits c1 = n /\ inputPermutation c1 = ∅ /\
               outputPermutation c1 = ∅).
  { destruct failed.
    - injection E1 as <-. simpl. repeat split; assumption.
    - apply grcs_lines_frame in E1. simpl in E1.
      destruct E1 as (-> & -> & ->). repeat split; assumption. }
  destruct Hf as (Hn1 & Hi1 & Ho1).
  change (nqubits (seed_permutations c1)) with (nqubits c1).
  apply seed_permutations_identity; [assumption | assumption | lia].
Qed.

Section OpenQASMFacts.

Variable setNqubits : Z -> Operation -> Operation.

Lemma qasm_statement_permutations (st : QasmStatement)
    (c c' : QuantumComputation) :
  qasm_statement setNqubits st c = Done c' ->
  inputPermutation c' = inputPermutation c /\
  outputPermutation c' = outputPermutation c.
Proof.
  destruct st; simpl; intros Hr;
    try (injection Hr as <-; split; reflexivity); try discriminate Hr.
  destruct (cregs c !! creg); injection Hr as <-; split; reflexivity.
Qed.

Lemma qasm_statements_permutations (rest : list QasmStatement) :
  forall st c c',
    qasm_statements setNqubits st rest c = Done c' ->
    inputPermutation c' = inputPermutation c /\
    outputPermutation c' = outputPermutation c.
Proof.
  induction rest as [|st' rest IH]; intros st c c' Hr; simpl in Hr;
    destruct (qasm_statement _ st c) as [c1 | |] eqn:E; try discriminate Hr;
    apply qasm_statement_permutations in E; destruct E as [E1 E2].
  - injection Hr as <-. split; assumption.
  - apply IH in Hr. destruct Hr as [H1 H2]. split; congruence.
Qed.

(** The OpenQASM reader, started on a circuit without permutation entries,
    leaves both permutations as the identity on exactly the indices below
    the final qubit count. *)
Lemma importOpenQASM_permutations (program : list QasmStatement)
    (c c' : QuantumComputation) :
  inputPermutation c = ∅ -> outputPermutation c = ∅ ->
  importOpenQASM setNqubits program c = Done c' ->
  0 <= nqubits c' <= 65536 ->
  identity_over (nqubits c') (inputPermutation c') /\
  identity_over (nqubits c') (outputPermutation c').
Proof.
  intros Hi Ho. unfold importOpenQASM.
  destruct program as [|st rest]; [discriminate |].
  destruct (qasm_statements _ st rest c) as [c1 | |] eqn:E;
    try discriminate.
  cbn [mbind outcome_bind]. intros Hr. injection Hr as <-.
  change (nqubits (seed_permutations c1)) with (nqubits c1). intros Hn.
  apply qasm_statements_permutations in E. destruct E as [E1 E2].
  apply seed_permutations_identity; [congruence | congruence | exact Hn].
Qed.

End OpenQASMFacts.

(** The [.variables] loop, run on a circuit without permutation entries
    over as many names as there are qubits, leaves the identity on exactly
    the indices below the qubit count. *)
Lemma read_variables_lookup (k : nat) :
  forall i ins c ins' c' j,
    read_variables k i ins c = Done (ins', c') ->
    nqubits c' = nqubits c /\
    inputPermutation c' !! j =
      (if decide (i <= j < i + Z.of_nat k)
       then Some (default j (inputPermutation c !! j))
       else inputPermutation c !! j) /\
    outputPermutation c' !! j =
      (if decide (i <= j < i + Z.of_nat k)
       then Some (default j (outputPermutation c !! j))
       else outputPermutation c !! j).
Proof.
  induction k as [|k IH]; intros i ins c ins' c' j Hr; simpl in Hr.
  - injection Hr as _ <-. split; [reflexivity |].
    destruct (decide _); [lia | split; reflexivity].
  - destruct (read_token ins) as [[variable ins1]|]; [| discriminate Hr].
    apply (IH _ _ _ _ _ j) in Hr. destruct Hr as (Hn & Hi & Ho).
    simpl in Hn, Hi, Ho. split; [exact Hn |].
    rewrite Hi, Ho, !map_insert_new_lookup.
    destruct (decide (i = j)) as [-> | Hne].
    + destruct (decide (j + 1 <= j < j + 1 + Z.of_nat k)); [lia |].
      destruct (decide (j <= j < j + Z.of_nat (S k))); [| lia].
      split; reflexivity.
    + destruct (decide (i + 1 <= j < i + 1 + Z.of_nat k));
        destruct (decide (i <= j < i + Z.of_nat (S k))); try lia;
        split; reflexivity.
Qed.

Lemma read_variables_permutations (ins ins' : istream)
    (c c' : QuantumComputation) :
  inputPermutation c = ∅ -> outputPermutation c = ∅ -> 0 <= nqubits c ->
  read_variables (Z.to_nat (nqubits c)) 0 ins c = Done (ins', c') ->
  identity_over (nqubits c') (inputPermutation c') /\
  identity_over (nqubits c') (outputPermutation c').
Proof.
  intros Hi Ho Hn Hr. split; intros j;
    destruct (read_variables_lookup _ _ _ _ _ _ j Hr) as (-> & Hl1 & Hl2);
    [rewrite Hl1, Hi | rewrite Hl2, Ho];
    rewrite lookup_empty, Z2Nat.id by lia; reflexivity.
Qed.

(** C1 at the input where the code departs from it: the REAL text
    [.numvars 2 / .begin / .end] is imported without error into a fresh
    circuit; the circuit then has two qubits and both permutations are
    empty, so neither is defined on the indices 0 and 1. The sibling
    readers seed the identity from the final qubit count
    ([importGRCS_permutations], [importOpenQASM_permutations]); the REAL
    reader does it only while it reads a [.variables] line
    ([read_variables_permutations]). [print] reads both permutations at
    every index below the qubit count, and so ends in [std::out_of_range]
    on this circuit. *)
Theorem real_import_without_variables_has_no_permutation
    (identifierMap : string -> option Gate.t) (TOLERANCE : Q)
    (setNqubits : Z -> Operation -> Operation) :
  exists c',
    import_file identifierMap TOLERANCE setNqubits "two.real"
      (Some real_without_variables_file) emptyQC = Done c' /\
    nqubits c' = 2 /\
    inputPermutation c' = ∅ /\
    outputPermutation c' = ∅ /\
    ~ identity_over (nqubits c') (inputPermutation c') /\
    print_permutations c' = Abort "map::at".
Proof.
  eexists. split; [reflexivity |]. simpl. repeat split.
  intros Hid. specialize (Hid 0). rewrite lookup_empty in Hid.
  destruct (decide (0 <= 0 < 2)); [discriminate Hid | lia].
Qed.

(** ** The bound on the rounds of the header loop

    [readRealHeader] runs its loop for at most one round more than there
    are tokens. The bound never cuts a run short: any larger bound gives the
    same outcome. *)

Lemma read_token_count (ins : istream) (t : string) (ins' : istream) :
  read_token ins = Some (t, ins') ->
  token_count ins = S (token_count ins') /\ (length ins' <= length ins)%nat.
Proof.
  revert t ins'. induction ins as [|line ins IH]; intros t ins' Hr.
  - discriminate Hr.
  - destruct line as [|t0 ts]; simpl in Hr.
    + apply IH in Hr. unfold token_count in *. simpl in *. lia.
    + injection Hr as <- <-. unfold token_count. simpl. lia.
Qed.

Lemma ignore_line_count (ins : istream) :
  (token_count (ignore_line ins) <= token_count ins)%nat /\
  length (ignore_line ins) = Nat.pred (length ins).
Proof.
  destruct ins as [|line ins]; [split; reflexivity |].
  unfold token_count. simpl. rewrite length_app. split; [lia | reflexivity].
Qed.

Lemma skip_define_rounds (n : nat) :
  forall m cmd ins,
    (length ins <= n)%nat -> (length ins <= m)%nat ->
    skip_define n cmd ins = skip_define m cmd ins.
Proof.
  induction n as [|n IH]; intros m cmd ins Hn Hm.
  - destruct ins; [| simpl in Hn; lia].
    destruct m; simpl; destruct (String.eqb cmd ".ENDDEFINE"); reflexivity.
  - destruct m as [|m].
    + destruct ins; [| simpl in Hm; lia].
      simpl. destruct (String.eqb cmd ".ENDDEFINE"); reflexivity.
    + simpl. destruct (String.eqb cmd ".ENDDEFINE"); [reflexivity |].
      destruct (read_token (ignore_line ins)) as [[cmd' ins']|] eqn:E;
        [| reflexivity].
      apply read_token_count in E. destruct E as [_ Hl].
      pose proof (ignore_line_count ins) as [_ Hi].
      apply IH; lia.
Qed.

Lemma skip_define_count (n : nat) :
  forall cmd ins ins',
    skip_define n cmd ins = Done ins' ->
    (token_count ins' <= token_count ins)%nat.
Proof.
  induction n as [|n IH]; intros cmd ins ins' Hr; simpl in Hr;
    destruct (String.eqb cmd ".ENDDEFINE"); try discriminate Hr;
    try (injection Hr as <-; lia).
  destruct (read_token (ignore_line ins)) as [[cmd' ins1]|] eqn:E;
    [| discriminate Hr].
  apply IH in Hr. apply read_token_count in E. destruct E as [Hc _].
  pose proof (ignore_line_count ins) as [Hi _]. lia.
Qed.

Lemma read_variables_count (k : nat) :
  forall i ins c ins' c',
    read_variables k i ins c = Done (ins', c') ->
    (token_count ins' <= token_count ins)%nat.
Proof.
  induction k as [|k IH]; intros i ins c ins' c' Hr; simpl in Hr.
  - injection Hr as <- _. lia.
  - destruct (read_token ins) as [[variable ins1]|] eqn:E;
      [| discriminate Hr].
    apply IH in Hr. apply read_token_count in E. lia.
Qed.

Lemma readRealHeader_loop_rounds (n : nat) :
  forall m ins c,
    (token_count ins < n)%nat -> (token_count ins < m)%nat ->
    readRealHeader_loop n ins c = readRealHeader_loop m ins c.
Proof.
  induction n as [|n IH]; intros m ins c Hn Hm; [lia |].
  destruct m as [|m]; [lia |]. simpl.
  destruct (read_token ins) as [[cmd ins1]|] eqn:E; [| reflexivity].
  apply read_token_count in E. destruct E as [Hc _].
  destruct (front _) as [a|]; [| reflexivity].
  pose proof (ignore_line_count ins1) as [Hi _].
  destruct (Ascii.eqb a "#"); [apply IH; lia |].
  destruct (negb (Ascii.eqb a ".")); [reflexivity |].
  destruct (String.eqb _ ".BEGIN"); [reflexivity |].
  destruct (String.eqb _ ".NUMVARS").
  { destruct (read_token ins1) as [[t ins2]|] eqn:E2; [| reflexivity].
    apply read_token_count in E2.
    destruct (numeral t); [| reflexivity].
    destruct (_ <? 65536); [| reflexivity].
    apply IH; lia. }
  destruct (String.eqb _ ".VARIABLES").
  { destruct (read_variables _ _ _ _) as [[ins2 c2] | |] eqn:Ev;
      try reflexivity.
    apply read_variables_count in Ev. apply IH; lia. }
  destruct (String.eqb _ ".CONSTANTS"); [apply IH; lia |].
  destruct (_ || _); [apply IH; lia |].
  destruct (String.eqb _ ".DEFINE"); [| reflexivity].
  destruct (skip_define _ _ _) as [ins2 | |] eqn:Es; try reflexivity.
  apply skip_define_count in Es. apply IH; lia.
Qed.

(** Any bound above the number of tokens gives the outcome of
    [readRealHeader]. *)
Lemma readRealHeader_rounds (n : nat) (ins : istream)
    (c : QuantumComputation) :
  (token_count ins < n)%nat ->
  readRealHeader_loop n ins c = readRealHeader ins c.
Proof.
  intros Hn. unfold readRealHeader. apply readRealHeader_loop_rounds; lia.
Qed.

(** ** Further properties of the register manager and the importers *)

Section GrowthFacts.

Variable MAXN : Z.
Variable setNqubits : Z -> Operation -> Operation.

(** A call of [addQubitRegister] that returns has widened the circuit by
    [nq], told every operation the new width, and added to each permutation
    the identity entries of the new indices that it lacked. *)
Lemma addQubitRegister_done (c c' : QuantumComputation) (nq : Z)
    (reg_name : string) :
  addQubitRegister MAXN setNqubits nq reg_name c = Done c' ->
  nqubits c' = nqubits c + nq /\
  ops c' = map (setNqubits (nqubits c + nq)) (ops c) /\
  inputPermutation c'
  = seed_identity (Z.to_nat nq) (nqubits c) (inputPermutation c) /\
  outputPermutation c'
  = seed_identity (Z.to_nat nq) (nqubits c) (outputPermutation c) /\
  nclassics c' = nclassics c /\ cregs c' = cregs c.
Proof.
  unfold addQubitRegister. destruct (nqubits c + nq >? MAXN); [discriminate |].
  destruct (qregs c !! reg_name) as [reg|].
  - destruct (reg.1 + reg.2 =? nqubits c); [| discriminate].
    intros Hr. injection Hr as <-. repeat split.
  - intros Hr. injection Hr as <-. repeat split.
Qed.

(** Growing the circuit keeps both permutations the identity on exactly the
    live indices. *)
Lemma addQubitRegister_permutations (c c' : QuantumComputation) (nq : Z)
    (reg_name : string) :
  0 <= nqubits c -> 0 <= nq -> nqubits c + nq <= 65536 ->
  identity_over (nqubits c) (inputPermutation c) ->
  identity_over (nqubits c) (outputPermutation c) ->
  addQubitRegister MAXN setNqubits nq reg_name c = Done c' ->
  identity_over (nqubits c') (inputPermutation c') /\
  identity_over (nqubits c') (outputPermutation c').
Proof.
  intros Hn Hq Hw Hi Ho Hr.
  destruct (addQubitRegister_done _ _ _ _ Hr) as (-> & _ & -> & -> & _).
  split; intros i; rewrite seed_identity_lookup by lia;
    rewrite Z2Nat.id by lia; [rewrite (Hi i) | rewrite (Ho i)];
    destruct (decide (nqubits c <= i < nqubits c + nq));
    destruct (decide (0 <= i < nqubits c));
    destruct (decide (0 <= i < nqubits c + nq)); try lia; reflexivity.
Qed.

End GrowthFacts.

(** After a register was added, the operations are those that were in the
    circuit before, each told the new total width. *)
Lemma addQubitRegister_tells_new_width (MAXN : Z)
    (setNqubits : Z -> Operation -> Operation) (c c' : QuantumComputation)
    (nq : Z) (reg_name : string) :
  addQubitRegister MAXN setNqubits nq reg_name c = Done c' ->
  nqubits c' = nqubits c + nq /\
  ops c' = map (setNqubits (nqubits c')) (ops c).
Proof.
  intros Hr.
  destruct (addQubitRegister_done _ _ _ _ _ _ Hr) as (-> & -> & _).
  split; reflexivity.
Qed.

Lemma addQubitRegister_tells_new_width_witness :
  nqubits five_qubits_one_register = nqubits three_qubits_one_register + 2 /\
  ops five_qubits_one_register
  = map (op_setNqubits (nqubits five_qubits_one_register))
      (ops three_qubits_one_register).
Proof.
  apply (addQubitRegister_tells_new_width 128 op_setNqubits
           three_qubits_one_register five_qubits_one_register 2 "q").
  reflexivity.
Defined.

Lemma addQubitRegister_permutations_witness :
  identity_over (nqubits five_qubits_one_register)
    (inputPermutation five_qubits_one_register) /\
  identity_over (nqubits five_qubits_one_register)
    (outputPermutation five_qubits_one_register).
Proof.
  assert (Hid : identity_over 3 {[0 := 0; 1 := 1; 2 := 2]}).
  { intros i. destruct (decide (0 <= i < 3)) as [Hi | Hi].
    - assert (Hc : i = 0 \/ i = 1 \/ i = 2) by lia.
      destruct Hc as [-> | [-> | ->]]; reflexivity.
    - rewrite !lookup_insert_ne by lia. apply lookup_singleton_ne. lia. }
  apply (addQubitRegister_permutations 128 op_setNqubits
           three_qubits_one_register five_qubits_one_register 2 "q").
  - simpl. lia.
  - lia.
  - simpl. lia.
  - exact Hid.
  - exact Hid.
  - reflexivity.
Defined.

Lemma addClassicalRegister_existing_witness :
  exists msg, addClassicalRegister 1 "c_a" three_variables = Exit 1 msg.
Proof.
  apply (addClassicalRegister_existing three_variables 1 "c_a" (0, 1)).
  reflexivity.
Defined.

Lemma buildFunctionality_no_qubits_witness :
  buildFunctionality sample_package op_isUnitary 128 (-1) emptyQC false []
  = ([], outputPermutation emptyQC, Done (DDone sample_package)).
Proof.
  apply (buildFunctionality_no_qubits sample_package op_isUnitary 128 (-1)
           emptyQC false []).
  reflexivity.
Defined.

Lemma importGRCS_permutations_witness :
  identity_over (nqubits two_qubits_no_register)
    (inputPermutation two_qubits_no_register) /\
  identity_over (nqubits two_qubits_no_register)
    (outputPermutation two_qubits_no_register).
Proof.
  apply (importGRCS_permutations grcs_two_qubits emptyQC
           two_qubits_no_register).
  - reflexivity.
  - reflexivity.
  - simpl. lia.
  - reflexivity.
Defined.

Lemma importOpenQASM_permutations_witness :
  identity_over (nqubits one_qubit_hadamard)
    (inputPermutation one_qubit_hadamard) /\
  identity_over (nqubits one_qubit_hadamard)
    (outputPermutation one_qubit_hadamard).
Proof.
  apply (importOpenQASM_permutations op_setNqubits
           (file_program qasm_single_hadamard) emptyQC one_qubit_hadamard).
  - reflexivity.
  - reflexivity.
  - reflexivity.
  - simpl. lia.
Defined.

Lemma readRealHeader_rounds_witness :
  readRealHeader_loop 100 real_toffoli_fredkin emptyQC
  = readRealHeader real_toffoli_fredkin emptyQC.
Proof.
  apply (readRealHeader_rounds 100 real_toffoli_fredkin emptyQC).
  vm_compute. lia.
Defined.

(** The grid-benchmark text [3 / 0 h 0 / 1 cz 0 1 / 2 x_1_2 2] gives three
    qubits and three operations: a Hadamard gate on qubit 0, a Z gate on
    qubit 1 controlled by qubit 0, and an X rotation by pi/2 on qubit 2. *)
Lemma importGRCS_three_gates :
  importGRCS grcs_three_gates emptyQC
  = Done (mkQC 3 0 "" ∅ ∅ {[0 := 0; 1 := 1; 2 := 2]}
            {[0 := 0; 1 := 1; 2 := 2]}
            [StandardOperation 3 [] [0] (OfGate Gate.H) fp0 fp0 fp0;
             StandardOperation 3 [Control.mk 0 Control.pos] [1]
               (OfGate Gate.Z) fp0 fp0 fp0;
             StandardOperation 3 [] [2] (OfGate Gate.RX) PI_2 fp0 fp0]
            0).
Proof. reflexivity. Qed.

(** The REAL line [h1 a] appends one Hadamard gate without control. *)
Lemma real_h1_line :
  read_real_gate sample_identifierMap sample_TOLERANCE "h1" ["a"]
    three_variables
  = Done (emplace_back
            (StandardOperation 3 [] [0] (OfGate Gate.H) fp0 fp0 fp0)
            three_variables).
Proof. reflexivity. Qed.

(** An OpenQASM text that ends after its header is refused: the statement
    loop runs once before it tests for the end of the input. *)
Lemma importOpenQASM_no_statement (setNqubits : Z -> Operation -> Operation)
    (c : QuantumComputation) :
  importOpenQASM setNqubits [] c
  = Exit 1 "ERROR: unexpected statement: started with EOF".
Proof. reflexivity. Qed.

(** ** Order and exits of a fold *)

Section FoldFacts.

Context {Edge : Type} `{Countable Edge}.

Variable dd : Package Edge.
Variable isUnitary : Operation -> bool.
Variable MAX_QUBITS : nat.
Variable LINE_DEFAULT : Z.

Lemma fold_ops_order (executeSwaps : bool) (l : list Operation) :
  forallb isUnitary l = true ->
  forall line perm e h,
  exists es evs perm',
    fold_ops dd isUnitary executeSwaps l line perm e h
    = (h ++ evs, perm', Done (List.last es e)) /\
    length es = length l /\
    fragments evs = l /\
    right_factors evs = take (length l) (e :: es) /\
    normalization_modes evs = [] /\
    products dd h evs = es.
Proof.
  induction l as [|op l IH]; intros Hu line perm e h.
  - exists [], [], perm. simpl. rewrite app_nil_r. repeat split.
  - simpl in Hu. apply andb_true_iff in Hu. destruct Hu as [Hop Hl].
    simpl. rewrite Hop. simpl.
    destruct (getDD dd h op line perm executeSwaps) as [[f line'] perm1].
    set (h1 := h ++ [EvGetDD op perm executeSwaps]).
    set (tmp := multiply dd h1 f e).
    destruct (IH Hl line' perm1 tmp
                ((((h1 ++ [EvMultiply f e]) ++ [EvIncRef tmp]) ++ [EvDecRef e])
                 ++ [EvGarbageCollect]))
      as (es & evs & perm' & Hfold & Hlen & Hfr & Hrf & Hnm & Hpr).
    exists (tmp :: es),
      ([EvGetDD op perm executeSwaps; EvMultiply f e; EvIncRef tmp;
        EvDecRef e; EvGarbageCollect] ++ evs), perm'.
    rewrite Hfold. split.
    + f_equal; [f_equal |].
      * unfold h1. rewrite <- !app_assoc. reflexivity.
      * f_equal. symmetry. apply last_cons_default.
    + unfold fragments, right_factors, normalization_modes in *.
      rewrite !omap_app. simpl. rewrite Hlen, Hfr, Hrf, Hnm.
      split; [reflexivity |]. split; [reflexivity |].
      split; [reflexivity |]. split; [reflexivity |].
      fold h1. fold tmp. f_equal. exact Hpr.
Qed.

(** In a fold that runs to its end, the fragments are asked for in the
    order of the operation sequence, one for each operation. The edges
    [es] are what the package returned for the successive products, and
    every product has the accumulator of the moment as its right factor:
    the input edge for the first operation, then the product returned
    before. The edge returned is the last product (the input edge when
    there is no operation). *)
Theorem simulate_folds_in_sequence (c : QuantumComputation)
    (executeSwaps : bool) (input : Edge) (h : list (DDEvent Edge)) :
  forallb isUnitary (ops c) = true ->
  exists evs perm',
    let es := products dd h evs in
    simulate dd isUnitary MAX_QUBITS LINE_DEFAULT c input executeSwaps h
    = (h ++ evs, perm', Done (List.last es input)) /\
    fragments evs = ops c /\
    right_factors evs = take (length (ops c)) (input :: es) /\
    length es = length (ops c).
Proof.
  intros Hu. unfold simulate.
  destruct (fold_ops_order executeSwaps (ops c) Hu
              (replicate MAX_QUBITS LINE_DEFAULT) (outputPermutation c)
              input (h ++ [EvIncRef input]))
    as (es & evs & perm' & Hfold & Hlen & Hfr & Hrf & _ & Hpr).
  exists ([EvIncRef input] ++ evs), perm'.
  cbn [app products]. rewrite Hpr, Hfold.
  split; [rewrite <- app_assoc; reflexivity |].
  unfold fragments, right_factors in *. cbn [omap].
  repeat split; assumption.
Qed.

(** A build that runs to its end switches the normalization of matrices on
    before anything else and off as its last call, and touches the mode
    nowhere in between; the fragments are asked for in the order of the
    operation sequence. *)
Theorem buildFunctionality_brackets_normalization (c : QuantumComputation)
    (executeSwaps : bool) (h : list (DDEvent Edge)) :
  nqubits c <> 0 ->
  forallb isUnitary (ops c) = true ->
  exists e evs perm',
    buildFunctionality dd isUnitary MAX_QUBITS LINE_DEFAULT c executeSwaps h
    = (h ++ [EvUseMatrixNormalization true] ++ evs
         ++ [EvUseMatrixNormalization false], perm', Done e) /\
    normalization_modes evs = [] /\
    fragments evs = ops c.
Proof.
  intros Hq Hu. unfold buildFunctionality.
  destruct (nqubits c =? 0) eqn:E; [apply Z.eqb_eq in E; contradiction |].
  set (h1 := h ++ [EvUseMatrixNormalization true]).
  set (e0 := makeIdent dd h1 0 (nqubits c - 1)).
  destruct (fold_ops_order executeSwaps (ops c) Hu
              (replicate MAX_QUBITS LINE_DEFAULT) (outputPermutation c) e0
              ((h1 ++ [EvMakeIdent 0 (nqubits c - 1)]) ++ [EvIncRef e0]))
    as (es & evs & perm' & Hfold & Hlen & Hfr & _ & Hnm & _).
  rewrite Hfold.
  exists (List.last es e0),
    ([EvMakeIdent 0 (nqubits c - 1); EvIncRef e0] ++ evs), perm'.
  split; [| split].
  - f_equal. f_equal. unfold h1. rewrite <- !app_assoc. reflexivity.
  - unfold normalization_modes in *. rewrite omap_app. simpl. exact Hnm.
  - unfold fragments in *. rewrite omap_app. simpl. exact Hfr.
Qed.

Lemma fold_ops_stops (executeSwaps : bool) (op : Operation)
    (post : list Operation) (pre : list Operation) :
  forallb isUnitary pre = true -> isUnitary op = false ->
  forall line perm e h,
  exists es evs perm',
    fold_ops dd isUnitary executeSwaps (pre ++ op :: post) line perm e h
    = (h ++ evs, perm', Exit 1 "Functionality not unitary.") /\
    fragments evs = pre /\
    List.filter is_ref evs = handover e es /\
    normalization_modes evs = [].
Proof.
  intros Hpre Hop. induction pre as [|p pre IH]; intros line perm e h.
  - exists [], [], perm. simpl. rewrite Hop. simpl. rewrite app_nil_r.
    repeat split.
  - simpl in Hpre. apply andb_true_iff in Hpre. destruct Hpre as [Hp Hpre].
    simpl. rewrite Hp. simpl.
    destruct (getDD dd h p line perm executeSwaps) as [[f line'] perm1].
    set (h1 := h ++ [EvGetDD p perm executeSwaps]).
    set (tmp := multiply dd h1 f e).
    destruct (IH Hpre line' perm1 tmp
                ((((h1 ++ [EvMultiply f e]) ++ [EvIncRef tmp]) ++ [EvDecRef e])
                 ++ [EvGarbageCollect]))
      as (es & evs & perm' & Hfold & Hfr & Href & Hnm).
    exists (tmp :: es),
      ([EvGetDD p perm executeSwaps; EvMultiply f e; EvIncRef tmp;
        EvDecRef e; EvGarbageCollect] ++ evs), perm'.
    rewrite Hfold. split.
    + f_equal. f_equal. unfold h1. rewrite <- !app_assoc. reflexivity.
    + unfold fragments, normalization_modes in *.
      rewrite !omap_app. simpl. rewrite Hfr, Href, Hnm. repeat split.
Qed.

(** A build over a sequence that holds an operation that is not unitary
    exits with code 1 when it reaches the first such operation: the
    operations before it have been folded, in order; the accumulator of the
    moment is left with its retain; and the normalization of matrices, once
    switched on, is not switched off. *)
Theorem buildFunctionality_exits_at_non_unitary (c : QuantumComputation)
    (executeSwaps : bool) (h : list (DDEvent Edge))
    (pre post : list Operation) (op : Operation) :
  nqubits c <> 0 ->
  ops c = pre ++ op :: post ->
  forallb isUnitary pre = true -> isUnitary op = false ->
  exists e evs perm',
    buildFunctionality dd isUnitary MAX_QUBITS LINE_DEFAULT c executeSwaps h
    = (h ++ evs, perm', Exit 1 "Functionality not unitary.") /\
    fragments evs = pre /\
    normalization_modes evs = [true] /\
    outstanding evs ∅ = Some {[+ e +]}.
Proof.
  intros Hq Hops Hpre Hop. unfold buildFunctionality.
  destruct (nqubits c =? 0) eqn:E; [apply Z.eqb_eq in E; contradiction |].
  set (h1 := h ++ [EvUseMatrixNormalization true]).
  set (e0 := makeIdent dd h1 0 (nqubits c - 1)).
  rewrite Hops.
  destruct (fold_ops_stops executeSwaps op post pre Hpre Hop
              (replicate MAX_QUBITS LINE_DEFAULT) (outputPermutation c) e0
              ((h1 ++ [EvMakeIdent 0 (nqubits c - 1)]) ++ [EvIncRef e0]))
    as (es & evs & perm' & Hfold & Hfr & Href & Hnm).
  rewrite Hfold.
  exists (List.last es e0),
    ([EvUseMatrixNormalization true; EvMakeIdent 0 (nqubits c - 1);
      EvIncRef e0] ++ evs), perm'.
  split; [| split; [| split]].
  - f_equal. f_equal. unfold h1. rewrite <- !app_assoc. reflexivity.
  - unfold fragments in *. rewrite omap_app. simpl. exact Hfr.
  - unfold normalization_modes in *. rewrite omap_app. simpl.
    rewrite Hnm. reflexivity.
  - rewrite outstanding_filter. simpl. rewrite Href. simpl.
    rewrite outstanding_handover by multiset_solver.
    f_equal. multiset_solver.
Qed.

End FoldFacts.

Lemma simulate_folds_in_sequence_witness :
  exists evs perm',
    let es := products sample_package [] evs in
    simulate sample_package op_isUnitary 128 (-1)
      three_qubits_one_register 7 false []
    = ([] ++ evs, perm', Done (List.last es 7)) /\
    fragments evs = ops three_qubits_one_register /\
    right_factors evs
    = take (length (ops three_qubits_one_register)) (7 :: es) /\
    length es = length (ops three_qubits_one_register).
Proof.
  apply (simulate_folds_in_sequence sample_package op_isUnitary 128 (-1)
           three_qubits_one_register false 7 []).
  reflexivity.
Defined.

Lemma buildFunctionality_brackets_normalization_witness :
  exists e evs perm',
    buildFunctionality sample_package op_isUnitary 128 (-1)
      three_qubits_one_register false []
    = ([] ++ [EvUseMatrixNormalization true] ++ evs
         ++ [EvUseMatrixNormalization false], perm', Done e) /\
    normalization_modes evs = [] /\
    fragments evs = ops three_qubits_one_register.
Proof.
  apply (buildFunctionality_brackets_normalization sample_package
           op_isUnitary 128 (-1) three_qubits_one_register false []).
  - simpl. lia.
  - reflexivity.
Defined.

Lemma buildFunctionality_exits_at_non_unitary_witness :
  exists e evs perm',
    buildFunctionality sample_package op_isUnitary 128 (-1)
      hadamard_then_measure false []
    = ([] ++ evs, perm', Exit 1 "Functionality not unitary.") /\
    fragments evs = [hadamard_on_0 1] /\
    normalization_modes evs = [true] /\
    outstanding evs ∅ = Some {[+ e +]}.
Proof.
  apply (buildFunctionality_exits_at_non_unitary sample_package
           op_isUnitary 128 (-1) hadamard_then_measure false []
           [hadamard_on_0 1] [] (NonUnitaryOperation 1 Measure [0] [0] 0)).
  - simpl. lia.
  - reflexivity.
  - reflexivity.
  - reflexivity.
Defined.

(** ** Looking up the register of a qubit *)

Lemma reg_contains_spec (i : Z) (r : Z * Z) :
  reg_contains i r = true <-> r.1 <= i < r.1 + r.2.
Proof.
  unfold reg_contains. rewrite andb_true_iff, !negb_true_iff.
  rewrite Z.ltb_ge, Z.geb_leb, Z.leb_gt. reflexivity.
Qed.

Lemma least_name_nil (l : list (string * (Z * Z))) :
  least_name l = None -> l = [].
Proof.
  destruct l as [|kv l]; [reflexivity |]. simpl.
  destruct (least_name l) as [n|]; [destruct (String.ltb _ _) |];
    discriminate.
Qed.

(** [getQubitRegister] returns the name of a declared register whose
    range holds the index, and exits with code 1 exactly when no declared
    register holds it. *)
Theorem getQubitRegister_sound_and_complete (i : Z)
    (c : QuantumComputation) :
  (forall n, getQubitRegister i c = Done n ->
     exists reg, qregs c !! n = Some reg /\
                 reg.1 <= wrap16 i < reg.1 + reg.2) /\
  ((exists msg, getQubitRegister i c = Exit 1 msg) <->
   (forall n reg, qregs c !! n = Some reg ->
      ~ reg.1 <= wrap16 i < reg.1 + reg.2)) /\
  (forall w, getQubitRegister i c <> Abort w).
Proof.
  unfold getQubitRegister.
  set (l := List.filter _ _).
  assert (Hl : forall kv, kv ∈ l <->
            qregs c !! kv.1 = Some kv.2 /\ kv.2.1 <= wrap16 i < kv.2.1 + kv.2.2).
  { intros [n reg]. unfold l. rewrite list_elem_of_In, filter_In.
    rewrite <- list_elem_of_In, elem_of_map_to_list, reg_contains_spec.
    reflexivity. }
  split; [| split].
  - intros n Hn.
    destruct (least_name l) as [n'|] eqn:E; [| discriminate Hn].
    injection Hn as ->.
    destruct (least_name_elem l) as ([n0 reg] & Hn0 & Hin).
    { intros ->. discriminate E. }
    rewrite E in Hn0. injection Hn0 as ->.
    apply Hl in Hin. exists reg. exact Hin.
  - split.
    + intros [msg Hmsg] n reg Hreg Hc.
      destruct (least_name l) as [n'|] eqn:E; [discriminate Hmsg |].
      apply least_name_nil in E.
      assert (Hin : (n, reg) ∈ l) by (apply Hl; split; assumption).
      rewrite E in Hin. inversion Hin.
    + intros Hnone.
      destruct (least_name l) as [n'|] eqn:E; [| eexists; reflexivity].
      exfalso.
      destruct (least_name_elem l) as ([n0 reg] & _ & Hin).
      { intros ->. discriminate E. }
      apply Hl in Hin. destruct Hin as [Hreg Hc].
      exact (Hnone _ _ Hreg Hc).
  - intros w. destruct (least_name l); discriminate.
Qed.

(** For an index in the 16-bit range and registers that start at
    non-negative indices, [getQubitRegisterAndIndex] returns a declared
    register and the offset of the qubit in it: the offset is within the
    register's size, and the register's start plus the offset is the
    index. *)
Theorem getQubitRegisterAndIndex_offset (i : Z) (c : QuantumComputation)
    (n : string) (k : Z) :
  0 <= i < 65536 ->
  (forall n' reg, qregs c !! n' = Some reg -> 0 <= reg.1) ->
  getQubitRegisterAndIndex i c = Done (n, k) ->
  exists reg,
    qregs c !! n = Some reg /\ reg.1 + k = i /\ 0 <= k < reg.2.
Proof.
  intros Hi Hpos. unfold getQubitRegisterAndIndex.
  destruct (getQubitRegister i c) as [n0 | |] eqn:E; try discriminate.
  cbn [mbind outcome_bind]. intros Hr. injection Hr as -> <-.
  destruct (getQubitRegister_found i c Hi) as (n1 & reg & Hget & Hreg & Hc).
  { unfold getQubitRegister in E. rewrite (wrap16_small i Hi) in E.
    set (l := List.filter _ _) in E.
    destruct (least_name l) as [n'|] eqn:El; [| discriminate E].
    destruct (least_name_elem l) as ([n2 reg2] & _ & Hin).
    { intros ->. discriminate El. }
    apply list_elem_of_In, filter_In in Hin. destruct Hin as [Hin Hc].
    apply list_elem_of_In, elem_of_map_to_list in Hin.
    exists n2, reg2. split; assumption. }
  rewrite E in Hget. injection Hget as <-.
  rewrite Hreg. exists reg. split; [reflexivity |].
  apply reg_contains_spec in Hc. specialize (Hpos _ _ Hreg).
  rewrite (wrap16_small i Hi). rewrite wrap16_small by lia. lia.
Qed.

Lemma getQubitRegisterAndIndex_offset_witness :
  exists reg,
    qregs three_variables !! "b" = Some reg /\ reg.1 + 0 = 1 /\
    0 <= 0 < reg.2.
Proof.
  apply (getQubitRegisterAndIndex_offset 1 three_variables "b" 0).
  - lia.
  - intros n' reg Hreg.
    destruct (decide (n' = "a")) as [-> | Ha];
      [vm_compute in Hreg; injection Hreg as <-; simpl; lia |].
    destruct (decide (n' = "b")) as [-> | Hb];
      [vm_compute in Hreg; injection Hreg as <-; simpl; lia |].
    destruct (decide (n' = "c")) as [-> | Hc];
      [vm_compute in Hreg; injection Hreg as <-; simpl; lia |].
    unfold three_variables in Hreg. simpl in Hreg.
    rewrite !lookup_insert_ne in Hreg by congruence.
    rewrite lookup_singleton_ne in Hreg by congruence. discriminate Hreg.
  - reflexivity.
Defined.

(** When exactly one register holds the index, that register is the
    answer. *)
Lemma getQubitRegister_unique (i : Z) (c : QuantumComputation)
    (n : string) (reg : Z * Z) :
  0 <= i < 65536 ->
  qregs c !! n = Some reg -> reg_contains i reg = true ->
  (forall n' reg', qregs c !! n' = Some reg' ->
     reg_contains i reg' = true -> n' = n) ->
  getQubitRegister i c = Done n.
Proof.
  intros Hi Hreg Hc Huniq.
  destruct (getQubitRegister_found i c Hi) as (n1 & reg1 & Hget & Hreg1 & Hc1).
  { exists n, reg. split; assumption. }
  rewrite Hget. f_equal. exact (Huniq _ _ Hreg1 Hc1).
Qed.

(** ** Writing the permutations *)

Lemma permutation_row_done (perm : gmap Z Z) (k : nat) :
  Z.of_nat k <= 65536 ->
  ((exists row, permutation_row k perm = Done row) <->
   (forall i, 0 <= i < Z.of_nat k -> is_Some (perm !! i))).
Proof.
  induction k as [|k IH]; intros Hk.
  - simpl. split; [intros _ i Hi; lia | intros _; eexists; reflexivity].
  - cbn [permutation_row]. rewrite wrap16_small by lia. split.
    + intros [row Hrow].
      destruct (permutation_row k perm) as [r | |] eqn:E;
        try discriminate Hrow.
      cbn [mbind outcome_bind] in Hrow.
      destruct (perm !! Z.of_nat k) as [v|] eqn:Ev; [| discriminate Hrow].
      intros i Hi. destruct (decide (i = Z.of_nat k)) as [-> | Hne].
      * rewrite Ev. eexists. reflexivity.
      * apply IH; [lia | eexists; reflexivity | lia].
    + intros Hall.
      destruct (proj2 (IH ltac:(lia))) as [r Hr].
      { intros i Hi. apply Hall. lia. }
      rewrite Hr. cbn [mbind outcome_bind].
      destruct (Hall (Z.of_nat k) ltac:(lia)) as [v Hv]. rewrite Hv.
      eexists. reflexivity.
Qed.

(** For a qubit count in the 16-bit range, the permutation rows of [print]
    are written if and only if both permutations are defined on every index
    below the qubit count; otherwise [std::map::at] throws. *)
Theorem print_permutations_needs_total (c : QuantumComputation) :
  0 <= nqubits c <= 65536 ->
  ((exists rows, print_permutations c = Done rows) <->
   (forall i, 0 <= i < nqubits c ->
      is_Some (inputPermutation c !! i) /\
      is_Some (outputPermutation c !! i))).
Proof.
  intros Hn. unfold print_permutations.
  pose proof (permutation_row_done (inputPermutation c)
                (Z.to_nat (nqubits c)) ltac:(lia)) as Hi.
  pose proof (permutation_row_done (outputPermutation c)
                (Z.to_nat (nqubits c)) ltac:(lia)) as Ho.
  rewrite Z2Nat.id in Hi, Ho by lia. split.
  - intros [rows Hrows] i Hr.
    destruct (permutation_row _ (inputPermutation c)) as [ri | |] eqn:Ei;
      try discriminate Hrows.
    cbn [mbind outcome_bind] in Hrows.
    destruct (permutation_row _ (outputPermutation c)) as [ro | |] eqn:Eo;
      try discriminate Hrows.
    split; [apply Hi | apply Ho]; try (eexists; reflexivity); exact Hr.
  - intros Hall.
    destruct (proj2 Hi) as [ri Hri]; [intros i Hr; apply Hall, Hr |].
    destruct (proj2 Ho) as [ro Hro]; [intros i Hr; apply Hall, Hr |].
    rewrite Hri. cbn [mbind outcome_bind]. rewrite Hro.
    eexists. reflexivity.
Qed.

Lemma print_permutations_needs_total_witness :
  (exists rows, print_permutations three_qubits_one_register = Done rows) <->
  (forall i, 0 <= i < nqubits three_qubits_one_register ->
     is_Some (inputPermutation three_qubits_one_register !! i) /\
     is_Some (outputPermutation three_qubits_one_register !! i)).
Proof.
  apply (print_permutations_needs_total three_qubits_one_register).
  simpl. lia.
Defined.

(** ** Growing and stripping the circuit *)

Lemma op_actsOn_setNqubits (w : Z) (op : Operation) (i : Z) :
  op_actsOn (op_setNqubits w op) i = op_actsOn op i.
Proof. induction op; simpl; auto. Qed.

Lemma op_setNqubits_idem (w : Z) (op : Operation) :
  op_setNqubits w (op_setNqubits w op) = op_setNqubits w op.
Proof. induction op; simpl; congruence. Qed.

Section GrowAndStrip.

Variable MAXN : Z.
Variable setNqubits : Z -> Operation -> Operation.
Variable actsOn : Operation -> Z -> bool.

(** The register table after a call of [addQubitRegister] that returns:
    the named register ends at the new qubit count, and every other name is
    bound as before. *)
Lemma addQubitRegister_registers (c c' : QuantumComputation) (nq : Z)
    (reg_name : string) :
  addQubitRegister MAXN setNqubits nq reg_name c = Done c' ->
  exists start size,
    qregs c' = <[reg_name := (start, size + nq)]> (qregs c) /\
    start + size = nqubits c /\
    match qregs c !! reg_name with
    | Some reg => reg = (start, size)
    | None => size = 0
    end.
Proof.
  unfold addQubitRegister. destruct (nqubits c + nq >? MAXN); [discriminate |].
  destruct (qregs c !! reg_name) as [[s n]|] eqn:E.
  - simpl. destruct (s + n =? nqubits c) eqn:En; [| discriminate].
    apply Z.eqb_eq in En. intros Hr. injection Hr as <-.
    exists s, n. simpl. repeat split. exact En.
  - intros Hr. injection Hr as <-. exists (nqubits c), 0. simpl.
    unfold map_insert_new. rewrite E. repeat split. lia.
Qed.

(** If every qubit index of the circuit lies in a declared register, it
    still does after a register was added or extended (register sizes are
    unsigned in the code, hence not negative): the precondition that
    [stripTrailingIdleQubits] needs of the register table is kept by
    [addQubitRegister]. *)
Theorem addQubitRegister_keeps_covered (c c' : QuantumComputation)
    (nq : Z) (reg_name : string) :
  0 <= nq ->
  (forall n reg, qregs c !! n = Some reg -> 0 <= reg.2) ->
  covered 0 (nqubits c) (qregs c) ->
  addQubitRegister MAXN setNqubits nq reg_name c = Done c' ->
  covered 0 (nqubits c') (qregs c').
Proof.
  intros Hq Hsize Hcov Hr.
  destruct (addQubitRegister_registers _ _ _ _ Hr)
    as (s & n & Hregs & Hend & Hold).
  destruct (addQubitRegister_done _ _ _ _ _ _ Hr) as (Hn & _).
  rewrite Hn, Hregs. intros i Hi.
  destruct (decide (i < nqubits c)) as [Hlt | Hge].
  - destruct (Hcov i ltac:(lia)) as (n' & reg & Hreg & Hc).
    destruct (decide (n' = reg_name)) as [-> | Hne].
    + rewrite Hreg in Hold. subst reg.
      exists reg_name, (s, n + nq). split; [apply lookup_insert_eq |].
      apply reg_contains_spec in Hc. apply reg_contains_spec.
      simpl in *. lia.
    + exists n', reg. split; [| exact Hc].
      rewrite lookup_insert_ne by congruence. exact Hreg.
  - exists reg_name, (s, n + nq). split; [apply lookup_insert_eq |].
    apply reg_contains_spec. simpl.
    assert (0 <= n); [| lia].
    destruct (qregs c !! reg_name) as [reg|] eqn:E; [| lia].
    subst reg. exact (Hsize _ _ E).
Qed.

(** After [addQubitRegister(nq, name)] on a circuit whose registers lie
    below its qubit count, every new qubit is found in the register of that
    name, at the offset counted from the register's start. *)
Theorem addQubitRegister_then_lookup (c c' : QuantumComputation) (nq : Z)
    (reg_name : string) (i : Z) :
  0 <= nqubits c -> nqubits c + nq <= 65536 ->
  (forall n reg, qregs c !! n = Some reg ->
     0 <= reg.1 /\ 0 <= reg.2 /\ reg.1 + reg.2 <= nqubits c) ->
  addQubitRegister MAXN setNqubits nq reg_name c = Done c' ->
  nqubits c <= i < nqubits c' ->
  exists reg,
    qregs c' !! reg_name = Some reg /\
    reg.1 + reg.2 = nqubits c' /\
    getQubitRegisterAndIndex i c' = Done (reg_name, i - reg.1).
Proof.
  intros Hn Hw Hbelow Hr Hi.
  destruct (addQubitRegister_registers _ _ _ _ Hr)
    as (s & n & Hregs & Hend & Hold).
  destruct (addQubitRegister_done _ _ _ _ _ _ Hr) as (Hn' & _).
  rewrite Hn' in *.
  assert (Hsn : 0 <= s /\ 0 <= n).
  { destruct (qregs c !! reg_name) as [reg|] eqn:E.
    - subst reg. destruct (Hbelow _ _ E) as (H1 & H2 & _). simpl in *. lia.
    - lia. }
  exists (s, n + nq). rewrite Hregs. split; [apply lookup_insert_eq |].
  split; [simpl; lia |].
  unfold getQubitRegisterAndIndex.
  rewrite (getQubitRegister_unique i c' reg_name (s, n + nq)).
  - cbn [mbind outcome_bind]. rewrite Hregs, lookup_insert_eq. simpl.
    rewrite (wrap16_small i) by lia. rewrite wrap16_small by lia.
    reflexivity.
  - lia.
  - rewrite Hregs. apply lookup_insert_eq.
  - apply reg_contains_spec. simpl. lia.
  - intros n' reg' Hreg' Hc'. rewrite Hregs in Hreg'.
    destruct (decide (n' = reg_name)) as [-> | Hne]; [reflexivity |].
    rewrite lookup_insert_ne in Hreg' by congruence.
    destruct (Hbelow _ _ Hreg') as (_ & _ & Hle).
    apply reg_contains_spec in Hc'. lia.
Qed.

(** When no operation acts on any qubit and every index lies in a
    register, [stripTrailingIdleQubits] removes every qubit: the qubit
    count ends at 0 and both permutations lose every index below the former
    count. The loop then ends by its condition, not by its [else] branch,
    so the operations are not told the new width: they are left as they
    were. *)
Theorem stripTrailingIdleQubits_all_idle (c : QuantumComputation) :
  0 <= nqubits c <= 65536 ->
  (forall i, 0 <= i < nqubits c ->
     forall op, op ∈ ops c -> actsOn op i = false) ->
  covered 0 (nqubits c) (qregs c) ->
  exists c',
    stripTrailingIdleQubits setNqubits actsOn c = Done c' /\
    nqubits c' = 0 /\
    (forall i, inputPermutation c' !! i =
               if decide (0 <= i < nqubits c) then None
               else inputPermutation c !! i) /\
    (forall i, outputPermutation c' !! i =
               if decide (0 <= i < nqubits c) then None
               else outputPermutation c !! i) /\
    ops c' = ops c.
Proof.
  unfold stripTrailingIdleQubits.
  remember (Z.to_nat (nqubits c)) as d eqn:Hd.
  intros Hn. assert (Hnd : nqubits c = Z.of_nat d) by lia. clear Hd.
  revert c Hn Hnd. induction d as [|d IH]; intros c Hn Hnd Hidle Hcov.
  - simpl. exists c. split; [reflexivity |]. split; [lia |].
    repeat split; intros i; destruct (decide _); try lia; reflexivity.
  - simpl.
    rewrite (isIdleQubit_true _ _ c)
      by first [lia | intros op Hop; apply Hidle; [lia | exact Hop]].
    destruct (strip_one_spec (Z.of_nat d) c 0)
      as (c1 & Hs & Hn1 & Hi1 & Ho1 & Hops1 & Hcov1); [lia | lia | |].
    { replace (Z.of_nat d + 1) with (nqubits c) by lia. exact Hcov. }
    rewrite Hs. cbn [mbind outcome_bind].
    assert (Hn1' : nqubits c1 = Z.of_nat d) by lia.
    destruct (IH c1) as (c' & Hl & Hn' & Hi' & Ho' & Hops'); try lia.
    + rewrite Hops1. intros i Hi. apply Hidle. lia.
    + rewrite Hn1'. exact Hcov1.
    + exists c'. split; [exact Hl |]. split; [exact Hn' |].
      rewrite Hops', Hops1. repeat split.
      * intros i. rewrite Hi', Hi1, Hn1'. apply strip_step_lookup; lia.
      * intros i. rewrite Ho', Ho1, Hn1'. apply strip_step_lookup; lia.
Qed.

(** Stripping twice is stripping once: under the conditions in which
    [stripTrailingIdleQubits] trims the circuit to [m] qubits, and for
    operations whose qubits do not depend on the width they were told and
    for which telling the same width twice is telling it once, a second
    call returns the circuit of the first. *)
Theorem stripTrailingIdleQubits_idempotent (c : QuantumComputation)
    (m : Z) :
  (forall w op i, actsOn (setNqubits w op) i = actsOn op i) ->
  (forall w op, setNqubits w (setNqubits w op) = setNqubits w op) ->
  0 < m <= nqubits c -> nqubits c <= 65536 ->
  (exists op, op ∈ ops c /\ actsOn op (m - 1) = true) ->
  (forall i, m <= i < nqubits c ->
     forall op, op ∈ ops c -> actsOn op i = false) ->
  covered m (nqubits c) (qregs c) ->
  exists c',
    stripTrailingIdleQubits setNqubits actsOn c = Done c' /\
    stripTrailingIdleQubits setNqubits actsOn c' = Done c'.
Proof.
  intros Hact Hidem Hm Hmax Hbusy Hidle Hcov.
  destruct (strip_loop_spec setNqubits actsOn m (Z.to_nat (nqubits c - m))
              ltac:(lia) c) as (c' & Hl & Hn' & _ & _ & Hops');
    try assumption; try lia.
  exists c'. split; [exact Hl |].
  unfold stripTrailingIdleQubits. rewrite Hn'.
  assert (Hk : Z.to_nat m = S (Z.to_nat (m - 1))) by lia.
  rewrite Hk. simpl. rewrite Z2Nat.id by lia.
  rewrite (isIdleQubit_false _ _ c').
  - f_equal. rewrite Hn', Hops', map_map.
    rewrite (map_ext _ (setNqubits m)) by (intros op; apply Hidem).
    rewrite <- Hops'. destruct c'. reflexivity.
  - lia.
  - destruct Hbusy as (op & Hop & Hon). exists (setNqubits m op).
    split; [| rewrite Hact; exact Hon].
    rewrite Hops'. apply list_elem_of_fmap. exists op. split; [reflexivity |].
    exact Hop.
Qed.

(** The loop of [stripTrailingIdleQubits] on a circuit whose top [d + 1]
    qubits are idle and are the whole of one register, above a busy qubit
    [n - 1]: the register is shrunk step by step and erased at the end. *)
Lemma strip_loop_top_register (n : Z) (reg_name : string)
    (base : gmap string (Z * Z)) (d : nat) :
  0 < n -> base !! reg_name = None ->
  (forall n' reg, base !! n' = Some reg -> reg.1 + reg.2 <= n) ->
  forall c,
    nqubits c = n + Z.of_nat (S d) -> nqubits c <= 65536 ->
    qregs c = <[reg_name := (n, Z.of_nat (S d))]> base ->
    (exists op, op ∈ ops c /\ actsOn op (n - 1) = true) ->
    (forall i, n <= i < nqubits c ->
       forall op, op ∈ ops c -> actsOn op i = false) ->
    exists c',
      strip_loop setNqubits actsOn (Z.to_nat (nqubits c)) c = Done c' /\
      nqubits c' = n /\ qregs c' = base /\
      (forall i, inputPermutation c' !! i =
                 if decide (n <= i < nqubits c) then None
                 else inputPermutation c !! i) /\
      (forall i, outputPermutation c' !! i =
                 if decide (n <= i < nqubits c) then None
                 else outputPermutation c !! i) /\
      ops c' = map (setNqubits n) (ops c) /\
      nclassics c' = nclassics c /\ cregs c' = cregs c /\
      name c' = name c /\ max_controls c' = max_controls c.
Proof.
  intros Hn Hfresh Hbelow.
  induction d as [|d IH]; intros c Hnc Hmax Hregs Hbusy Hidle.
  - assert (Hk : Z.to_nat (nqubits c) = S (S (Z.to_nat (n - 1)))) by lia.
    rewrite Hk. cbn [strip_loop]. rewrite !Nat2Z.inj_succ, Z2Nat.id by lia.
    replace (Z.succ (n - 1)) with n by lia.
    rewrite (isIdleQubit_true _ _ c)
      by first [lia | intros op Hop; apply Hidle; [lia | exact Hop]].
    unfold strip_one.
    set (c1 := set_nqubits _ _).
    rewrite (getQubitRegister_unique n c1 reg_name (n, 1)).
    + cbn [mbind outcome_bind]. change (qregs c1) with (qregs c).
      rewrite Hregs, lookup_insert_eq. simpl.
      rewrite delete_insert_id by exact Hfresh.
      rewrite isIdleQubit_false.
      * eexists. split; [reflexivity |]. simpl.
        split; [lia |]. split; [reflexivity |].
        split; [| split; [| repeat split;
                               replace (nqubits c - 1) with n by lia;
                               reflexivity]].
        all: intros i; rewrite Hnc;
          (destruct (decide (n <= i < n + Z.of_nat 1));
           [assert (i = n) as -> by lia; apply lookup_delete_eq
           | apply lookup_delete_ne; lia]).
      * lia.
      * exact Hbusy.
    + lia.
    + change (qregs c1) with (qregs c). rewrite Hregs.
      apply lookup_insert_eq.
    + apply reg_contains_spec. simpl. lia.
    + change (qregs c1) with (qregs c). rewrite Hregs.
      intros n' reg' Hreg' Hc'.
      destruct (decide (n' = reg_name)) as [-> | Hne]; [reflexivity |].
      rewrite lookup_insert_ne in Hreg' by congruence.
      apply Hbelow in Hreg'. apply reg_contains_spec in Hc'. lia.
  - assert (Hk : Z.to_nat (nqubits c) = S (Z.to_nat (n + Z.of_nat (S d))))
      by lia.
    rewrite Hk. cbn [strip_loop]. rewrite Z2Nat.id by lia.
    rewrite (isIdleQubit_true _ _ c)
      by first [lia | intros op Hop; apply Hidle; [lia | exact Hop]].
    unfold strip_one.
    set (c1 := set_nqubits _ _).
    rewrite (getQubitRegister_unique (n + Z.of_nat (S d)) c1 reg_name
               (n, Z.of_nat (S (S d)))).
    + cbn [mbind outcome_bind]. change (qregs c1) with (qregs c).
      rewrite Hregs, lookup_insert_eq. cbn [fst snd].
      destruct (Z.of_nat (S (S d)) =? 1) eqn:E1;
        [apply Z.eqb_eq in E1; lia |].
      rewrite insert_insert_eq.
      set (c2 := set_qregs _ _).
      destruct (IH c2) as (c' & Hl & Hn' & Hq' & Hi' & Ho' & Hops' & Hrest).
      * simpl. lia.
      * simpl. lia.
      * simpl. f_equal. f_equal. lia.
      * exact Hbusy.
      * simpl. intros i Hi. apply Hidle. lia.
      * replace (nqubits c2) with (n + Z.of_nat (S d)) in Hl
          by (simpl; lia).
        exists c'. split; [exact Hl |]. split; [exact Hn' |].
        split; [exact Hq' |].
        split; [| split; [| split; [exact Hops' | exact Hrest]]].
        -- intros i. rewrite Hi'. simpl.
           replace (nqubits c - 1) with (n + Z.of_nat (S d)) by lia.
           apply strip_step_lookup; lia.
        -- intros i. rewrite Ho'. simpl.
           replace (nqubits c - 1) with (n + Z.of_nat (S d)) by lia.
           apply strip_step_lookup; lia.
    + lia.
    + change (qregs c1) with (qregs c). rewrite Hregs.
      apply lookup_insert_eq.
    + apply reg_contains_spec. simpl. lia.
    + change (qregs c1) with (qregs c). rewrite Hregs.
      intros n' reg' Hreg' Hc'.
      destruct (decide (n' = reg_name)) as [-> | Hne]; [reflexivity |].
      rewrite lookup_insert_ne in Hreg' by congruence.
      apply Hbelow in Hreg'. apply reg_contains_spec in Hc'. lia.
Qed.

(** Round trip. A register of a fresh name is added to a circuit whose
    top qubit is busy, whose registers end at or below the qubit count and
    whose permutations have no entry at the new indices; no operation acts
    on a new qubit. Then [stripTrailingIdleQubits] undoes the addition:
    the qubit count, the register tables and both permutations are those of
    the circuit before the addition, and the operations are the former ones,
    told the grown width and then the former one. *)
Theorem addQubitRegister_then_strip (c : QuantumComputation) (nq : Z)
    (reg_name : string) :
  (forall w op i, actsOn (setNqubits w op) i = actsOn op i) ->
  0 < nqubits c -> 0 < nq ->
  nqubits c + nq <= MAXN -> nqubits c + nq <= 65536 ->
  qregs c !! reg_name = None ->
  (forall n reg, qregs c !! n = Some reg -> reg.1 + reg.2 <= nqubits c) ->
  (exists op, op ∈ ops c /\ actsOn op (nqubits c - 1) = true) ->
  (forall i, nqubits c <= i < nqubits c + nq ->
     (forall op, op ∈ ops c -> actsOn op i = false) /\
     inputPermutation c !! i = None /\ outputPermutation c !! i = None) ->
  exists c1 c2,
    addQubitRegister MAXN setNqubits nq reg_name c = Done c1 /\
    stripTrailingIdleQubits setNqubits actsOn c1 = Done c2 /\
    nqubits c2 = nqubits c /\ qregs c2 = qregs c /\ cregs c2 = cregs c /\
    inputPermutation c2 = inputPermutation c /\
    outputPermutation c2 = outputPermutation c /\
    ops c2 = map (setNqubits (nqubits c))
               (map (setNqubits (nqubits c + nq)) (ops c)).
Proof.
  intros Hact Hn Hq Hmaxn Hw Hfresh Hbelow Hbusy Hnew.
  destruct (addQubitRegister MAXN setNqubits nq reg_name c) as [c1 | |] eqn:Ha.
  2, 3: (unfold addQubitRegister in Ha;
         destruct (nqubits c + nq >? MAXN) eqn:E;
         [apply Z.gtb_lt in E; lia | rewrite Hfresh in Ha; discriminate Ha]).
  destruct (addQubitRegister_registers _ _ _ _ Ha)
    as (s & n & Hregs & Hend & Hold).
  rewrite Hfresh in Hold. subst n. rewrite Z.add_0_r in Hend. subst s.
  destruct (addQubitRegister_done _ _ _ _ _ _ Ha)
    as (Hn1 & Hops1 & Hi1 & Ho1 & Hncl & Hcr).
  destruct (strip_loop_top_register (nqubits c) reg_name (qregs c)
              (Z.to_nat (nq - 1)) Hn Hfresh Hbelow c1)
    as (c2 & Hl & Hn2 & Hq2 & Hi2 & Ho2 & Hops2 & _ & Hcr2 & _).
  - rewrite Hn1. lia.
  - lia.
  - rewrite Hregs. f_equal. f_equal. lia.
  - destruct Hbusy as (op & Hop & Hon).
    exists (setNqubits (nqubits c + nq) op).
    split; [| rewrite Hact; exact Hon].
    rewrite Hops1. apply list_elem_of_fmap. exists op.
    split; [reflexivity | exact Hop].
  - rewrite Hn1, Hops1. intros i Hi op Hop.
    apply list_elem_of_fmap in Hop. destruct Hop as (op0 & -> & Hop0).
    rewrite Hact. apply (Hnew i Hi). exact Hop0.
  - exists c1, c2. split; [reflexivity |]. split; [exact Hl |].
    split; [exact Hn2 |]. split; [exact Hq2 |].
    split; [congruence |].
    rewrite Hops2, Hops1. repeat split.
    + apply map_eq. intros i. rewrite Hi2, Hi1, Hn1.
      rewrite seed_identity_lookup by lia. rewrite Z2Nat.id by lia.
      destruct (decide (nqubits c <= i < nqubits c + nq)) as [Hi | Hi];
        [| reflexivity].
      symmetry. apply (Hnew i Hi).
    + apply map_eq. intros i. rewrite Ho2, Ho1, Hn1.
      rewrite seed_identity_lookup by lia. rewrite Z2Nat.id by lia.
      destruct (decide (nqubits c <= i < nqubits c + nq)) as [Hi | Hi];
        [| reflexivity].
      symmetry. apply (Hnew i Hi).
Qed.

End GrowAndStrip.

Lemma covered_three_qubits_one_register (lo : Z) :
  0 <= lo -> covered lo 3 (qregs three_qubits_one_register).
Proof.
  intros Hlo i Hi. exists "q", (0, 3). split; [reflexivity |].
  apply reg_contains_spec. simpl. lia.
Qed.

Lemma addQubitRegister_keeps_covered_witness :
  covered 0 (nqubits five_qubits_one_register)
    (qregs five_qubits_one_register).
Proof.
  apply (addQubitRegister_keeps_covered 128 op_setNqubits
           three_qubits_one_register five_qubits_one_register 2 "q").
  - lia.
  - intros n reg Hreg. simpl in Hreg. apply lookup_singleton_Some in Hreg.
    destruct Hreg as [_ <-]. simpl. lia.
  - apply covered_three_qubits_one_register. lia.
  - reflexivity.
Defined.

Lemma addQubitRegister_then_lookup_witness :
  exists reg,
    qregs five_qubits_one_register !! "q" = Some reg /\
    reg.1 + reg.2 = nqubits five_qubits_one_register /\
    getQubitRegisterAndIndex 4 five_qubits_one_register
    = Done ("q", 4 - reg.1).
Proof.
  apply (addQubitRegister_then_lookup 128 op_setNqubits
           three_qubits_one_register five_qubits_one_register 2 "q" 4).
  - simpl. lia.
  - simpl. lia.
  - intros n reg Hreg. simpl in Hreg. apply lookup_singleton_Some in Hreg.
    destruct Hreg as [_ <-]. simpl. lia.
  - reflexivity.
  - simpl. lia.
Defined.

Lemma stripTrailingIdleQubits_all_idle_witness :
  exists c',
    stripTrailingIdleQubits op_setNqubits op_actsOn three_variables
    = Done c' /\
    nqubits c' = 0 /\
    (forall i, inputPermutation c' !! i =
               if decide (0 <= i < nqubits three_variables) then None
               else inputPermutation three_variables !! i) /\
    (forall i, outputPermutation c' !! i =
               if decide (0 <= i < nqubits three_variables) then None
               else outputPermutation three_variables !! i) /\
    ops c' = ops three_variables.
Proof.
  apply (stripTrailingIdleQubits_all_idle op_setNqubits op_actsOn
           three_variables).
  - simpl. lia.
  - simpl. intros i Hi op Hop. inversion Hop.
  - simpl. intros i Hi.
    assert (Hc : i = 0 \/ i = 1 \/ i = 2) by lia.
    destruct Hc as [-> | [-> | ->]];
      [exists "a", (0, 1) | exists "b", (1, 1) | exists "c", (2, 1)];
      split; reflexivity.
Defined.

Lemma stripTrailingIdleQubits_idempotent_witness :
  exists c',
    stripTrailingIdleQubits op_setNqubits op_actsOn
      three_qubits_one_register = Done c' /\
    stripTrailingIdleQubits op_setNqubits op_actsOn c' = Done c'.
Proof.
  apply (stripTrailingIdleQubits_idempotent op_setNqubits op_actsOn
           three_qubits_one_register 1).
  - intros w op i. apply op_actsOn_setNqubits.
  - intros w op. apply op_setNqubits_idem.
  - simpl. lia.
  - simpl. lia.
  - exists (hadamard_on_0 3). split; [apply list_elem_of_here | reflexivity].
  - simpl. intros i Hi op Hop. apply list_elem_of_singleton in Hop.
    subst op. simpl. rewrite orb_false_r. apply Z.eqb_neq. lia.
  - apply covered_three_qubits_one_register. lia.
Defined.

Lemma addQubitRegister_then_strip_witness :
  exists c1 c2,
    addQubitRegister 128 op_setNqubits 2 "anc" one_qubit_hadamard
    = Done c1 /\
    stripTrailingIdleQubits op_setNqubits op_actsOn c1 = Done c2 /\
    nqubits c2 = nqubits one_qubit_hadamard /\
    qregs c2 = qregs one_qubit_hadamard /\
    cregs c2 = cregs one_qubit_hadamard /\
    inputPermutation c2 = inputPermutation one_qubit_hadamard /\
    outputPermutation c2 = outputPermutation one_qubit_hadamard /\
    ops c2 = map (op_setNqubits (nqubits one_qubit_hadamard))
               (map (op_setNqubits (nqubits one_qubit_hadamard + 2))
                  (ops one_qubit_hadamard)).
Proof.
  apply (addQubitRegister_then_strip 128 op_setNqubits op_actsOn
           one_qubit_hadamard 2 "anc").
  - intros w op i. apply op_actsOn_setNqubits.
  - simpl. lia.
  - lia.
  - simpl. lia.
  - simpl. lia.
  - reflexivity.
  - intros n reg Hreg. simpl in Hreg. apply lookup_singleton_Some in Hreg.
    destruct Hreg as [_ <-]. simpl. lia.
  - exists (hadamard_on_0 1). split; [apply list_elem_of_here | reflexivity].
  - simpl. intros i Hi. split; [| split].
    + intros op Hop. apply list_elem_of_singleton in Hop.
      subst op. simpl. rewrite orb_false_r. apply Z.eqb_neq. lia.
    + apply lookup_singleton_ne. lia.
    + apply lookup_singleton_ne. lia.
Defined.

(** ** What the REAL reader appends *)

Lemma wrap16_idem (x : Z) : wrap16 (wrap16 x) = wrap16 x.
Proof. unfold wrap16. apply Z.mod_mod. lia. Qed.

Lemma op_actsOn_standard (n : Z) (cs : list Control.t) (ts : list Z)
    (g : GateKind) (l p t : fp) (q : Z) :
  op_actsOn (StandardOperation n cs ts g l p t) q = true ->
  In q (map Control.qubit cs) \/ In q ts.
Proof.
  simpl. rewrite orb_true_iff, !existsb_exists.
  intros [(ctl & Hin & Heq) | (x & Hin & Heq)].
  - left. apply Z.eqb_eq in Heq. subst q. apply in_map. exact Hin.
  - right. apply Z.eqb_eq in Heq. subst x. exact Hin.
Qed.

Lemma In_removelast {A} (x : A) (l : list A) :
  In x (removelast l) -> In x l.
Proof.
  induction l as [|a l IH]; [intros [] |].
  destruct l as [|b l]; [intros [] |].
  intros [-> | Hin]; [left; reflexivity | right; apply IH, Hin].
Qed.

Lemma In_last {A} (d : A) (l : list A) : l <> [] -> In (List.last l d) l.
Proof.
  induction l as [|a l IH]; [congruence |]. intros _.
  destruct l as [|b l]; [left; reflexivity |].
  right. apply IH. congruence.
Qed.

Section RealFrame.

Variable identifierMap : string -> option Gate.t.
Variable TOLERANCE : Q.

(** The [switch] appends one plain gate of the circuit's width on qubits
    taken from the controls and the target of the line. *)
Lemma emit_real_gate_shape (gate : Gate.t) (controls : list Control.t)
    (target : Z) (lambda : Q) (c c' : QuantumComputation) (P : Z -> Prop) :
  (forall q, P q -> P (wrap16 q)) ->
  P target -> (forall ctl, In ctl controls -> P (Control.qubit ctl)) ->
  emit_real_gate TOLERANCE gate controls target lambda c = Done c' ->
  exists op, c' = emplace_back op c /\ plain_gate_on (nqubits c) P op.
Proof.
  intros Hwrap Ht Hc. unfold emit_real_gate. intros He.
  assert (Hstd : forall g l,
            plain_gate_on (nqubits c) P
              (StandardOperation (nqubits c) controls [target] (OfGate g) l
                 fp0 fp0)).
  { intros g l. split; [reflexivity |]. split; [reflexivity |].
    intros q Hq. apply op_actsOn_standard in Hq.
    destruct Hq as [Hq | [<- | []]]; [| exact Ht].
    apply in_map_iff in Hq. destruct Hq as (ctl & <- & Hin).
    apply Hc, Hin. }
  assert (Htwo : forall g, controls <> [] ->
            plain_gate_on (nqubits c) P
              (StandardOperation (nqubits c) (removelast controls)
                 [target;
                  wrap16 (Control.qubit
                            (List.last controls (Control.mk 0 Control.pos)))]
                 (OfGate g) fp0 fp0 fp0)).
  { intros g Hne. split; [reflexivity |]. split; [reflexivity |].
    intros q Hq. apply op_actsOn_standard in Hq.
    destruct Hq as [Hq | [<- | [<- | []]]]; [| exact Ht |].
    - apply in_map_iff in Hq. destruct Hq as (ctl & <- & Hin).
      apply Hc, In_removelast, Hin.
    - apply Hwrap, Hc, In_last, Hne. }
  destruct gate; try discriminate He;
    try (injection He as <-; eexists; split; [reflexivity | apply Hstd]).
  - destruct (Qltb _ _);
      repeat match type of He with
             | (if ?b then _ else _) = _ => destruct b
             end;
      injection He as <-; eexists; (split; [reflexivity | apply Hstd]).
  - destruct (Qltb _ _);
      repeat match type of He with
             | (if ?b then _ else _) = _ => destruct b
             end;
      injection He as <-; eexists; (split; [reflexivity | apply Hstd]).
  - destruct controls as [|k ks] eqn:Ek; [discriminate He |].
    injection He as <-. eexists. split; [reflexivity |].
    apply (Htwo Gate.SWAP). congruence.
  - destruct controls as [|k ks] eqn:Ek; [discriminate He |].
    injection He as <-. eexists. split; [reflexivity |].
    apply (Htwo Gate.P). congruence.
  - destruct controls as [|k ks] eqn:Ek; [discriminate He |].
    injection He as <-. eexists. split; [reflexivity |].
    apply (Htwo Gate.Pdag). congruence.
Qed.

Lemma declared_start_wrap16 (regs : gmap string (Z * Z)) (q : Z) :
  declared_start regs q -> declared_start regs (wrap16 q).
Proof.
  intros (label & reg & Hreg & [-> | ->]); exists label, reg;
    (split; [exact Hreg |]); right; [reflexivity | apply wrap16_idem].
Qed.

Lemma read_controls_declared (k : nat) :
  forall iss c acc controls iss',
    read_controls k iss c acc = Done (controls, iss') ->
    (forall ctl, In ctl acc -> declared_start (qregs c) (Control.qubit ctl)) ->
    forall ctl, In ctl controls ->
      declared_start (qregs c) (Control.qubit ctl).
Proof.
  induction k as [|k IH]; intros iss c acc controls iss' Hr Hacc.
  - simpl in Hr. injection Hr as <- _. exact Hacc.
  - cbn [read_controls] in Hr.
    destruct iss as [|label iss]; [discriminate Hr |].
    set (label' := if front_is "-" label then _ else _) in Hr.
    destruct (qregs c !! label') as [reg|] eqn:E; [| discriminate Hr].
    apply (IH _ _ _ _ _ Hr). intros ctl Hin. apply in_app_or in Hin.
    destruct Hin as [Hin | [<- | []]]; [apply Hacc, Hin |].
    exists label', reg. split; [exact E | left; reflexivity].
Qed.

Lemma read_labels_declared (ncontrols : Z) (qubits : list string)
    (c : QuantumComputation) (controls : list Control.t) (target : Z) :
  read_labels ncontrols qubits c = Done (controls, target) ->
  declared_start (qregs c) target /\
  forall ctl, In ctl controls -> declared_start (qregs c) (Control.qubit ctl).
Proof.
  unfold read_labels. intros Hr.
  destruct (read_controls _ qubits c []) as [[cs iss] | |] eqn:E;
    try discriminate Hr.
  cbn [mbind outcome_bind] in Hr.
  destruct iss as [|label iss]; [discriminate Hr |].
  destruct (qregs c !! label) as [reg|] eqn:El; [| discriminate Hr].
  injection Hr as <- <-. split.
  - exists label, reg. split; [exact El | right; reflexivity].
  - apply (read_controls_declared _ _ _ _ _ _ E). intros ctl [].
Qed.

(** One gate line that is accepted appends one plain gate of the circuit's
    width, on declared variables; only the operations and the largest
    control count change. *)
Lemma read_real_gate_frame (cmd : string) (qubits : list string)
    (c c' : QuantumComputation) :
  read_real_gate identifierMap TOLERANCE cmd qubits c = Done c' ->
  exists op m,
    c' = emplace_back op (set_max_controls m c) /\
    plain_gate_on (nqubits c) (declared_start (qregs c)) op.
Proof.
  unfold read_real_gate. intros Hr.
  destruct (gateRegex_match cmd) as [[[m1 m2] m3]|]; [| discriminate Hr].
  destruct (real_gate identifierMap m1) as [gate | |]; try discriminate Hr.
  cbn [mbind outcome_bind] in Hr.
  destruct (real_ncontrols gate m1 m2) as [ncontrols | |];
    try discriminate Hr.
  cbn [mbind outcome_bind] in Hr.
  destruct (ncontrols >=? nqubits c); [discriminate Hr |].
  destruct (read_labels ncontrols qubits c) as [[controls target] | |] eqn:El;
    try discriminate Hr.
  cbn [mbind outcome_bind] in Hr.
  apply read_labels_declared in El. destruct El as [Ht Hc].
  apply (emit_real_gate_shape _ _ _ _ _ _
           (declared_start (qregs c))) in Hr.
  - destruct Hr as (op & -> & Hop). exists op. eexists.
    split; [reflexivity | exact Hop].
  - apply declared_start_wrap16.
  - exact Ht.
  - exact Hc.
Qed.

Lemma readRealGateDescriptions_frame (ins : istream) :
  forall c c',
    readRealGateDescriptions identifierMap TOLERANCE ins c = Done c' ->
    exists new,
      ops c' = ops c ++ new /\
      nqubits c' = nqubits c /\ nclassics c' = nclassics c /\
      qregs c' = qregs c /\ cregs c' = cregs c /\
      inputPermutation c' = inputPermutation c /\
      outputPermutation c' = outputPermutation c /\
      Forall (plain_gate_on (nqubits c) (declared_start (qregs c))) new.
Proof.
  induction ins as [|line ins IH]; intros c c' Hr; [discriminate Hr |].
  cbn [readRealGateDescriptions] in Hr.
  destruct line as [|cmd qubits]; [apply IH, Hr |].
  destruct (front (transform tolower cmd)) as [a|]; [| discriminate Hr].
  destruct (Ascii.eqb a "#"); [apply IH, Hr |].
  destruct (String.eqb (transform tolower cmd) ".end").
  - injection Hr as <-. exists []. rewrite app_nil_r.
    repeat split. constructor.
  - destruct (read_real_gate _ _ _ qubits c) as [c1 | |] eqn:E;
      try discriminate Hr.
    apply read_real_gate_frame in E. destruct E as (op & m & -> & Hop).
    apply IH in Hr.
    destruct Hr as (new & Hops & Hn & Hnc & Hq & Hcr & Hi & Ho & Hall).
    exists (op :: new). simpl in *.
    rewrite Hops, <- app_assoc. repeat split; try assumption.
    constructor; assumption.
Qed.

(** Every operation that a REAL import appends is a plain gate as wide as
    the circuit is after the import, and acts only on qubits that are the
    start of a declared variable (as the register table holds it, or
    reduced to 16 bits); the operations that were in the circuit
    stay in front, as they were. Since every appended operation is a gate,
    nothing a REAL import appends can stop [buildFunctionality]. *)
Theorem importReal_operations_on_declared_variables (ins : istream)
    (c c' : QuantumComputation) :
  importReal identifierMap TOLERANCE ins c = Done c' ->
  exists new,
    ops c' = ops c ++ new /\
    Forall (plain_gate_on (nqubits c') (declared_start (qregs c'))) new.
Proof.
  unfold importReal, readRealHeader. intros Hr.
  destruct (readRealHeader_loop _ ins c) as [[ins1 c1] | |] eqn:Eh;
    try discriminate Hr.
  cbn [mbind outcome_bind] in Hr.
  apply readRealHeader_loop_frame in Eh. destruct Eh as [Hops1 _].
  apply readRealGateDescriptions_frame in Hr.
  destruct Hr as (new & Hops & Hn & _ & Hq & _ & _ & _ & Hall).
  exists new. rewrite Hops, Hops1, Hn, Hq. split; [reflexivity | exact Hall].
Qed.

End RealFrame.

Lemma importReal_operations_on_declared_variables_witness :
  exists c',
    importReal sample_identifierMap sample_TOLERANCE real_toffoli_fredkin
      emptyQC = Done c' /\
    exists new,
      ops c' = ops emptyQC ++ new /\
      Forall (plain_gate_on (nqubits c') (declared_start (qregs c'))) new.
Proof.
  eexists. split; [vm_compute; reflexivity |].
  apply (importReal_operations_on_declared_variables sample_identifierMap
           sample_TOLERANCE real_toffoli_fredkin emptyQC).
  vm_compute. reflexivity.
Defined.

(** ** What the grid-benchmark reader appends *)

(** The loop appends one plain gate of the circuit's width for every line
    that is not empty, and touches nothing but the operations. *)
Lemma grcs_lines_appends (ls : list (list string)) :
  forall v c c',
    grcs_lines ls v c = Done c' ->
    exists new,
      c' = set_ops (ops c ++ new) c /\
      length new = length (List.filter not_empty ls) /\
      Forall (plain_gate_on (nqubits c) (fun _ => True)) new.
Proof.
  assert (Hplain : forall n cs ts g l,
            plain_gate_on n (fun _ => True)
              (StandardOperation n cs ts g l fp0 fp0)).
  { intros. split; [reflexivity |]. split; [reflexivity |]. intros; exact I. }
  assert (Hstep : forall c op ls' v c',
            (forall v c c',
               grcs_lines ls' v c = Done c' ->
               exists new,
                 c' = set_ops (ops c ++ new) c /\
                 length new
                 = length (List.filter not_empty ls') /\
                 Forall (plain_gate_on (nqubits c) (fun _ => True)) new) ->
            plain_gate_on (nqubits c) (fun _ => True) op ->
            grcs_lines ls' v (emplace_back op c) = Done c' ->
            exists new,
              c' = set_ops (ops c ++ new) c /\
              length new
              = S (length (List.filter not_empty ls')) /\
              Forall (plain_gate_on (nqubits c) (fun _ => True)) new).
  { intros c op ls' v c' IH Hop Hr. apply IH in Hr.
    destruct Hr as (new & -> & Hlen & Hall). exists (op :: new).
    split; [| split; [simpl; lia | constructor; assumption]].
    unfold emplace_back, set_ops. simpl. rewrite <- app_assoc. reflexivity. }
  induction ls as [|line ls IH]; intros v c c' Hr; cbn [grcs_lines] in Hr.
  - injection Hr as <-. exists []. rewrite app_nil_r.
    split; [destruct c; reflexivity |]. split; [reflexivity | constructor].
  - destruct line as [|t ts]; [apply IH in Hr; exact Hr |].
    cbn [List.filter not_empty length].
    destruct (read_unsigned 4294967295 _ _ _) as [[cycle ss] failed].
    destruct (read_string _ _ _) as [[identifier ss1] failed1].
    destruct (String.eqb identifier "cz").
    + destruct (read_unsigned 65535 _ ss1 _) as [[control ss2] failed2].
      destruct (read_unsigned 65535 _ ss2 _) as [[target ss3] failed3].
      apply (Hstep _ _ _ _ _ IH) in Hr; [exact Hr | apply Hplain].
    + destruct (read_unsigned 65535 _ ss1 _) as [[target ss2] failed2].
      repeat match type of Hr with
             | (if ?b then _ else _) = _ => destruct b
             end;
        try discriminate Hr;
        (apply (Hstep _ _ _ _ _ IH) in Hr; [exact Hr | apply Hplain]).
Qed.



Section GrcsStrip.

Variable setNqubits : Z -> Operation -> Operation.
Variable actsOn : Operation -> Z -> bool.

(** The grid-benchmark reader declares no register, so a circuit that it
    read into a circuit without registers cannot be stripped: whenever the
    top qubit is idle, [stripTrailingIdleQubits] exits with code 1 at the
    lookup of that qubit's register. *)
Theorem stripTrailingIdleQubits_after_importGRCS (ins : istream)
    (c c' : QuantumComputation) :
  qregs c = ∅ ->
  importGRCS ins c = Done c' ->
  0 < nqubits c' <= 65536 ->
  isIdleQubit actsOn (nqubits c' - 1) c' = true ->
  stripTrailingIdleQubits setNqubits actsOn c'
  = Exit 1 "Qubit index not found in any register".
Proof.
  intros Hregs Hr Hn Hidle.
  assert (Hq : qregs c' = ∅).
  { unfold importGRCS in Hr.
    destruct (match read_word ins with Some _ => _ | None => _ end)
      as [[n ins1] failed].
    destruct failed.
    - cbn [mbind outcome_bind] in Hr. injection Hr as <-. exact Hregs.
    - destruct (grcs_lines ins1 _ _) as [c1 | |] eqn:El;
        try discriminate Hr.
      cbn [mbind outcome_bind] in Hr. injection Hr as <-.
      apply grcs_lines_appends in El. destruct El as (new & -> & _).
      exact Hregs. }
  unfold stripTrailingIdleQubits.
  assert (Hk : Z.to_nat (nqubits c') = S (Z.to_nat (nqubits c' - 1))) by lia.
  rewrite Hk. cbn [strip_loop]. rewrite Z2Nat.id by lia. rewrite Hidle.
  unfold strip_one, getQubitRegister. cbn [qregs set_nqubits set_perms].
  rewrite Hq, map_to_list_empty. reflexivity.
Qed.

End GrcsStrip.

Lemma stripTrailingIdleQubits_after_importGRCS_witness :
  stripTrailingIdleQubits op_setNqubits op_actsOn two_qubits_no_register
  = Exit 1 "Qubit index not found in any register".
Proof.
  apply (stripTrailingIdleQubits_after_importGRCS op_setNqubits op_actsOn
           grcs_two_qubits emptyQC two_qubits_no_register).
  - reflexivity.
  - reflexivity.
  - simpl. lia.
  - reflexivity.
Defined.

(** ** Imported gate lists can be built *)

Lemma plain_gates_unitary (w : Z) (P : Z -> Prop) (l : list Operation) :
  Forall (plain_gate_on w P) l -> forallb op_isUnitary l = true.
Proof.
  induction 1 as [|op l Hop _ IH]; [reflexivity |].
  simpl. rewrite IH. destruct Hop as (_ & -> & _). reflexivity.
Qed.

Lemma importGRCS_appends_gates (ins : istream) (c c' : QuantumComputation) :
  importGRCS ins c = Done c' ->
  exists new,
    ops c' = ops c ++ new /\
    Forall (plain_gate_on (nqubits c') (fun _ => True)) new.
Proof.
  unfold importGRCS. intros Hr.
  destruct (match read_word ins with Some _ => _ | None => _ end)
    as [[n ins1] failed].
  destruct failed.
  - cbn [mbind outcome_bind] in Hr. injection Hr as <-. exists [].
    simpl. rewrite app_nil_r. split; [reflexivity | constructor].
  - destruct (grcs_lines ins1 _ _) as [c1 | |] eqn:El; try discriminate Hr.
    cbn [mbind outcome_bind] in Hr. injection Hr as <-.
    apply grcs_lines_appends in El. destruct El as (new & -> & _ & Hall).
    exists new. split; [reflexivity | exact Hall].
Qed.

Section ImportThenBuild.

Context {Edge : Type} `{Countable Edge}.

Variable dd : Package Edge.
Variable MAX_QUBITS : nat.
Variable LINE_DEFAULT : Z.
Variable identifierMap : string -> option Gate.t.
Variable TOLERANCE : Q.
Variable setNqubits : Z -> Operation -> Operation.

(** The REAL and the grid-benchmark readers append gates only. So a
    circuit of gates is still one after [import(filename, format)] in one
    of these two formats, and both builders run to their end on it:
    [buildFunctionality] and [simulate] return an edge, neither can leave
    by the exit for an operation that is not unitary. *)
Theorem imported_gate_list_can_be_built (filename : string) (f : File)
    (format : Format) (c c' : QuantumComputation) (executeSwaps : bool)
    (input : Edge) (h : list (DDEvent Edge)) :
  format = Real \/ format = GRCS ->
  forallb op_isUnitary (ops c) = true ->
  import_as identifierMap TOLERANCE setNqubits filename (Some f) format c
  = Done c' ->
  forallb op_isUnitary (ops c') = true /\
  (exists e h' perm',
     buildFunctionality dd op_isUnitary MAX_QUBITS LINE_DEFAULT c'
       executeSwaps h = (h', perm', Done e)) /\
  (exists e h' perm',
     simulate dd op_isUnitary MAX_QUBITS LINE_DEFAULT c' input
       executeSwaps h = (h', perm', Done e)).
Proof.
  intros Hfmt Hu Hr.
  assert (Hu' : forallb op_isUnitary (ops c') = true).
  { unfold import_as in Hr. destruct Hfmt as [-> | ->].
    - unfold importReal, readRealHeader in Hr.
      destruct (readRealHeader_loop _ _ _) as [[ins1 c1] | |] eqn:Eh;
        try discriminate Hr.
      cbn [mbind outcome_bind] in Hr.
      apply readRealHeader_loop_frame in Eh. destruct Eh as [Hops1 _].
      apply readRealGateDescriptions_frame in Hr.
      destruct Hr as (new & -> & _ & _ & _ & _ & _ & _ & Hall).
      rewrite Hops1, forallb_app. apply andb_true_iff.
      split; [exact Hu | exact (plain_gates_unitary _ _ _ Hall)].
    - apply importGRCS_appends_gates in Hr.
      destruct Hr as (new & -> & Hall).
      rewrite forallb_app. apply andb_true_iff.
      split; [exact Hu | exact (plain_gates_unitary _ _ _ Hall)]. }
  split; [exact Hu' |]. split.
  - unfold buildFunctionality.
    destruct (nqubits c' =? 0); [eexists _, _, _; reflexivity |].
    match goal with
    | |- context [fold_ops _ _ _ (ops c') ?line ?perm ?e ?h1] =>
        destruct (fold_ops_spec dd op_isUnitary executeSwaps (ops c') Hu'
                    line perm e h1) as (es & evs & perm' & -> & _)
    end.
    eexists _, _, _. reflexivity.
  - unfold simulate.
    match goal with
    | |- context [fold_ops _ _ _ (ops c') ?line ?perm ?e ?h1] =>
        destruct (fold_ops_spec dd op_isUnitary executeSwaps (ops c') Hu'
                    line perm e h1) as (es & evs & perm' & -> & _)
    end.
    eexists _, _, _. reflexivity.
Qed.

End ImportThenBuild.

Lemma imported_gate_list_can_be_built_witness :
  exists c',
    import_as sample_identifierMap sample_TOLERANCE op_setNqubits
      "toffoli.real" (Some real_toffoli_fredkin_file) Real emptyQC
    = Done c' /\
    forallb op_isUnitary (ops c') = true /\
    (exists e h' perm',
       buildFunctionality sample_package op_isUnitary 128 (-1) c' false []
       = (h', perm', Done e)) /\
    (exists e h' perm',
       simulate sample_package op_isUnitary 128 (-1) c' 7 false []
       = (h', perm', Done e)).
Proof.
  eexists. split; [vm_compute; reflexivity |].
  apply (imported_gate_list_can_be_built sample_package 128 (-1)
           sample_identifierMap sample_TOLERANCE op_setNqubits
           "toffoli.real" real_toffoli_fredkin_file Real emptyQC).
  - left. reflexivity.
  - reflexivity.
  - vm_compute. reflexivity.
Defined.

(** ** Register layout after an OpenQASM import *)

Lemma total_size_app (l1 l2 : list (string * Z)) :
  total_size (l1 ++ l2) = total_size l1 + total_size l2.
Proof. induction l1 as [|p l1 IH]; simpl; [reflexivity | rewrite IH; lia]. Qed.

Lemma total_size_nonneg (l : list (string * Z)) :
  (forall p, In p l -> 0 <= p.2) -> 0 <= total_size l.
Proof.
  induction l as [|p l IH]; intros Hl; simpl; [lia |].
  assert (0 <= p.2) by (apply Hl; left; reflexivity).
  assert (0 <= total_size l) by (apply IH; intros q Hq; apply Hl; right;
                                 exact Hq).
  lia.
Qed.

(** An offset below the total lies in one of the declarations. *)
Lemma total_size_split (l : list (string * Z)) :
  (forall p, In p l -> 0 <= p.2) ->
  forall k, 0 <= k < total_size l ->
    exists pre p post,
      l = pre ++ p :: post /\
      total_size pre <= k < total_size pre + p.2.
Proof.
  induction l as [|p l IH]; intros Hl k Hk; simpl in Hk; [lia |].
  destruct (decide (k < p.2)) as [Hlt | Hge].
  - exists [], p, l. split; [reflexivity | simpl; lia].
  - destruct (IH (fun q Hq => Hl q (or_intror Hq)) (k - p.2))
      as (pre & q & post & -> & Hq); [lia |].
    exists (p :: pre), q, post. split; [reflexivity | simpl; lia].
Qed.

Section QasmLayout.

Variable setNqubits : Z -> Operation -> Operation.

Lemma qasm_statement_registers (st : QasmStatement)
    (c c' : QuantumComputation) :
  qasm_statement setNqubits st c = Done c' ->
  match st with
  | StQreg s n =>
      qregs c' = <[s := (nqubits c, n)]> (qregs c) /\
      nqubits c' = nqubits c + n
  | _ => qregs c' = qregs c /\ nqubits c' = nqubits c
  end.
Proof.
  destruct st; simpl; intros Hr; try (injection Hr as <-; split; reflexivity).
  - destruct (cregs c !! creg); injection Hr as <-; split; reflexivity.
  - discriminate Hr.
Qed.

Lemma qasm_statements_layout (rest : list QasmStatement) :
  forall st c c',
    qasm_statements setNqubits st rest c = Done c' ->
    NoDup (map fst (declared_qregs (st :: rest))) ->
    (forall p, In p (declared_qregs (st :: rest)) ->
       qregs c !! p.1 = None) ->
    nqubits c' = nqubits c + total_size (declared_qregs (st :: rest)) /\
    (forall s r, qregs c !! s = Some r -> qregs c' !! s = Some r) /\
    (forall pre p post,
       declared_qregs (st :: rest) = pre ++ p :: post ->
       qregs c' !! p.1 = Some (nqubits c + total_size pre, p.2)).
Proof.
  induction rest as [|st' rest IH]; intros st c c' Hr Hnd Hfresh;
    cbn [qasm_statements] in Hr;
    destruct (qasm_statement setNqubits st c) as [c1 | |] eqn:E;
    try discriminate Hr;
    apply qasm_statement_registers in E.
  - injection Hr as <-.
    destruct st; cbn [declared_qregs omap] in *;
      try (destruct E as [Eq En]; rewrite Eq, En; simpl;
           split; [lia |]; split; [auto |];
           intros pre p post Hp; destruct pre; discriminate Hp).
    destruct E as [Eq En]. rewrite Eq, En. simpl. split; [lia |]. split.
    + intros s' r Hs. rewrite lookup_insert_ne; [exact Hs |].
      intros <-.
      assert (Hnone : qregs c !! s = None)
        by (apply (Hfresh (s, n)); left; reflexivity).
      rewrite Hnone in Hs. discriminate Hs.
    + intros pre p post Hp.
      destruct pre as [|q pre]; [| destruct pre; discriminate Hp].
      injection Hp as <- _. simpl. rewrite Z.add_0_r.
      apply lookup_insert_eq.
  - assert (Hcase :
      (exists s n, st = StQreg s n /\
         qregs c1 = <[s := (nqubits c, n)]> (qregs c) /\
         nqubits c1 = nqubits c + n) \/
      (declared_qregs (st :: st' :: rest) = declared_qregs (st' :: rest) /\
       qregs c1 = qregs c /\ nqubits c1 = nqubits c)).
    { destruct st; try (right; split; [reflexivity | exact E]).
      left. exists s, n. split; [reflexivity | exact E]. }
    destruct Hcase as [(s & n & -> & Eq & En) | (Ed & Eq & En)].
    + change (declared_qregs (StQreg s n :: st' :: rest))
        with ((s, n) :: declared_qregs (st' :: rest)) in *.
      simpl in Hnd. apply NoDup_cons in Hnd. destruct Hnd as [Hnotin Hnd].
      destruct (IH st' c1 c' Hr Hnd) as (Hn' & Hold & Hlay).
      { intros p Hp. rewrite Eq. rewrite lookup_insert_ne.
        - apply Hfresh. right. exact Hp.
        - intros Heq. apply Hnotin. rewrite list_elem_of_In. simpl in Heq.
          rewrite Heq. apply in_map. exact Hp. }
      split; [rewrite Hn', En; simpl; lia |]. split.
      * intros s' r Hs. apply Hold. rewrite Eq.
        rewrite lookup_insert_ne; [exact Hs |].
        intros <-.
        assert (Hnone : qregs c !! s = None)
          by (apply (Hfresh (s, n)); left; reflexivity).
        rewrite Hnone in Hs. discriminate Hs.
      * intros pre p post Hp. destruct pre as [|q pre].
        -- injection Hp as <- _. simpl. rewrite Z.add_0_r.
           apply Hold. rewrite Eq. apply lookup_insert_eq.
        -- injection Hp as <- Hp. rewrite (Hlay _ _ _ Hp), En. simpl.
           f_equal. f_equal. lia.
    + rewrite Ed in *.
      destruct (IH st' c1 c' Hr Hnd) as (Hn' & Hold & Hlay).
      { intros p Hp. rewrite Eq. apply Hfresh, Hp. }
      rewrite Eq, En in *. split; [exact Hn' |]. split; assumption.
Qed.

(** An OpenQASM program that declares its qubit registers under names
    that are distinct and new to the circuit lays them out one after the
    other: the qubit count grows by the sizes declared, every declared
    register starts where the declarations before it end, and, sizes not
    being negative, every qubit index of the circuit lies in a register
    again, as [stripTrailingIdleQubits] needs it. (A name declared twice
    would rebind the register and leave the indices of its first
    declaration without one.) *)
Theorem importOpenQASM_register_layout (program : list QasmStatement)
    (c c' : QuantumComputation) :
  NoDup (map fst (declared_qregs program)) ->
  (forall p, In p (declared_qregs program) ->
     qregs c !! p.1 = None /\ 0 <= p.2) ->
  covered 0 (nqubits c) (qregs c) ->
  importOpenQASM setNqubits program c = Done c' ->
  nqubits c' = nqubits c + total_size (declared_qregs program) /\
  (forall pre p post,
     declared_qregs program = pre ++ p :: post ->
     qregs c' !! p.1 = Some (nqubits c + total_size pre, p.2)) /\
  covered 0 (nqubits c') (qregs c').
Proof.
  intros Hnd Hfresh Hcov. unfold importOpenQASM.
  destruct program as [|st rest]; [discriminate |].
  destruct (qasm_statements setNqubits st rest c) as [c1 | |] eqn:E;
    try discriminate.
  cbn [mbind outcome_bind]. intros Hr. injection Hr as <-.
  destruct (qasm_statements_layout rest st c c1 E Hnd) as (Hn & Hold & Hlay).
  { intros p Hp. apply Hfresh, Hp. }
  change (nqubits (seed_permutations c1)) with (nqubits c1).
  change (qregs (seed_permutations c1)) with (qregs c1).
  split; [exact Hn |]. split; [exact Hlay |].
  intros i Hi. destruct (decide (i < nqubits c)) as [Hlt | Hge].
  - destruct (Hcov i ltac:(lia)) as (s & r & Hs & Hc).
    exists s, r. split; [apply Hold, Hs | exact Hc].
  - destruct (total_size_split (declared_qregs (st :: rest))
                (fun p Hp => proj2 (Hfresh p Hp)) (i - nqubits c))
      as (pre & p & post & Hd & Hk); [lia |].
    exists p.1, (nqubits c + total_size pre, p.2).
    split; [apply (Hlay _ _ _ Hd) |].
    apply reg_contains_spec. simpl. lia.
Qed.

End QasmLayout.

Lemma importOpenQASM_register_layout_witness :
  nqubits one_qubit_hadamard
  = nqubits emptyQC
    + total_size (declared_qregs (file_program qasm_single_hadamard)) /\
  (forall pre p post,
     declared_qregs (file_program qasm_single_hadamard) = pre ++ p :: post ->
     qregs one_qubit_hadamard !! p.1
     = Some (nqubits emptyQC + total_size pre, p.2)) /\
  covered 0 (nqubits one_qubit_hadamard) (qregs one_qubit_hadamard).
Proof.
  apply (importOpenQASM_register_layout op_setNqubits
           (file_program qasm_single_hadamard) emptyQC one_qubit_hadamard).
  - simpl. apply NoDup_singleton.
  - simpl. intros p [<- | []]. split; [reflexivity | simpl; lia].
  - intros i Hi. simpl in Hi. lia.
  - reflexivity.
Defined.

(** ** The bridge only appends *)

Lemma Instruction_nested_ind (P : Instruction -> Prop) :
  (forall n ps, P (mkInstruction n ps None)) ->
  (forall n ps qs cs data,
     Forall (fun x : Instruction * list PyBit * list PyBit => P x.1.1) data ->
     P (mkInstruction n ps (Some (qs, cs, data)))) ->
  forall i, P i.
Proof.
  intros Hnone Hsome. fix IH 1. intros [n ps [[[qs cs] data]|]].
  - apply Hsome. induction data as [|[[i qa] ca] data IHd].
    + constructor.
    + constructor; [apply IH | exact IHd].
  - apply Hnone.
Qed.

Lemma appends_only_refl (st : BridgeState) : appends_only st st.
Proof.
  exists [], []. rewrite !app_nil_r. split; [| reflexivity].
  destruct st as [[] ?]. reflexivity.
Qed.

Lemma appends_only_trans (st1 st2 st3 : BridgeState) :
  appends_only st1 st2 -> appends_only st2 st3 -> appends_only st1 st3.
Proof.
  intros (n1 & m1 & Hq1 & Hc1) (n2 & m2 & Hq2 & Hc2).
  exists (n1 ++ n2), (m1 ++ m2). rewrite Hq2, Hc2, Hq1, Hc1. simpl.
  rewrite !app_assoc. split; reflexivity.
Qed.

Lemma appends_only_emplace (o : Operation) (st : BridgeState) :
  appends_only st (bridge_emplace o st).
Proof. exists [o], []. rewrite app_nil_r. split; reflexivity. Qed.

Lemma appends_only_report (n what : string) (st : BridgeState) :
  appends_only st (report_failure n what st).
Proof.
  eexists [], _. simpl. rewrite app_nil_r. split; [| reflexivity].
  destruct st as [[] ?]. reflexivity.
Qed.

Section BridgeFrame.

Variable getIndexQ : QuantumComputation -> string * Z -> Outcome Z.
Variable getIndexC : QuantumComputation -> string * Z -> Outcome Z.
Variable getNqubits : QuantumComputation -> Z.

Lemma addQiskitOperation_appends (type : OpType.t) (qargs : list PyBit)
    (params : list Q) (st : BridgeState) :
  appends_only st (addQiskitOperation getIndexQ getNqubits type qargs
                     params st).1.
Proof.
  unfold addQiskitOperation.
  destruct (resolve_qubits getIndexQ (qc st) qargs) as [qubits | |];
    try apply appends_only_refl.
  destruct qubits; [apply appends_only_refl |].
  destruct (read_params params) as [[la ph] th].
  apply appends_only_emplace.
Qed.

Lemma addTwoTargetQiskitOperation_appends (type : OpType.t)
    (qargs : list PyBit) (params : list Q) (st : BridgeState) :
  appends_only st (addTwoTargetQiskitOperation getIndexQ getNqubits type
                     qargs params st).1.
Proof.
  unfold addTwoTargetQiskitOperation.
  destruct (resolve_qubits getIndexQ (qc st) qargs) as [qubits | |];
    try apply appends_only_refl.
  destruct qubits as [|q qubits]; [apply appends_only_refl |].
  destruct (removelast (q :: qubits)); [apply appends_only_refl |].
  destruct (read_params params) as [[la ph] th].
  apply appends_only_emplace.
Qed.

Lemma importQiskitDefinition_with_appends
    (emplace : Instruction -> list PyBit -> list PyBit -> list Q ->
               BridgeState -> BridgeState * PyOutcome)
    (qs cs : list PyBit)
    (data : list (Instruction * list PyBit * list PyBit))
    (qargs cargs : list PyBit) :
  Forall (fun x : Instruction * list PyBit * list PyBit =>
            forall qa ca pa st, appends_only st (emplace x.1.1 qa ca pa st).1)
    data ->
  forall st,
    appends_only st
      (importQiskitDefinition_with emplace (Some (qs, cs, data)) qargs cargs
         st).1.
Proof.
  intros Hall st. unfold importQiskitDefinition_with.
  destruct (bind_args qs qargs ∅) as [qm|]; [| apply appends_only_refl].
  destruct (bind_args cs cargs ∅) as [cm|]; [| apply appends_only_refl].
  revert st. induction Hall as [|[[i qa] ca] data Hi _ IH]; intros st.
  - apply appends_only_refl.
  - destruct (map_args qm qa) as [mq|]; [| apply appends_only_refl].
    destruct (map_args cm ca) as [mc|]; [| apply appends_only_refl].
    specialize (Hi mq mc (inst_params i) st). simpl in Hi.
    destruct (emplace i mq mc (inst_params i) st) as [st' r].
    destruct r; try exact Hi.
    apply (appends_only_trans _ _ _ Hi). apply IH.
Qed.

(** What [emplaceQiskitOperation] leaves is what it found, with
    operations and lines of [cerr] appended. *)
Lemma emplaceQiskitOperation_appends (instruction : Instruction)
    (qargs cargs : list PyBit) (params : list Q) (st : BridgeState) :
  appends_only st
    (emplaceQiskitOperation getIndexQ getIndexC getNqubits instruction
       qargs cargs params st).1.
Proof.
  revert qargs cargs params st.
  induction instruction as [n ps | n ps qs cs data IH]
    using Instruction_nested_ind;
    intros qargs cargs params st; cbn [emplaceQiskitOperation].
  all: destruct (String.eqb n "measure");
    [destruct qargs as [|qubit ?], cargs as [|clbit ?];
     try apply appends_only_refl;
     repeat match goal with
            | |- context [match ?x with
                          | Done _ => _ | Exit _ _ => _ | Abort _ => _
                          end] => destruct x
            end;
     first [apply appends_only_refl | apply appends_only_emplace] |].
  all: destruct (String.eqb n "barrier");
    [match goal with
     | |- context [resolve_qubits ?a ?b ?c] =>
         destruct (resolve_qubits a b c)
     end;
     first [apply appends_only_refl | apply appends_only_emplace] |].
  all: destruct (name_in nativelySupportedGates n);
    [repeat match goal with
            | |- context [if ?b then _ else _] => destruct b
            end;
     try apply addQiskitOperation_appends;
     try apply addTwoTargetQiskitOperation_appends;
     try apply appends_only_refl;
     repeat match goal with
            | |- context [match ?x with Some _ => _ | None => _ end] =>
                destruct x
            end;
     first [apply addQiskitOperation_appends | apply appends_only_refl] |].
  - simpl. apply appends_only_report.
  - pose proof (importQiskitDefinition_with_appends
                  (emplaceQiskitOperation getIndexQ getIndexC getNqubits)
                  qs cs data qargs cargs IH st) as Hd.
    destruct (importQiskitDefinition_with _ _ _ _ _) as [st' r].
    simpl in Hd. destruct r; try exact Hd.
    apply (appends_only_trans _ _ _ Hd). apply appends_only_report.
Qed.

(** Whatever the instruction, its arguments and the state of the bridge,
    [emplaceQiskitOperation] only appends: the circuit it leaves is the
    circuit it found with operations added at the end, and [cerr] is what
    it was with lines added. It never changes the qubit count, a register
    table or a permutation, and never takes an operation back, also when
    the translation fails midway. For an instruction that is not
    translated directly, a Python exception never leaves the call. *)
Theorem emplaceQiskitOperation_only_appends (instruction : Instruction)
    (qargs cargs : list PyBit) (params : list Q) (st : BridgeState) :
  exists st' r,
    emplaceQiskitOperation getIndexQ getIndexC getNqubits instruction qargs
      cargs params st = (st', r) /\
    appends_only st st' /\
    (directly_translated (inst_name instruction) = false ->
     forall what, r <> PyRaise what).
Proof.
  pose proof (emplaceQiskitOperation_appends instruction qargs cargs
                params st) as Hfst.
  destruct (emplaceQiskitOperation _ _ _ instruction qargs cargs params st)
    as [st' r] eqn:E.
  exists st', r. split; [reflexivity |]. split; [exact Hfst |].
  intros Hd what ->. unfold directly_translated in Hd.
  apply orb_false_iff in Hd. destruct Hd as [Hd Ht].
  apply orb_false_iff in Hd. destruct Hd as [Hm Hb].
  destruct instruction as [n ps d]. cbn [inst_name] in Hm, Hb, Ht.
  cbn [emplaceQiskitOperation] in E. rewrite Hm, Hb, Ht in E.
  destruct (importQiskitDefinition_with _ _ _ _ _) as [st1 r1].
  destruct r1; discriminate E.
Qed.

End BridgeFrame.

(** ** Arguments of a definition *)

Lemma bind_args_is_Some (formals actuals : list PyBit) :
  forall m,
    (length actuals <= length formals)%nat ->
    is_Some (bind_args formals actuals m).
Proof.
  revert formals. induction actuals as [|a actuals IH]; intros formals m Hl.
  - destruct formals; eexists; reflexivity.
  - destruct formals as [|f formals]; [simpl in Hl; lia |].
    simpl. apply IH. simpl in Hl. lia.
Qed.

Lemma bind_args_frame (actuals : list PyBit) :
  forall formals m m' k,
    bind_args formals actuals m = Some m' ->
    k ∉ formals -> m' !! k = m !! k.
Proof.
  induction actuals as [|a actuals IH]; intros formals m m' k Hb Hk.
  - destruct formals; simpl in Hb; injection Hb as <-; reflexivity.
  - destruct formals as [|f formals]; [discriminate Hb |].
    simpl in Hb. apply not_elem_of_cons in Hk. destruct Hk as [Hne Hk].
    rewrite (IH _ _ _ _ Hb Hk). apply lookup_insert_ne. congruence.
Qed.

Lemma bind_args_lookup (actuals : list PyBit) :
  forall formals m m' f a,
    NoDup formals ->
    bind_args formals actuals m = Some m' ->
    bound_to formals actuals f a -> m' !! f = Some a.
Proof.
  induction actuals as [|a0 actuals IH];
    intros formals m m' f a Hnd Hb (i & Hf & Ha).
  - rewrite lookup_nil in Ha. discriminate Ha.
  - destruct formals as [|f0 formals]; [discriminate Hb |].
    simpl in Hb. apply NoDup_cons in Hnd. destruct Hnd as [Hnotin Hnd].
    destruct i as [|i]; simpl in Hf, Ha.
    + injection Hf as <-. injection Ha as <-.
      rewrite (bind_args_frame _ _ _ _ _ Hb Hnotin).
      apply lookup_insert_eq.
    + apply (IH _ _ _ _ _ Hnd Hb). exists i. split; assumption.
Qed.

Lemma map_args_bound (formals actuals : list PyBit) (m : gmap PyBit PyBit)
    (args mapped : list PyBit) :
  NoDup formals ->
  bind_args formals actuals ∅ = Some m ->
  Forall2 (bound_to formals actuals) args mapped ->
  map_args m args = Some mapped.
Proof.
  intros Hnd Hb Hall. induction Hall as [|f a args mapped Hfa _ IH].
  - reflexivity.
  - simpl. rewrite (bind_args_lookup _ _ _ _ _ _ Hnd Hb Hfa), IH.
    reflexivity.
Qed.

Section DefinitionArguments.

Variable getIndexQ : QuantumComputation -> string * Z -> Outcome Z.
Variable getIndexC : QuantumComputation -> string * Z -> Outcome Z.
Variable getNqubits : QuantumComputation -> Z.

(** Translating a definition substitutes the arguments for the
    definition's own bits, position by position. For a definition whose
    qubits and classical bits are pairwise distinct and at least as many as
    the arguments given, an instruction of the definition that is applied
    to bits of the definition is translated as that instruction applied to
    the arguments at the same positions; the rest of the definition follows
    when that translation returns, and is dropped with its outcome
    otherwise. *)
Theorem importQiskitDefinition_substitutes_arguments
    (def_qubits def_clbits qargs cargs : list PyBit)
    (inst : Instruction) (inst_qargs inst_cargs : list PyBit)
    (mapped_qargs mapped_cargs : list PyBit)
    (rest : list (Instruction * list PyBit * list PyBit))
    (st : BridgeState) :
  NoDup def_qubits -> NoDup def_clbits ->
  (length qargs <= length def_qubits)%nat ->
  (length cargs <= length def_clbits)%nat ->
  Forall2 (bound_to def_qubits qargs) inst_qargs mapped_qargs ->
  Forall2 (bound_to def_clbits cargs) inst_cargs mapped_cargs ->
  importQiskitDefinition getIndexQ getIndexC getNqubits
    (Some (def_qubits, def_clbits, (inst, inst_qargs, inst_cargs) :: rest))
    qargs cargs st
  = match emplaceQiskitOperation getIndexQ getIndexC getNqubits inst
            mapped_qargs mapped_cargs (inst_params inst) st with
    | (st', PyOk) =>
        importQiskitDefinition getIndexQ getIndexC getNqubits
          (Some (def_qubits, def_clbits, rest)) qargs cargs st'
    | r => r
    end.
Proof.
  intros Hndq Hndc Hlq Hlc Hq Hc.
  unfold importQiskitDefinition, importQiskitDefinition_with.
  destruct (bind_args_is_Some def_qubits qargs ∅ Hlq) as [qm Hqm].
  destruct (bind_args_is_Some def_clbits cargs ∅ Hlc) as [cm Hcm].
  rewrite Hqm, Hcm.
  rewrite (map_args_bound _ _ _ _ _ Hndq Hqm Hq).
  rewrite (map_args_bound _ _ _ _ _ Hndc Hcm Hc).
  reflexivity.
Qed.

End DefinitionArguments.

Lemma importQiskitDefinition_substitutes_arguments_witness :
  importQiskitDefinition getIndexFromQubitRegister
    getIndexFromClassicalRegister nqubits
    (Some ([mkBit "d" 0; mkBit "d" 1], [],
           [(mkInstruction "cx" [] None, [mkBit "d" 1; mkBit "d" 0], [])]))
    [mkBit "q" 3; mkBit "q" 4] [] bridge_start
  = match emplaceQiskitOperation getIndexFromQubitRegister
            getIndexFromClassicalRegister nqubits
            (mkInstruction "cx" [] None) [mkBit "q" 4; mkBit "q" 3] []
            (inst_params (mkInstruction "cx" [] None)) bridge_start with
    | (st', PyOk) =>
        importQiskitDefinition getIndexFromQubitRegister
          getIndexFromClassicalRegister nqubits
          (Some ([mkBit "d" 0; mkBit "d" 1], [], []))
          [mkBit "q" 3; mkBit "q" 4] [] st'
    | r => r
    end.
Proof.
  apply (importQiskitDefinition_substitutes_arguments
           getIndexFromQubitRegister getIndexFromClassicalRegister nqubits
           [mkBit "d" 0; mkBit "d" 1] [] [mkBit "q" 3; mkBit "q" 4] []
           (mkInstruction "cx" [] None) [mkBit "d" 1; mkBit "d" 0] []
           [mkBit "q" 4; mkBit "q" 3] [] [] bridge_start).
  - apply NoDup_cons. split; [| apply NoDup_singleton].
    intros Hin. apply list_elem_of_singleton in Hin. discriminate Hin.
  - apply NoDup_nil. exact I.
  - simpl. lia.
  - simpl. lia.
  - constructor; [exists 1%nat; split; reflexivity |].
    constructor; [exists 0%nat; split; reflexivity | constructor].
  - constructor.
Defined.

(** ** Binary labels *)

Lemma list_ascii_of_string_app (s1 s2 : string) :
  String.list_ascii_of_string (String.append s1 s2)
  = String.list_ascii_of_string s1 ++ String.list_ascii_of_string s2.
Proof.
  induction s1 as [|a s1 IH]; simpl; [reflexivity |].
  rewrite IH. reflexivity.
Qed.

Lemma string_append_assoc (s1 s2 s3 : string) :
  String.append (String.append s1 s2) s3
  = String.append s1 (String.append s2 s3).
Proof.
  induction s1 as [|a s1 IH]; [reflexivity |].
  change (String a (String.append (String.append s1 s2) s3)
          = String a (String.append s1 (String.append s2 s3))).
  f_equal. exact IH.
Qed.

Lemma string_length_app (s1 s2 : string) :
  String.length (String.append s1 s2)
  = (String.length s1 + String.length s2)%nat.
Proof.
  induction s1 as [|a s1 IH]; simpl; [reflexivity |].
  rewrite IH. reflexivity.
Qed.

Lemma binary_value_snoc (s : string) (b : Z) :
  0 <= b < 2 ->
  binary_value (String.append s (bit_char b)) = 2 * binary_value s + b.
Proof.
  intros Hb. unfold binary_value.
  rewrite list_ascii_of_string_app, fold_left_app.
  assert (Hc : b = 0 \/ b = 1) by lia.
  destruct Hc as [-> | ->]; simpl; lia.
Qed.

(** With fuel for the bits of [n], the digits written are those of [n]. *)
Lemma printBin_fuel_spec (fuel : nat) :
  forall n ss,
    0 <= n < 2 ^ Z.of_nat (S fuel) ->
    exists digits,
      printBin_fuel (S fuel) n ss = Some (String.append ss digits) /\
      binary_value digits = n /\
      Z.of_nat (String.length digits) = Z.log2 n + 1.
Proof.
  induction fuel as [|fuel IH]; intros n ss Hn.
  - assert (Hc : n = 0 \/ n = 1) by (change (2 ^ Z.of_nat 1) with 2 in Hn; lia).
    destruct Hc as [-> | ->]; simpl; eexists; repeat split.
  - cbn [printBin_fuel]. destruct (1 <? n) eqn:E.
    + apply Z.ltb_lt in E.
      destruct (IH (n / 2) ss) as (d & Hd & Hv & Hl).
      { split; [apply Z.div_pos; lia |].
        apply Z.div_lt_upper_bound; [lia |].
        rewrite <- Z.pow_succ_r by lia. rewrite <- Nat2Z.inj_succ.
        apply Hn. }
      cbn [printBin_fuel] in Hd. rewrite Hd.
      exists (String.append d (bit_char (n mod 2))).
      split; [cbv beta iota; rewrite string_append_assoc; reflexivity |].
      pose proof (Z.mod_pos_bound n 2 ltac:(lia)) as Hm.
      split.
      * rewrite binary_value_snoc by lia. rewrite Hv.
        pose proof (Z.div_mod n 2 ltac:(lia)). lia.
      * rewrite string_length_app, Nat2Z.inj_add, Hl.
        assert (Hlog : Z.log2 n = Z.log2 (n / 2) + 1).
        { rewrite <- Z.div2_div, Z.div2_spec, Z.log2_shiftr by lia.
          pose proof (Z.log2_pos n ltac:(lia)). lia. }
        rewrite Hlog. unfold bit_char. destruct (n mod 2 =? 0); simpl; lia.
    + apply Z.ltb_ge in E.
      assert (Hc : n = 0 \/ n = 1) by lia.
      destruct Hc as [-> | ->]; simpl; eexists; repeat split.
Qed.

(** [printBin] on a 64-bit value appends to the stream the binary digits
    of the value and nothing else: read back as a binary number they give
    the value, and there are exactly [log2 n + 1] of them, so no leading
    zero is written (one digit for 0 and for 1). *)
Theorem printBin_round_trip (n : Z) (ss : string) :
  0 <= n < 2 ^ 64 ->
  exists digits,
    printBin n ss = Some (String.append ss digits) /\
    binary_value digits = n /\
    Z.of_nat (String.length digits) = Z.log2 n + 1.
Proof.
  intros Hn. unfold printBin. apply (printBin_fuel_spec 63).
  change (2 ^ Z.of_nat 64) with (2 ^ 64). exact Hn.
Qed.

Lemma printBin_round_trip_witness :
  exists digits,
    printBin 6 "x" = Some (String.append "x" digits) /\
    binary_value digits = 6 /\
    Z.of_nat (String.length digits) = Z.log2 6 + 1.
Proof. apply (printBin_round_trip 6 "x"). lia. Defined.

(** ** File names *)

Lemma find_last_of_from_absent (ch : ascii) (s : string) :
  forall i found,
    lacks ch s -> find_last_of_from ch s i found = found.
Proof.
  induction s as [|a s IH]; intros i found Hl; [reflexivity |].
  cbn [find_last_of_from]. destruct (Ascii.eqb a ch) eqn:E.
  - apply Ascii.eqb_eq in E. exfalso. apply Hl. left. exact E.
  - apply IH. intros Hin. apply Hl. right. exact Hin.
Qed.

Lemma find_last_of_from_app (ch : ascii) (s1 s2 : string) :
  forall i found,
    find_last_of_from ch (String.append s1 s2) i found
    = find_last_of_from ch s2 (i + Z.of_nat (String.length s1))
        (find_last_of_from ch s1 i found).
Proof.
  induction s1 as [|a s1 IH]; intros i found.
  - simpl. rewrite Z.add_0_r. reflexivity.
  - change (String.append (String a s1) s2)
      with (String a (String.append s1 s2)).
    cbn [find_last_of_from String.length]. rewrite IH. f_equal. lia.
Qed.

(** The last occurrence, when nothing follows it that holds the
    character. *)
Lemma find_last_of_at (ch : ascii) (s1 s2 : string) :
  lacks ch s2 ->
  find_last_of ch (String.append s1 (String ch s2))
  = Z.of_nat (String.length s1).
Proof.
  intros Hl. unfold find_last_of. rewrite find_last_of_from_app.
  cbn [find_last_of_from]. rewrite Ascii.eqb_refl.
  rewrite find_last_of_from_absent by exact Hl. lia.
Qed.

Lemma lacks_app (ch : ascii) (s1 s2 : string) :
  lacks ch s1 -> lacks ch s2 -> lacks ch (String.append s1 s2).
Proof.
  unfold lacks. rewrite list_ascii_of_string_app. intros H1 H2 Hin.
  apply in_app_or in Hin. tauto.
Qed.

Lemma lacks_cons (ch a : ascii) (s : string) :
  a <> ch -> lacks ch s -> lacks ch (String a s).
Proof. intros Hne Hl [Heq | Hin]; [congruence | exact (Hl Hin)]. Qed.

Lemma substring_skip (s1 s : string) (m : nat) :
  String.substring (String.length s1) m (String.append s1 s)
  = String.substring 0 m s.
Proof.
  induction s1 as [|a s1 IH]; [reflexivity |].
  change (String.append (String a s1) s) with (String a (String.append s1 s)).
  cbn [String.length String.substring]. exact IH.
Qed.

Lemma substring_take (s1 s2 : string) :
  String.substring 0 (String.length s1) (String.append s1 s2) = s1.
Proof.
  induction s1 as [|a s1 IH]; [destruct s2; reflexivity |].
  change (String.append (String a s1) s2)
    with (String a (String.append s1 s2)).
  cbn [String.length String.substring]. f_equal. exact IH.
Qed.

Lemma substring_whole (s : string) :
  String.substring 0 (String.length s) s = s.
Proof.
  induction s as [|a s IH]; [reflexivity |].
  cbn [String.length String.substring]. f_equal. exact IH.
Qed.

Lemma join_path_length (prefix stem ext : string) :
  Z.of_nat (String.length (join_path prefix stem ext))
  = Z.of_nat (String.length prefix) + Z.of_nat (String.length stem) + 1
    + Z.of_nat (String.length ext).
Proof.
  unfold join_path. rewrite !string_length_app. cbn [String.length]. lia.
Qed.

(** The last dot of a joined path is the one before the extension. *)
Lemma join_path_dot (prefix stem ext : string) :
  lacks "." ext ->
  find_last_of "." (join_path prefix stem ext)
  = Z.of_nat (String.length prefix) + Z.of_nat (String.length stem).
Proof.
  intros Hl. unfold join_path. rewrite <- string_append_assoc.
  rewrite find_last_of_at by exact Hl.
  rewrite string_length_app. lia.
Qed.

Lemma find_last_of_absent (ch : ascii) (s : string) :
  lacks ch s -> find_last_of ch s = npos.
Proof. intros Hl. apply find_last_of_from_absent, Hl. Qed.

Section FileNames.

Variable identifierMap : string -> option Gate.t.
Variable TOLERANCE : Q.
Variable setNqubits : Z -> Operation -> Operation.

Lemma file_extension_of_join (prefix stem ext : string) :
  lacks "." ext ->
  Z.of_nat (String.length (join_path prefix stem ext)) < 2 ^ 64 ->
  file_extension (join_path prefix stem ext) = transform tolower ext.
Proof.
  intros Hdot Hlen. unfold file_extension, substr.
  rewrite join_path_dot by exact Hdot.
  rewrite join_path_length in *.
  set (lp := Z.of_nat (String.length prefix)) in *.
  set (ls := Z.of_nat (String.length stem)) in *.
  set (le := Z.of_nat (String.length ext)) in *.
  assert (Hp : 0 <= lp) by (unfold lp; lia).
  assert (Hs : 0 <= ls) by (unfold ls; lia).
  assert (He : 0 <= le) by (unfold le; lia).
  rewrite Z.mod_small by lia.
  replace (Z.min npos (lp + ls + 1 + le - (lp + ls + 1))) with le
    by (unfold npos; lia).
  replace (Z.to_nat (lp + ls + 1))
    with (String.length (String.append prefix (String.append stem ".")))
    by (rewrite !string_length_app; cbn [String.length]; unfold lp, ls; lia).
  replace (join_path prefix stem ext)
    with (String.append (String.append prefix (String.append stem "."))
            ext).
  - rewrite substring_skip. unfold le. rewrite Nat2Z.id.
    rewrite substring_whole. reflexivity.
  - unfold join_path. rewrite !string_append_assoc. reflexivity.
Qed.

Lemma file_stem_of_join (prefix stem ext : string) :
  prefix = EmptyString \/
    (exists dir, prefix = String.append dir "/") ->
  lacks "/" stem -> lacks "/" ext -> lacks "." ext ->
  Z.of_nat (String.length (join_path prefix stem ext)) < 2 ^ 64 ->
  file_stem (join_path prefix stem ext) = stem.
Proof.
  intros Hprefix Hs1 Hs2 Hdot Hlen. unfold file_stem, substr.
  rewrite join_path_dot by exact Hdot.
  assert (Hrest : lacks "/" (String.append stem (String "." ext))).
  { apply lacks_app; [exact Hs1 |]. apply lacks_cons; [discriminate |].
    exact Hs2. }
  assert (Hslash :
    (find_last_of "/" (join_path prefix stem ext) + 1) mod 2 ^ 64
    = Z.of_nat (String.length prefix) /\
    (Z.of_nat (String.length prefix) + Z.of_nat (String.length stem)
     - find_last_of "/" (join_path prefix stem ext) - 1) mod 2 ^ 64
    = Z.of_nat (String.length stem)).
  { rewrite join_path_length in Hlen.
    destruct Hprefix as [-> | [dir ->]].
    - unfold join_path. change (String.append "" ?x) with x.
      rewrite find_last_of_absent by exact Hrest.
      cbn [String.length]. unfold npos. split.
      + reflexivity.
      + replace (Z.of_nat 0 + Z.of_nat (String.length stem)
                 - (2 ^ 64 - 1) - 1)
          with (Z.of_nat (String.length stem) + (-1) * 2 ^ 64) by lia.
        rewrite Z.mod_add by lia. apply Z.mod_small.
        cbn [String.length] in Hlen. lia.
    - unfold join_path. rewrite string_append_assoc.
      change (String.append "/" ?x) with (String "/" x).
      rewrite find_last_of_at by exact Hrest.
      rewrite string_length_app in *. cbn [String.length] in *.
      split.
      + rewrite Z.mod_small by lia. lia.
      + replace (Z.of_nat (String.length dir + 1)
                 + Z.of_nat (String.length stem)
                 - Z.of_nat (String.length dir) - 1)
          with (Z.of_nat (String.length stem)) by lia.
        apply Z.mod_small. lia. }
  destruct Hslash as [-> ->].
  rewrite join_path_length.
  replace (Z.min (Z.of_nat (String.length stem))
             (Z.of_nat (String.length prefix)
              + Z.of_nat (String.length stem) + 1
              + Z.of_nat (String.length ext)
              - Z.of_nat (String.length prefix)))
    with (Z.of_nat (String.length stem)) by lia.
  rewrite !Nat2Z.id. unfold join_path.
  rewrite substring_skip. apply substring_take.
Qed.

(** [import(filename)] on a file name made of a directory prefix, a stem
    without slash and an extension without dot and without slash (the name
    shorter than [2^64] characters): the name given to the circuit is the
    stem, and this is the name of the circuit on which the reader runs;
    the reader is chosen by the extension whatever its case, REAL for
    [real], OpenQASM for [qasm], grid-benchmark for [txt]; any other
    extension exits with code 1 before the file is opened. *)
Theorem import_file_by_extension (prefix stem ext : string)
    (file : option File) (c : QuantumComputation) :
  prefix = EmptyString \/
    (exists dir, prefix = String.append dir "/") ->
  lacks "/" stem -> lacks "/" ext -> lacks "." ext ->
  Z.of_nat (String.length (join_path prefix stem ext)) < 2 ^ 64 ->
  file_stem (join_path prefix stem ext) = stem /\
  import_file identifierMap TOLERANCE setNqubits
    (join_path prefix stem ext) file c
  = (let go := import_as identifierMap TOLERANCE setNqubits
                 (join_path prefix stem ext) file in
     if String.eqb (transform tolower ext) "real" then go Real c
     else if String.eqb (transform tolower ext) "qasm" then go OpenQASM c
     else if String.eqb (transform tolower ext) "txt" then go GRCS c
     else Exit 1 "Extension not recognized.") /\
  forall format c',
    import_as identifierMap TOLERANCE setNqubits
      (join_path prefix stem ext) file format c = Done c' ->
    exists f c0, file = Some f /\ name c0 = stem /\
      match format with
      | Real => importReal identifierMap TOLERANCE (file_text f) c0
      | OpenQASM => importOpenQASM setNqubits (file_program f) c0
      | GRCS => importGRCS (file_text f) c0
      | Qiskit => Exit 1 "Format not yet supported."
      end = Done c'.
Proof.
  intros Hprefix Hs1 Hs2 Hdot Hlen.
  pose proof (file_stem_of_join _ _ _ Hprefix Hs1 Hs2 Hdot Hlen) as Hstem.
  split; [exact Hstem |]. split.
  - unfold import_file.
    rewrite (file_extension_of_join _ _ _ Hdot Hlen). reflexivity.
  - intros format c' Hr. unfold import_as in Hr. rewrite Hstem in Hr.
    destruct file as [f|]; [| discriminate Hr].
    destruct format.
    + exists f, (set_name stem c). repeat split. exact Hr.
    + exists f, (updateMaxControls 2 (set_name stem c)).
      repeat split. exact Hr.
    + exists f, (set_name stem c). repeat split. exact Hr.
    + discriminate Hr.
Qed.

(** A file name without any dot has no extension to look at:
    [find_last_of] returns [npos], [npos + 1] wraps to 0, and the whole
    name, lower-cased, is taken as the extension. So a dotless name is
    refused unless the name itself is an extension, as [real] or [QASM]
    are. *)
Theorem import_file_without_dot (filename : string) (file : option File)
    (c : QuantumComputation) :
  lacks "." filename ->
  Z.of_nat (String.length filename) < 2 ^ 64 ->
  file_extension filename = transform tolower filename /\
  (transform tolower filename <> "real"%string ->
   transform tolower filename <> "qasm"%string ->
   transform tolower filename <> "txt"%string ->
   import_file identifierMap TOLERANCE setNqubits filename file c
   = Exit 1 "Extension not recognized.").
Proof.
  intros Hdot Hlen.
  assert (Hext : file_extension filename = transform tolower filename).
  { unfold file_extension, substr.
    rewrite find_last_of_absent by exact Hdot.
    change ((npos + 1) mod 2 ^ 64) with 0.
    replace (Z.min npos (Z.of_nat (String.length filename) - 0))
      with (Z.of_nat (String.length filename)) by (unfold npos; lia).
    rewrite Nat2Z.id. change (Z.to_nat 0) with 0%nat.
    rewrite substring_whole. reflexivity. }
  split; [exact Hext |]. intros Hr Hq Ht. unfold import_file.
  rewrite Hext.
  destruct (String.eqb_spec (transform tolower filename) "real");
    [contradiction |].
  destruct (String.eqb_spec (transform tolower filename) "qasm");
    [contradiction |].
  destruct (String.eqb_spec (transform tolower filename) "txt");
    [contradiction |].
  reflexivity.
Qed.

End FileNames.

Lemma import_file_by_extension_witness :
  file_stem (join_path "bench/" "toffoli" "REAL") = "toffoli"%string /\
  import_file sample_identifierMap sample_TOLERANCE op_setNqubits
    (join_path "bench/" "toffoli" "REAL") (Some real_toffoli_fredkin_file)
    emptyQC
  = (let go := import_as sample_identifierMap sample_TOLERANCE op_setNqubits
                 (join_path "bench/" "toffoli" "REAL")
                 (Some real_toffoli_fredkin_file) in
     if String.eqb (transform tolower "REAL") "real" then go Real emptyQC
     else if String.eqb (transform tolower "REAL") "qasm"
     then go OpenQASM emptyQC
     else if String.eqb (transform tolower "REAL") "txt" then go GRCS emptyQC
     else Exit 1 "Extension not recognized.") /\
  forall format c',
    import_as sample_identifierMap sample_TOLERANCE op_setNqubits
      (join_path "bench/" "toffoli" "REAL")
      (Some real_toffoli_fredkin_file) format emptyQC = Done c' ->
    exists f c0, Some real_toffoli_fredkin_file = Some f /\
      name c0 = "toffoli"%string /\
      match format with
      | Real =>
          importReal sample_identifierMap sample_TOLERANCE (file_text f) c0
      | OpenQASM => importOpenQASM op_setNqubits (file_program f) c0
      | GRCS => importGRCS (file_text f) c0
      | Qiskit => Exit 1 "Format not yet supported."
      end = Done c'.
Proof.
  apply (import_file_by_extension sample_identifierMap sample_TOLERANCE
           op_setNqubits "bench/" "toffoli" "REAL"
           (Some real_toffoli_fredkin_file) emptyQC).
  - right. exists "bench"%string. reflexivity.
  - unfold lacks. simpl. intuition discriminate.
  - unfold lacks. simpl. intuition discriminate.
  - unfold lacks. simpl. intuition discriminate.
  - vm_compute. reflexivity.
Defined.

Lemma import_file_without_dot_witness :
  file_extension "Makefile" = transform tolower "Makefile" /\
  (transform tolower "Makefile" <> "real"%string ->
   transform tolower "Makefile" <> "qasm"%string ->
   transform tolower "Makefile" <> "txt"%string ->
   import_file sample_identifierMap sample_TOLERANCE op_setNqubits
     "Makefile" (Some real_toffoli_fredkin_file) emptyQC
   = Exit 1 "Extension not recognized.").
Proof.
  apply (import_file_without_dot sample_identifierMap sample_TOLERANCE
           op_setNqubits "Makefile" (Some real_toffoli_fredkin_file)
           emptyQC).
  - unfold lacks. simpl. intuition discriminate.
  - vm_compute. reflexivity.
Defined.

(** ** The gate pattern of the REAL format *)

Lemma span_digits_spec (l : list ascii) :
  forall ds r,
    span_digits l = (ds, r) -> l = ds ++ r /\ forallb is_digit ds = true.
Proof.
  induction l as [|a l IH]; intros ds r Hs; simpl in Hs.
  - injection Hs as <- <-. split; reflexivity.
  - destruct (is_digit a) eqn:E.
    + destruct (span_digits l) as [ds' r'].
      injection Hs as <- <-. destruct (IH ds' r' eq_refl) as [-> Hd].
      split; [reflexivity |]. simpl. rewrite E, Hd. reflexivity.
    + injection Hs as <- <-. split; reflexivity.
Qed.

Lemma literal_ok_nonempty (l : list ascii) : literal_ok l = true -> l <> [].
Proof. intros H ->. discriminate H. Qed.

Lemma string_of_list_ascii_app (l1 l2 : list ascii) :
  String.string_of_list_ascii (l1 ++ l2)
  = String.append (String.string_of_list_ascii l1)
      (String.string_of_list_ascii l2).
Proof.
  induction l1 as [|a l1 IH]; [reflexivity |].
  simpl. rewrite IH. reflexivity.
Qed.

Lemma string_of_list_ascii_nil (l : list ascii) :
  String.string_of_list_ascii l = EmptyString -> l = [].
Proof. destruct l; [reflexivity | discriminate]. Qed.

(** Groups 2 and 3 and what they leave out: the colon. *)
Lemma match_suffix_spec (l : list ascii) (g2 g3 : string) :
  match_suffix l = Some (g2, g3) ->
  String.string_of_list_ascii l
  = String.append g2
      (if String.eqb g3 "" then EmptyString else String ":" g3) /\
  forallb is_digit (String.list_ascii_of_string g2) = true.
Proof.
  unfold match_suffix. destruct (span_digits l) as [ds r] eqn:E.
  apply span_digits_spec in E. destruct E as [-> Hd].
  destruct r as [|a lit].
  - intros Hr. injection Hr as <- <-.
    rewrite String.list_ascii_of_string_of_list_ascii.
    split; [| exact Hd]. rewrite string_of_list_ascii_app. reflexivity.
  - destruct (Ascii.eqb a ":") eqn:Ea; [| discriminate].
    destruct (literal_ok lit) eqn:El; [| discriminate].
    cbn [andb]. intros Hr. injection Hr as <- <-.
    rewrite String.list_ascii_of_string_of_list_ascii.
    split; [| exact Hd]. apply Ascii.eqb_eq in Ea. subst a.
    rewrite string_of_list_ascii_app. f_equal.
    destruct (String.eqb_spec (String.string_of_list_ascii lit) "")
      as [Hnil | _]; [| reflexivity].
    apply string_of_list_ascii_nil in Hnil.
    apply literal_ok_nonempty in El. contradiction.
Qed.

Lemma with_ident_spec (ident suffix : list ascii) (g1 g2 g3 : string) :
  with_ident ident suffix = Some (g1, g2, g3) ->
  g1 = String.string_of_list_ascii ident /\
  match_suffix suffix = Some (g2, g3).
Proof.
  unfold with_ident. destruct (match_suffix suffix) as [[h2 h3]|];
    [| discriminate].
  intros Hr. injection Hr as <- <- <-. split; reflexivity.
Qed.

(** A token that the gate pattern accepts is its three groups in a row,
    with a colon before the third when there is one: the identifier of one
    or two characters, a run of decimal digits (possibly empty), and the
    literal. Nothing of the token is left out, so the control count and the
    parameter of a gate line are read from the whole of what follows the
    identifier. *)
Theorem gateRegex_match_groups (cmd m1 m2 m3 : string) :
  gateRegex_match cmd = Some (m1, m2, m3) ->
  cmd = String.append m1
          (String.append m2
             (if String.eqb m3 "" then EmptyString else String ":" m3)) /\
  (1 <= String.length m1 <= 2)%nat /\
  forallb is_digit (String.list_ascii_of_string m2) = true.
Proof.
  unfold gateRegex_match.
  rewrite <- (String.string_of_list_ascii_of_string cmd) at 4.
  generalize (String.list_ascii_of_string cmd). intros l Hm.
  assert (Hone : forall ident suffix,
            l = ident ++ suffix ->
            (1 <= length ident <= 2)%nat ->
            with_ident ident suffix = Some (m1, m2, m3) ->
            String.string_of_list_ascii l
            = String.append m1
                (String.append m2
                   (if String.eqb m3 "" then EmptyString
                    else String ":" m3)) /\
            (1 <= String.length m1 <= 2)%nat /\
            forallb is_digit (String.list_ascii_of_string m2) = true).
  { intros ident suffix -> Hlen Hw. apply with_ident_spec in Hw.
    destruct Hw as [-> Hs]. apply match_suffix_spec in Hs.
    destruct Hs as [Hs Hd]. rewrite string_of_list_ascii_app, Hs.
    split; [reflexivity |]. split; [| exact Hd].
    clear - Hlen. revert Hlen.
    generalize ident. induction ident0 as [|a i IH]; [simpl; lia |].
    destruct i as [|b i]; [simpl; lia |].
    destruct i; simpl; lia. }
  destruct l as [|a rest]; [discriminate Hm |].
  unfold first_some in Hm.
  repeat match type of Hm with
         | context [match ?x with Some _ => _ | None => _ end] =>
             let E := fresh "E" in destruct x eqn:E
         end;
    try discriminate Hm; subst;
    repeat match goal with
           | H : Some _ = Some _ |- _ => injection H as ->
           | H : match ?r with [] => _ | _ :: _ => _ end = Some _ |- _ =>
               destruct r
           | H : (if ?b then _ else _) = Some _ |- _ => destruct b
           | H : None = Some _ |- _ => discriminate H
           | H : with_ident ?i ?s = Some _ |- _ =>
               apply (Hone i s) in H; [exact H | reflexivity | simpl; lia]
           end.
Qed.

Lemma gateRegex_match_groups_witness :
  "rz2:0.5"%string
  = String.append "rz"
      (String.append "2"
         (if String.eqb "0.5" "" then EmptyString else String ":" "0.5")) /\
  (1 <= String.length "rz" <= 2)%nat /\
  forallb is_digit (String.list_ascii_of_string "2") = true.
Proof. apply (gateRegex_match_groups "rz2:0.5" "rz" "2" "0.5"). reflexivity. Defined.

(** ** Register names for the dumps *)

Lemma reg_block_length (n : string) (o c : Z) :
  length (reg_block n o c) = Z.to_nat c.
Proof. unfold reg_block. rewrite length_map, length_seq. reflexivity. Qed.

Lemma reg_block_lookup (n : string) (o c j : Z) :
  0 <= j < c ->
  reg_block n o c !! Z.to_nat j = Some (n, reg_label n (o + j)).
Proof.
  intros Hj. unfold reg_block. rewrite list_lookup_fmap.
  rewrite lookup_seq_lt by lia. simpl. rewrite Z2Nat.id by lia.
  reflexivity.
Qed.

Lemma block_sizes_nonneg (l : list (string * (Z * Z))) (from : Z) :
  consecutive l from -> 0 <= block_sizes l.
Proof.
  revert from. induction l as [|reg l IH]; intros from Hc; simpl; [lia |].
  destruct Hc as (_ & Hs & Hc). specialize (IH _ Hc). lia.
Qed.

Lemma blocks_length (f : string * (Z * Z) -> string)
    (g : string * (Z * Z) -> Z) (l : list (string * (Z * Z))) (from : Z) :
  consecutive l from ->
  length (flat_map (fun reg => reg_block (f reg) (g reg) reg.2.2) l)
  = Z.to_nat (block_sizes l).
Proof.
  revert from. induction l as [|reg l IH]; intros from Hc; [reflexivity |].
  destruct Hc as (_ & Hs & Hc). cbn [flat_map block_sizes foldr].
  rewrite length_app, reg_block_length, (IH _ Hc).
  pose proof (block_sizes_nonneg _ _ Hc). fold (block_sizes l). lia.
Qed.

(** In a consecutive layout the entry at position [k - from] belongs to
    the register that holds [k]. *)
Lemma blocks_lookup (ds : string) (l : list (string * (Z * Z))) :
  forall from,
    consecutive l from ->
    forall k, from <= k < from + block_sizes l ->
      exists reg,
        reg ∈ l /\ reg.2.1 <= k < reg.2.1 + reg.2.2 /\
        flat_map (fun reg => reg_block reg.1 0 reg.2.2) l
          !! Z.to_nat (k - from)
        = Some (reg.1, reg_label reg.1 (k - reg.2.1)) /\
        flat_map (fun reg => reg_block ds reg.2.1 reg.2.2) l
          !! Z.to_nat (k - from)
        = Some (ds, reg_label ds k).
Proof.
  induction l as [|reg l IH]; intros from Hc k Hk; [simpl in Hk; lia |].
  destruct Hc as (Hstart & Hs & Hc).
  cbn [flat_map block_sizes foldr] in *. fold (block_sizes l) in Hk.
  destruct (decide (k < from + reg.2.2)) as [Hlt | Hge].
  - exists reg. split; [apply list_elem_of_here |]. split; [lia |].
    rewrite !lookup_app_l by (rewrite reg_block_length; lia).
    rewrite !reg_block_lookup by lia. split; repeat f_equal; lia.
  - destruct (IH _ Hc k ltac:(lia)) as (r & Hin & Hr & H1 & H2).
    exists r. split; [apply list_elem_of_further, Hin |].
    split; [exact Hr |].
    rewrite !lookup_app_r by (rewrite reg_block_length; lia).
    rewrite !reg_block_length.
    replace (Z.to_nat (k - from) - Z.to_nat reg.2.2)%nat
      with (Z.to_nat (k - (from + reg.2.2))) by lia.
    split; assumption.
Qed.

Lemma in_key_order_elem (regs : gmap string (Z * Z))
    (reg : string * (Z * Z)) :
  reg ∈ in_key_order regs -> regs !! reg.1 = Some reg.2.
Proof.
  unfold in_key_order. rewrite merge_sort_Permutation.
  destruct reg as [n r]. apply elem_of_map_to_list.
Qed.

Lemma in_key_order_empty : in_key_order ∅ = [].
Proof. unfold in_key_order. rewrite map_to_list_empty. reflexivity. Qed.

(** When the registers, taken by ascending name, lie one after the other
    from qubit 0 on, [create_reg_array] labels every qubit by its place:
    entry [k] of the plain array is the register that holds qubit [k] with
    the offset of [k] in it, and entry [k] of the fused array is the
    default name with the index [k] itself. The fused array is twice as
    long as the plain one: the plain entries follow the fused ones. (The
    array follows the names, not the starts: registers laid out in another
    order get the labels of other qubits.) *)
Theorem create_reg_array_labels (regs : gmap string (Z * Z))
    (defaultnumber : Z) (defaultname : ascii) (k : Z) :
  consecutive (in_key_order regs) 0 ->
  0 <= k < block_sizes (in_key_order regs) ->
  exists name reg,
    regs !! name = Some reg /\ reg.1 <= k < reg.1 + reg.2 /\
    create_reg_array regs defaultnumber defaultname false !! Z.to_nat k
    = Some (name, reg_label name (k - reg.1)) /\
    create_reg_array regs defaultnumber defaultname true !! Z.to_nat k
    = Some (String defaultname EmptyString,
            reg_label (String defaultname EmptyString) k) /\
    length (create_reg_array regs defaultnumber defaultname true)
    = (2 * length (create_reg_array regs defaultnumber defaultname false))%nat.
Proof.
  intros Hc Hk.
  assert (Hne : regs <> ∅).
  { intros ->. rewrite in_key_order_empty in Hk. simpl in Hk. lia. }
  destruct (blocks_lookup (String defaultname EmptyString) _ 0 Hc k
              ltac:(lia)) as (r & Hin & Hr & H1 & H2).
  rewrite Z.sub_0_r in H1, H2.
  exists r.1, r.2. split; [apply in_key_order_elem, Hin |].
  split; [exact Hr |].
  unfold create_reg_array. rewrite (bool_decide_eq_false_2 _ Hne).
  cbn [andb negb app]. split; [exact H1 |]. split.
  - rewrite lookup_app_l; [exact H2 |].
    rewrite (blocks_length _ _ _ _ Hc). lia.
  - rewrite length_app.
    rewrite (blocks_length (fun _ => String defaultname EmptyString)
               (fun reg => reg.2.1) _ _ Hc).
    rewrite (blocks_length (fun reg => reg.1) (fun _ => 0) _ _ Hc). lia.
Qed.

Lemma in_key_order_three_variables :
  in_key_order (qregs three_variables)
  = [("a", (0, 1)); ("b", (1, 1)); ("c", (2, 1))]%string.
Proof. vm_compute. reflexivity. Qed.

Lemma create_reg_array_labels_witness :
  exists name reg,
    qregs three_variables !! name = Some reg /\
    reg.1 <= 1 < reg.1 + reg.2 /\
    create_reg_array (qregs three_variables) 3 "q" false !! Z.to_nat 1
    = Some (name, reg_label name (1 - reg.1)) /\
    create_reg_array (qregs three_variables) 3 "q" true !! Z.to_nat 1
    = Some (String "q" EmptyString, reg_label (String "q" EmptyString) 1) /\
    length (create_reg_array (qregs three_variables) 3 "q" true)
    = (2 * length (create_reg_array (qregs three_variables) 3 "q" false))%nat.
Proof.
  apply (create_reg_array_labels (qregs three_variables) 3 "q" 1).
  - rewrite in_key_order_three_variables. simpl. lia.
  - rewrite in_key_order_three_variables. simpl. lia.
Defined.

(** ** Directly translated instructions *)

Section BridgeDirect.

Variable getIndexQ : QuantumComputation -> string * Z -> Outcome Z.
Variable getIndexC : QuantumComputation -> string * Z -> Outcome Z.
Variable getNqubits : QuantumComputation -> Z.

Lemma addQiskitOperation_one (type : OpType.t) (qargs : list PyBit)
    (params : list Q) (st st' : BridgeState) :
  addQiskitOperation getIndexQ getNqubits type qargs params st
  = (st', PyOk) ->
  exists op, st' = bridge_emplace op st /\
             op_nqubits op = getNqubits (qc st).
Proof.
  unfold addQiskitOperation.
  destruct (resolve_qubits getIndexQ (qc st) qargs) as [qubits | |];
    try discriminate.
  destruct qubits; [discriminate |].
  destruct (read_params params) as [[la ph] th].
  intros Hr. injection Hr as <-. eexists. split; reflexivity.
Qed.

Lemma addTwoTargetQiskitOperation_one (type : OpType.t)
    (qargs : list PyBit) (params : list Q) (st st' : BridgeState) :
  addTwoTargetQiskitOperation getIndexQ getNqubits type qargs params st
  = (st', PyOk) ->
  exists op, st' = bridge_emplace op st /\
             op_nqubits op = getNqubits (qc st).
Proof.
  unfold addTwoTargetQiskitOperation.
  destruct (resolve_qubits getIndexQ (qc st) qargs) as [qubits | |];
    try discriminate.
  destruct qubits as [|q qubits]; [discriminate |].
  destruct (removelast (q :: qubits)); [discriminate |].
  destruct (read_params params) as [[la ph] th].
  intros Hr. injection Hr as <-. eexists. split; reflexivity.
Qed.

(** No gate of the supported table is passed over in silence. When
    [emplaceQiskitOperation] returns normally from an instruction that it
    translates directly (a measurement, a barrier or a name of
    [nativelySupportedGates]), exactly one operation was appended, of the
    width [getNqubits()] gives: every name of the table is met by a branch
    of the chain of comparisons that follows it. *)
Theorem directly_translated_appends_one (instruction : Instruction)
    (qargs cargs : list PyBit) (params : list Q) (st st' : BridgeState) :
  directly_translated (inst_name instruction) = true ->
  emplaceQiskitOperation getIndexQ getIndexC getNqubits instruction qargs
    cargs params st = (st', PyOk) ->
  exists op, st' = bridge_emplace op st /\
             op_nqubits op = getNqubits (qc st).
Proof.
  destruct instruction as [n ps d]. cbn [inst_name].
  unfold directly_translated. intros Hd. cbn [emplaceQiskitOperation].
  destruct (String.eqb n "measure") eqn:Em.
  { destruct qargs as [|qubit ?], cargs as [|clbit ?]; try discriminate.
    destruct (getIndexQ _ _); try discriminate;
      destruct (getIndexC _ _); try discriminate.
    intros Hr. injection Hr as <-. eexists. split; reflexivity. }
  destruct (String.eqb n "barrier") eqn:Eb.
  { destruct (resolve_qubits _ _ _); try discriminate.
    intros Hr. injection Hr as <-. eexists. split; reflexivity. }
  cbn [orb] in Hd. rewrite Hd.
  repeat match goal with
         | |- (if ?b then _ else _) = _ -> _ =>
             let E := fresh "E" in destruct b eqn:E
         end;
    try apply addQiskitOperation_one;
    try apply addTwoTargetQiskitOperation_one.
  - destruct (py_pop qargs); [apply addQiskitOperation_one | discriminate].
  - destruct (py_pop_n _ qargs);
      [apply addQiskitOperation_one | discriminate].
  - exfalso. unfold name_in, nativelySupportedGates in Hd.
    cbn [existsb] in Hd.
    repeat match goal with
           | H : (_ || _) = false |- _ =>
               apply orb_false_iff in H; destruct H
           end.
    repeat match goal with
           | H : String.eqb n _ = false |- _ => rewrite H in Hd; clear H
           end.
    discriminate Hd.
Qed.

End BridgeDirect.

Lemma directly_translated_appends_one_witness :
  exists op,
    (bridge_emplace
       (StandardOperation 5 [as_control 0] [1] (OfOpType OpType.X) fp0 fp0
          fp0) bridge_start)
    = bridge_emplace op bridge_start /\
    op_nqubits op = nqubits (qc bridge_start).
Proof.
  apply (directly_translated_appends_one getIndexFromQubitRegister
           getIndexFromClassicalRegister nqubits
           (mkInstruction "cx" [] None) [mkBit "q" 0; mkBit "q" 1] [] []
           bridge_start).
  - reflexivity.
  - reflexivity.
Defined.

(** ** A REAL header that declares its variables *)

Lemma read_variables_line (vars : list string) :
  forall i more rest c,
    NoDup vars ->
    (forall v, v ∈ vars -> qregs c !! v = None) ->
    exists c',
      read_variables (length vars) i ((vars ++ more) :: rest) c
      = Done (more :: rest, c') /\
      nqubits c' = nqubits c /\ nclassics c' = nclassics c /\
      ops c' = ops c /\
      (forall j v, vars !! j = Some v ->
         qregs c' !! v = Some (i + Z.of_nat j, 1)) /\
      (forall x, x ∉ vars -> qregs c' !! x = qregs c !! x).
Proof.
  induction vars as [|v vars IH]; intros i more rest c Hnd Hfresh.
  - exists c. simpl. repeat split. intros j v Hj.
    rewrite lookup_nil in Hj. discriminate Hj.
  - apply NoDup_cons in Hnd. destruct Hnd as [Hnotin Hnd].
    cbn [length read_variables app read_token].
    set (c1 := set_perms _ _ _).
    destruct (IH (i + 1) more rest c1 Hnd) as (c' & Hr & Hn & Hnc & Hops & Hq & Hother).
    { intros x Hx. simpl. unfold map_insert_new.
      rewrite (Hfresh v) by apply list_elem_of_here.
      rewrite lookup_insert_ne.
      - apply Hfresh. apply list_elem_of_further, Hx.
      - intros <-. contradiction. }
    exists c'. split; [exact Hr |]. split; [exact Hn |].
    split; [exact Hnc |]. split; [exact Hops |]. split.
    + intros j x Hj. destruct j as [|j]; simpl in Hj.
      * injection Hj as <-. rewrite (Hother v Hnotin). simpl.
        unfold map_insert_new.
        rewrite (Hfresh v) by apply list_elem_of_here.
        rewrite lookup_insert_eq. f_equal. f_equal. lia.
      * rewrite (Hq j x Hj). f_equal. f_equal. lia.
    + intros x Hx. apply not_elem_of_cons in Hx. destruct Hx as [Hne Hx].
      rewrite (Hother x Hx). simpl. unfold map_insert_new.
      rewrite (Hfresh v) by apply list_elem_of_here.
      apply lookup_insert_ne. congruence.
Qed.

(** A well-formed header, read into a circuit without registers and
    without permutation entries. *)
Lemma readRealHeader_well_formed (sn : string)
    (vars : list string) (body : istream) (c : QuantumComputation) :
  numeral sn = Some (Z.of_nat (length vars)) ->
  Z.of_nat (length vars) < 65536 ->
  NoDup vars ->
  qregs c = ∅ -> inputPermutation c = ∅ -> outputPermutation c = ∅ ->
  exists c',
    readRealHeader
      ([".numvars"; sn] :: (".variables" :: vars) :: [".begin"] :: body)%string
      c
    = Done ([] :: body, c') /\
    nqubits c' = Z.of_nat (length vars) /\
    nclassics c' = Z.of_nat (length vars) /\
    ops c' = ops c /\
    (forall j v, vars !! j = Some v ->
       qregs c' !! v = Some (Z.of_nat j, 1)) /\
    (forall x, x ∉ vars -> qregs c' !! x = None) /\
    covered 0 (nqubits c') (qregs c') /\
    identity_over (nqubits c') (inputPermutation c') /\
    identity_over (nqubits c') (outputPermutation c').
Proof.
  intros Hsn Hlt Hnd Hq Hi Ho.
  set (n := Z.of_nat (length vars)) in *.
  set (ins := ([".numvars"; sn] :: (".variables" :: vars)
               :: [".begin"] :: body)%string).
  rewrite <- (readRealHeader_rounds (S (S (S (S (token_count ins))))))
    by lia.
  cbn [readRealHeader_loop].
  unfold ins at 1. cbn [read_token].
  change (transform toupper ".numvars") with ".NUMVARS"%string.
  cbn [front Ascii.eqb String.eqb negb orb andb Bool.eqb].
  rewrite Hsn.
  destruct (n <? 65536) eqn:E; [| apply Z.ltb_ge in E; lia].
  cbn [read_token].
  change (transform toupper ".variables") with ".VARIABLES"%string.
  cbn [front Ascii.eqb String.eqb negb orb andb Bool.eqb].
  set (c1 := set_nclassics n (set_nqubits n c)).
  change (nqubits c1) with n. unfold n at 1. rewrite Nat2Z.id.
  destruct (read_variables_line vars 0 [] ([".begin"%string] :: body) c1 Hnd)
    as (c' & Hr & Hn & Hnc & Hops & Hregs & Hother).
  { intros v _. simpl. rewrite Hq. apply lookup_empty. }
  rewrite app_nil_r in Hr. rewrite Hr.
  cbn [read_token].
  change (transform toupper ".begin") with ".BEGIN"%string.
  cbn [front Ascii.eqb String.eqb negb orb andb Bool.eqb].
  exists c'. split; [reflexivity |].
  change (nqubits c1) with n in Hn. change (nclassics c1) with n in Hnc.
  rewrite Hn. split; [reflexivity |]. split; [exact Hnc |].
  split; [exact Hops |]. split.
  { intros j v Hj. rewrite (Hregs j v Hj). f_equal. }
  split.
  { intros x Hx. rewrite (Hother x Hx). simpl. rewrite Hq.
    apply lookup_empty. }
  split.
  { intros i Hi'.
    destruct (lookup_lt_is_Some_2 vars (Z.to_nat i) ltac:(lia)) as [v Hv].
    exists v, (i, 1). split.
    - rewrite (Hregs _ _ Hv). f_equal. f_equal. lia.
    - apply reg_contains_spec. simpl. lia. }
  assert (Hperm : read_variables (Z.to_nat (nqubits c1)) 0
                    (vars :: [".begin"%string] :: body) c1
                  = Done ([] :: [".begin"%string] :: body, c')).
  { change (nqubits c1) with n. unfold n. rewrite Nat2Z.id. exact Hr. }
  apply read_variables_permutations in Hperm; try assumption.
  - rewrite <- Hn. exact Hperm.
  - simpl. lia.
Qed.

(** The header [.numvars n], [.variables v1 ... vn], [.begin], with
    pairwise distinct variables, read into a circuit without registers and
    without permutation entries: the reader stops behind [.begin], the
    qubit count and the classical count are [n], variable number [j] is a
    register of one qubit at index [j], every index below [n] lies in a
    register, and both permutations are the identity on exactly the indices
    below [n]. *)
Theorem readRealHeader_declares_variables (sn : string)
    (vars : list string) (body : istream) (c : QuantumComputation) :
  numeral sn = Some (Z.of_nat (length vars)) ->
  Z.of_nat (length vars) < 65536 ->
  NoDup vars ->
  qregs c = ∅ -> inputPermutation c = ∅ -> outputPermutation c = ∅ ->
  exists c',
    readRealHeader
      ([".numvars"; sn] :: (".variables" :: vars) :: [".begin"] :: body)%string
      c
    = Done ([] :: body, c') /\
    nqubits c' = Z.of_nat (length vars) /\
    nclassics c' = Z.of_nat (length vars) /\
    ops c' = ops c /\
    (forall j v, vars !! j = Some v ->
       qregs c' !! v = Some (Z.of_nat j, 1)) /\
    covered 0 (nqubits c') (qregs c') /\
    identity_over (nqubits c') (inputPermutation c') /\
    identity_over (nqubits c') (outputPermutation c').
Proof.
  intros Hsn Hlt Hnd Hq Hi Ho.
  destruct (readRealHeader_well_formed sn vars body c Hsn Hlt Hnd Hq Hi Ho)
    as (c' & Hr & Hn & Hnc & Hops & Hregs & _ & Hcov & Hid).
  exists c'. repeat split; try assumption; apply Hid.
Qed.

Lemma readRealHeader_declares_variables_witness :
  exists c',
    readRealHeader
      ([".numvars"; "3"] :: [".variables"; "a"; "b"; "c"] :: [".begin"]
       :: [[".end"]])%string emptyQC
    = Done ([] :: [[".end"%string]], c') /\
    nqubits c' = Z.of_nat (length ["a"; "b"; "c"]%string) /\
    nclassics c' = Z.of_nat (length ["a"; "b"; "c"]%string) /\
    ops c' = ops emptyQC /\
    (forall j v, ["a"; "b"; "c"]%string !! j = Some v ->
       qregs c' !! v = Some (Z.of_nat j, 1)) /\
    covered 0 (nqubits c') (qregs c') /\
    identity_over (nqubits c') (inputPermutation c') /\
    identity_over (nqubits c') (outputPermutation c').
Proof.
  apply (readRealHeader_declares_variables "3" ["a"; "b"; "c"]%string
           [[".end"%string]] emptyQC).
  - reflexivity.
  - simpl. lia.
  - apply (bool_decide_unpack _). vm_compute. exact I.
  - reflexivity.
  - reflexivity.
  - reflexivity.
Defined.

Section RealWellFormed.

Variable identifierMap : string -> option Gate.t.
Variable TOLERANCE : Q.

(** A REAL text with the header [.numvars n], [.variables v1 ... vn],
    [.begin] (distinct variables), imported into a circuit without
    registers and without permutation entries. If the import succeeds, the
    circuit has [n] qubits, every appended operation acts on qubits below
    [n] only, both permutations are the identity on exactly the indices
    below [n], and every index below [n] lies in a register: [print] and
    [stripTrailingIdleQubits] find what they look up. *)
Theorem importReal_well_formed (sn : string) (vars : list string)
    (body : istream) (c c' : QuantumComputation) :
  numeral sn = Some (Z.of_nat (length vars)) ->
  Z.of_nat (length vars) < 65536 ->
  NoDup vars ->
  qregs c = ∅ -> inputPermutation c = ∅ -> outputPermutation c = ∅ ->
  importReal identifierMap TOLERANCE
    ([".numvars"; sn] :: (".variables" :: vars) :: [".begin"] :: body)%string
    c = Done c' ->
  nqubits c' = Z.of_nat (length vars) /\
  (exists new,
     ops c' = ops c ++ new /\
     forall op q, op ∈ new -> op_actsOn op q = true ->
       0 <= q < nqubits c') /\
  covered 0 (nqubits c') (qregs c') /\
  identity_over (nqubits c') (inputPermutation c') /\
  identity_over (nqubits c') (outputPermutation c').
Proof.
  intros Hsn Hlt Hnd Hq Hi Ho Hr.
  destruct (readRealHeader_well_formed sn vars body c Hsn Hlt Hnd Hq Hi Ho)
    as (c1 & Hh & Hn & Hnc & Hops & Hregs & Hother & Hcov & Hid1 & Hid2).
  unfold importReal in Hr. rewrite Hh in Hr. cbn [mbind outcome_bind] in Hr.
  apply readRealGateDescriptions_frame in Hr.
  destruct Hr as (new & Hops' & Hn' & _ & Hq' & _ & Hi' & Ho' & Hall).
  rewrite Hn', Hq', Hi', Ho', Hn.
  split; [reflexivity |]. split.
  - exists new. split; [rewrite Hops', Hops; reflexivity |].
    intros op q Hop Hact. rewrite Forall_forall in Hall.
    destruct (Hall op Hop) as (_ & _ & Hdecl).
    destruct (Hdecl q Hact) as (label & reg & Hreg & Hqr).
    destruct (decide (label ∈ vars)) as [Hin | Hnotin].
    + apply list_elem_of_lookup in Hin. destruct Hin as [j Hj].
      rewrite (Hregs j label Hj) in Hreg. injection Hreg as <-.
      apply lookup_lt_Some in Hj. simpl in Hqr.
      rewrite wrap16_small in Hqr by lia. lia.
    + rewrite (Hother label Hnotin) in Hreg. discriminate Hreg.
  - rewrite <- Hn. repeat split; assumption.
Qed.

End RealWellFormed.

Lemma importReal_well_formed_witness :
  exists c',
    importReal sample_identifierMap sample_TOLERANCE
      ([".numvars"; "3"] :: [".variables"; "a"; "b"; "c"] :: [".begin"]
       :: [["t3"; "a"; "b"; "c"]; [".end"]])%string emptyQC = Done c' /\
    nqubits c' = Z.of_nat (length ["a"; "b"; "c"]%string) /\
    (exists new,
       ops c' = ops emptyQC ++ new /\
       forall op q, op ∈ new -> op_actsOn op q = true ->
         0 <= q < nqubits c') /\
    covered 0 (nqubits c') (qregs c') /\
    identity_over (nqubits c') (inputPermutation c') /\
    identity_over (nqubits c') (outputPermutation c').
Proof.
  eexists. split; [vm_compute; reflexivity |].
  apply (importReal_well_formed sample_identifierMap sample_TOLERANCE
           "3" ["a"; "b"; "c"]%string [["t3"; "a"; "b"; "c"]; [".end"]]%string
           emptyQC).
  - reflexivity.
  - simpl. lia.
  - apply (bool_decide_unpack _). vm_compute. exact I.
  - reflexivity.
  - reflexivity.
  - reflexivity.
  - vm_compute. reflexivity.
Defined.

(** ** Operations are never taken back *)

Section OnlyAppended.

Context {A : Type}.

Variable MAXN : Z.
Variable setNqubits : Z -> Operation -> Operation.
Variable actsOn : Operation -> Z -> bool.
Variable identifierMap : string -> option Gate.t.
Variable TOLERANCE : Q.
Variable getIndexQ : QuantumComputation -> string * Z -> Outcome Z.
Variable getIndexC : QuantumComputation -> string * Z -> Outcome Z.
Variable getNqubits : QuantumComputation -> Z.

(** What is seen of an operation, and does not depend on the width the
    operation was told. *)
Variable obs : Operation -> A.
Hypothesis obs_setNqubits : forall w op, obs (setNqubits w op) = obs op.

Lemma obs_told (w : Z) (l : list Operation) :
  map obs (map (setNqubits w) l) = map obs l.
Proof.
  rewrite map_map. apply map_ext. intros op. apply obs_setNqubits.
Qed.

Lemma strip_one_ops (i : Z) (c c' : QuantumComputation) :
  strip_one i c = Done c' -> ops c' = ops c.
Proof.
  unfold strip_one.
  destruct (getQubitRegister i _) as [n | |]; try discriminate.
  cbn [mbind outcome_bind].
  destruct (qregs _ !! n) as [reg|]; [| discriminate].
  destruct (reg.2 =? 1); intros Hr; injection Hr as <-; reflexivity.
Qed.

Lemma strip_loop_ops (k : nat) :
  forall c c',
    strip_loop setNqubits actsOn k c = Done c' ->
    map obs (ops c') = map obs (ops c).
Proof.
  induction k as [|k IH]; intros c c' Hr; cbn [strip_loop] in Hr.
  - injection Hr as <-. reflexivity.
  - destruct (isIdleQubit actsOn (Z.of_nat k) c).
    + destruct (strip_one (Z.of_nat k) c) as [c1 | |] eqn:E;
        try discriminate Hr.
      cbn [mbind outcome_bind] in Hr.
      rewrite (IH _ _ Hr), (strip_one_ops _ _ _ E). reflexivity.
    + injection Hr as <-. simpl. apply obs_told.
Qed.

Lemma qasm_statement_ops (st : QasmStatement) (c c' : QuantumComputation) :
  qasm_statement setNqubits st c = Done c' ->
  map obs (ops c) `prefix_of` map obs (ops c').
Proof.
  destruct st; simpl; intros Hr; try discriminate Hr;
    try (injection Hr as <-; simpl;
         first [ rewrite obs_told; reflexivity
               | rewrite map_app; apply prefix_app_r; reflexivity
               | reflexivity ]).
  destruct (cregs c !! creg); injection Hr as <-; simpl;
    rewrite map_app; apply prefix_app_r; reflexivity.
Qed.

Lemma qasm_statements_ops (rest : list QasmStatement) :
  forall st c c',
    qasm_statements setNqubits st rest c = Done c' ->
    map obs (ops c) `prefix_of` map obs (ops c').
Proof.
  induction rest as [|st' rest IH]; intros st c c' Hr;
    cbn [qasm_statements] in Hr;
    destruct (qasm_statement setNqubits st c) as [c1 | |] eqn:E;
    try discriminate Hr; apply qasm_statement_ops in E.
  - injection Hr as <-. exact E.
  - etrans; [exact E | exact (IH _ _ _ Hr)].
Qed.

(** No call takes an operation back. Whatever is seen of the operations
    that does not depend on the width they were told (their kind, their
    qubits) is, after a register was added, after the idle qubits were
    stripped, after an import in any format and after an instruction came
    over the bridge, what it was before, with at most new operations at the
    end. *)
Theorem operations_only_appended :
  (forall nq reg_name c c',
     addQubitRegister MAXN setNqubits nq reg_name c = Done c' ->
     map obs (ops c') = map obs (ops c)) /\
  (forall nc reg_name c c',
     addClassicalRegister nc reg_name c = Done c' -> ops c' = ops c) /\
  (forall c c',
     stripTrailingIdleQubits setNqubits actsOn c = Done c' ->
     map obs (ops c') = map obs (ops c)) /\
  (forall filename file format c c',
     import_as identifierMap TOLERANCE setNqubits filename file format c
     = Done c' ->
     map obs (ops c) `prefix_of` map obs (ops c')) /\
  (forall instruction qargs cargs params st,
     map obs (ops (qc st))
     `prefix_of`
     map obs (ops (qc (emplaceQiskitOperation getIndexQ getIndexC getNqubits
                         instruction qargs cargs params st).1))).
Proof.
  split; [| split; [| split; [| split]]].
  - intros nq reg_name c c' Hr.
    destruct (addQubitRegister_done _ _ _ _ _ _ Hr) as (_ & -> & _).
    apply obs_told.
  - intros nc reg_name c c'. unfold addClassicalRegister.
    destruct (cregs c !! reg_name); [discriminate |].
    intros Hr. injection Hr as <-. reflexivity.
  - intros c c' Hr. exact (strip_loop_ops _ _ _ Hr).
  - intros filename file format c c' Hr. unfold import_as in Hr.
    destruct file as [f|]; [| discriminate Hr].
    destruct format.
    + unfold importReal, readRealHeader in Hr.
      destruct (readRealHeader_loop _ _ _) as [[ins1 c1] | |] eqn:Eh;
        try discriminate Hr.
      cbn [mbind outcome_bind] in Hr.
      apply readRealHeader_loop_frame in Eh. destruct Eh as [Hops1 _].
      apply readRealGateDescriptions_frame in Hr.
      destruct Hr as (new & -> & _).
      rewrite Hops1, map_app. apply prefix_app_r. reflexivity.
    + unfold importOpenQASM in Hr.
      destruct (file_program f) as [|st rest]; [discriminate Hr |].
      destruct (qasm_statements setNqubits st rest _) as [c1 | |] eqn:E;
        try discriminate Hr.
      cbn [mbind outcome_bind] in Hr. injection Hr as <-.
      apply qasm_statements_ops in E. exact E.
    + apply importGRCS_appends_gates in Hr.
      destruct Hr as (new & -> & _).
      rewrite map_app. apply prefix_app_r. reflexivity.
    + discriminate Hr.
  - intros instruction qargs cargs params st.
    destruct (emplaceQiskitOperation_appends getIndexQ getIndexC getNqubits
                instruction qargs cargs params st)
      as (new & msgs & -> & _).
    simpl. rewrite map_app. apply prefix_app_r. reflexivity.
Qed.

End OnlyAppended.

Lemma operations_only_appended_witness :
  (forall nq reg_name c c',
     addQubitRegister 128 op_setNqubits nq reg_name c = Done c' ->
     map (fun op => op_actsOn op 0) (ops c')
     = map (fun op => op_actsOn op 0) (ops c)) /\
  (forall nc reg_name c c',
     addClassicalRegister nc reg_name c = Done c' -> ops c' = ops c) /\
  (forall c c',
     stripTrailingIdleQubits op_setNqubits op_actsOn c = Done c' ->
     map (fun op => op_actsOn op 0) (ops c')
     = map (fun op => op_actsOn op 0) (ops c)) /\
  (forall filename file format c c',
     import_as sample_identifierMap sample_TOLERANCE op_setNqubits filename
       file format c = Done c' ->
     map (fun op => op_actsOn op 0) (ops c)
     `prefix_of` map (fun op => op_actsOn op 0) (ops c')) /\
  (forall instruction qargs cargs params st,
     map (fun op => op_actsOn op 0) (ops (qc st))
     `prefix_of`
     map (fun op => op_actsOn op 0)
       (ops (qc (emplaceQiskitOperation getIndexFromQubitRegister
                   getIndexFromClassicalRegister nqubits instruction qargs
                   cargs params st).1))).
Proof.
  apply (operations_only_appended 128 op_setNqubits op_actsOn
           sample_identifierMap sample_TOLERANCE getIndexFromQubitRegister
           getIndexFromClassicalRegister nqubits
           (fun op => op_actsOn op 0)).
  intros w op. apply op_actsOn_setNqubits.
Defined.
